(** * repqlite: the SQL diff engine and the Fossil delta codec

    A shallow embedding of the parts of [repqlite.c] that the specification
    makes promises about, followed by the theorems that settle them.

    Conventions of the embedding.
    - A BLOB is a [list byte]; a C string is the [string] of its characters
      before the terminating NUL.  The text of a file and of a TEXT cell
      can hold NUL bytes; where the code reads such text as a C string the
      model stops at the first NUL as the code does.
    - C integers are values of [Z].  Arithmetic that can leave the range of
      its C type for admissible inputs is written with its wrap-around
      ([u16], [u32]).  BLOB lengths come from [sqlite3_column_bytes], an
      [int], so they stay below [2^31]; for such lengths no index
      computation of [rbuDeltaCreate] overflows and those are plain [Z].
    - Bytes written through the [zDelta] cursor, or to the [FILE] sink, are
      modelled as the list of bytes (characters) appended.
    - A [while] loop whose exit depends on data takes a [fuel] argument and
      yields [None] when the fuel runs out before the loop condition turns
      false; theorems state how much fuel is enough. *)

From Stdlib Require Import ZArith List Lia Bool DecimalString.
From Stdlib Require Import Strings.Byte Strings.Ascii Strings.String.
From Stdlib Require DecimalPos DecimalZ.
From stdpp Require Import base list.
Import ListNotations.

Open Scope Z_scope.

(** ** Error monad used for fuel and fallible steps *)

Definition bind {A B : Type} (c : option A) (k : A -> option B) : option B :=
  match c with
  | Some x => k x
  | None => None
  end.

Notation "x <- c ;; k" := (bind c (fun x => k))
  (at level 100, c at next level, right associativity).

Lemma bind_Some {A B : Type} (c : option A) (k : A -> option B) (r : B) :
  bind c k = Some r -> exists x, c = Some x /\ k x = Some r.
Proof. destruct c as [x|]; simpl; [eauto | discriminate]. Qed.

(** ** Machine integers and bytes *)

Definition u16 (x : Z) : Z := x mod 65536.
Definition u32 (x : Z) : Z := x mod 4294967296.

(** Numeric value of a byte read through [unsigned char]. *)
Definition u8 (b : byte) : Z := Z.of_N (Byte.to_N b).

(** [z[i]] for an array of bytes; the code never indexes out of range. *)
Definition byte_at (z : list byte) (i : Z) : byte :=
  nth (Z.to_nat i) z "000"%byte.

(** [memcpy (dst, &z[ofs], n)]: the [n] bytes of [z] from offset [ofs]. *)
Definition slice (z : list byte) (ofs n : Z) : list byte :=
  take (Z.to_nat n) (drop (Z.to_nat ofs) z).

Lemma u8_range (b : byte) : 0 <= u8 b < 256.
Proof. unfold u8. pose proof (Byte.to_N_bounded b). lia. Qed.

Lemma u32_range (x : Z) : 0 <= u32 x < 4294967296.
Proof. unfold u32. apply Z.mod_pos_bound. lia. Qed.

Lemma u32_small (x : Z) : 0 <= x < 4294967296 -> u32 x = x.
Proof. intros H. unfold u32. apply Z.mod_small. exact H. Qed.

(** ** Base-64 integers of the delta format: [putInt] and [digit_count] *)

Definition NHASH : Z := 16.

Definition zDigits : list byte :=
  list_byte_of_string
    "0123456789ABCDEFGHIJKLMNOPQRSTUVWXYZ_abcdefghijklmnopqrstuvwxyz~".

Definition digit_of (v : Z) : byte :=
  nth (Z.to_nat (Z.land v 63)) zDigits "0"%byte.

(** [for (i = 0; v > 0; i++, v >>= 6) zBuf[i] = zDigits[v & 0x3f];] *)
Fixpoint putInt_loop (fuel : nat) (v : Z) (zBuf : list byte)
  : option (list byte) :=
  if v >? 0 then
    match fuel with
    | O => None
    | S fuel' => putInt_loop fuel' (Z.shiftr v 6) (zBuf ++ [digit_of v])
    end
  else Some zBuf.

(** [putInt (v, &pz)]: the characters appended at the cursor.  The second
    loop copies [zBuf] out from its last entry down to its first. *)
Definition putInt (fuel : nat) (v : Z) : option (list byte) :=
  let v := u32 v in
  if v =? 0 then Some ["0"%byte]
  else zBuf <- putInt_loop fuel v [] ;; Some (rev zBuf).

(** [for (i = 1, x = 64; (unsigned int) v >= x; i++, x <<= 6) {}] with
    [i] and [x] of type [unsigned int]. *)
Fixpoint digit_count_loop (fuel : nat) (v i x : Z) : option Z :=
  if v >=? x then
    match fuel with
    | O => None
    | S fuel' => digit_count_loop fuel' v (u32 (i + 1)) (u32 (Z.shiftl x 6))
    end
  else Some i.

Definition digit_count (fuel : nat) (v : Z) : option Z :=
  digit_count_loop fuel (u32 v) 1 64.

(** Number of base-64 digits of an [unsigned int]. *)
Definition ndigits (v : Z) : Z :=
  if v <? 64 then 1
  else if v <? 4096 then 2
  else if v <? 262144 then 3
  else if v <? 16777216 then 4
  else if v <? 1073741824 then 5
  else 6.

(** *** Facts about [putInt] and [digit_count] *)

Lemma shiftr6 (v : Z) : Z.shiftr v 6 = v / 64.
Proof. rewrite Z.shiftr_div_pow2 by lia. reflexivity. Qed.

Lemma ndigits_range (v : Z) : 1 <= ndigits v <= 6.
Proof. unfold ndigits. repeat (destruct (_ <? _)); lia. Qed.

Lemma ndigits_small (v : Z) : v < 64 -> ndigits v = 1.
Proof. intros H. unfold ndigits. destruct (Z.ltb_spec v 64); [reflexivity | lia]. Qed.

Lemma ndigits_div (v : Z) :
  64 <= v < 68719476736 -> ndigits (v / 64) = ndigits v - 1.
Proof.
  intros H. unfold ndigits.
  repeat match goal with
         | |- context [?a <? ?b] => destruct (Z.ltb_spec a b)
         end; try lia;
  exfalso; Z.div_mod_to_equations; lia.
Qed.

Lemma putInt_loop_acc (fuel : nat) : forall (v : Z) (zBuf : list byte),
  putInt_loop fuel v zBuf = option_map (app zBuf) (putInt_loop fuel v []).
Proof.
  induction fuel as [|fuel IH]; intros v zBuf; simpl.
  - destruct (v >? 0); simpl; [reflexivity | now rewrite app_nil_r].
  - destruct (v >? 0); simpl; [| now rewrite app_nil_r].
    rewrite (IH _ (zBuf ++ _)), (IH _ [digit_of v]).
    destruct (putInt_loop fuel (Z.shiftr v 6) []); simpl; [|reflexivity].
    now rewrite <- app_assoc.
Qed.

Lemma putInt_loop_0 (fuel : nat) (zBuf : list byte) :
  putInt_loop fuel 0 zBuf = Some zBuf.
Proof. destruct fuel; reflexivity. Qed.

Lemma putInt_loop_step (fuel : nat) (v : Z) :
  0 < v ->
  putInt_loop (S fuel) v [] =
  option_map (cons (digit_of v)) (putInt_loop fuel (v / 64) []).
Proof.
  intros Hv. simpl. destruct (Z.gtb_spec v 0); [|lia].
  rewrite putInt_loop_acc, shiftr6. reflexivity.
Qed.

(** Whatever the loop returns has as many entries as [v] has digits. *)
Lemma putInt_loop_length (fuel : nat) : forall (v : Z) (ds : list byte),
  0 < v < 68719476736 ->
  putInt_loop fuel v [] = Some ds -> Z.of_nat (length ds) = ndigits v.
Proof.
  induction fuel as [|fuel IH]; intros v ds Hv.
  - simpl. destruct (Z.gtb_spec v 0); [discriminate | lia].
  - rewrite putInt_loop_step by lia.
    destruct (putInt_loop fuel (v / 64) []) as [r|] eqn:E; simpl; [|discriminate].
    intros [= <-]. destruct (Z.ltb_spec v 64) as [Hs|Hs].
    + assert (v / 64 = 0) as Hz by (Z.div_mod_to_equations; lia).
      rewrite Hz, putInt_loop_0 in E. injection E as <-.
      rewrite ndigits_small by lia. reflexivity.
    + assert (0 < v / 64 < 68719476736) as Hd by (Z.div_mod_to_equations; lia).
      specialize (IH _ _ Hd E). rewrite ndigits_div in IH by lia.
      simpl length. lia.
Qed.

(** The loop is over once the fuel covers the digits of [v]. *)
Lemma putInt_loop_total (fuel : nat) : forall (v : Z),
  0 <= v < 68719476736 -> ndigits v <= Z.of_nat fuel ->
  exists ds, putInt_loop fuel v [] = Some ds.
Proof.
  induction fuel as [|fuel IH]; intros v Hv Hf.
  - pose proof (ndigits_range v). lia.
  - destruct (Z.eq_dec v 0) as [->|Hnz]; [rewrite putInt_loop_0; eauto|].
    rewrite putInt_loop_step by lia.
    destruct (Z.ltb_spec v 64) as [Hs|Hs].
    + assert (v / 64 = 0) as Hz by (Z.div_mod_to_equations; lia).
      rewrite Hz, putInt_loop_0. simpl. eauto.
    + destruct (IH (v / 64)) as [ds Hds].
      * Z.div_mod_to_equations; lia.
      * rewrite ndigits_div by lia. lia.
      * rewrite Hds. simpl. eauto.
Qed.

Lemma digit_of_In (v : Z) : In (digit_of v) zDigits.
Proof.
  unfold digit_of. apply nth_In.
  assert (0 <= Z.land v 63 < 64) as H.
  { change 63 with (Z.ones 6). rewrite Z.land_ones by lia.
    apply Z.mod_pos_bound. lia. }
  change (length zDigits) with 64%nat. lia.
Qed.

Lemma putInt_loop_digits (fuel : nat) : forall (v : Z) (ds : list byte),
  putInt_loop fuel v [] = Some ds -> Forall (fun d => In d zDigits) ds.
Proof.
  induction fuel as [|fuel IH]; intros v ds; simpl.
  - destruct (v >? 0); [discriminate|]. intros [= <-]. constructor.
  - destruct (v >? 0); [|intros [= <-]; constructor].
    rewrite putInt_loop_acc.
    destruct (putInt_loop fuel (Z.shiftr v 6) []) as [r|] eqn:E; simpl; [|discriminate].
    intros [= <-]. constructor; [apply digit_of_In | eapply IH; eassumption].
Qed.

Lemma putInt_length (fuel : nat) (v : Z) (ds : list byte) :
  putInt fuel v = Some ds -> Z.of_nat (length ds) = ndigits (u32 v).
Proof.
  unfold putInt. pose proof (u32_range v) as Hr.
  destruct (Z.eqb_spec (u32 v) 0) as [Hz|Hz].
  - intros [= <-]. rewrite Hz. reflexivity.
  - intros H. apply bind_Some in H as (zBuf & Hl & [= <-]).
    rewrite length_rev. apply (putInt_loop_length fuel); [lia | exact Hl].
Qed.

Lemma putInt_total (fuel : nat) (v : Z) :
  (6 <= fuel)%nat -> exists ds, putInt fuel v = Some ds.
Proof.
  intros Hf. unfold putInt. pose proof (u32_range v) as Hr.
  destruct (Z.eqb_spec (u32 v) 0) as [Hz|Hz]; [eauto|].
  destruct (putInt_loop_total fuel (u32 v)) as [ds Hds].
  - lia.
  - pose proof (ndigits_range (u32 v)). lia.
  - rewrite Hds. simpl. eauto.
Qed.

Lemma putInt_digits (fuel : nat) (v : Z) (ds : list byte) :
  putInt fuel v = Some ds -> Forall (fun d => In d zDigits) ds.
Proof.
  unfold putInt. destruct (u32 v =? 0).
  - intros [= <-]. constructor; [|constructor]. vm_compute. tauto.
  - intros H. apply bind_Some in H as (zBuf & Hl & [= <-]).
    apply putInt_loop_digits in Hl. rewrite List.Forall_forall in *.
    intros d Hd. apply Hl. now apply in_rev.
Qed.

(** Once [x] has wrapped to zero the loop of [digit_count] cannot exit. *)
Lemma digit_count_loop_stuck (fuel : nat) : forall (v i : Z),
  0 <= v -> digit_count_loop fuel v i 0 = None.
Proof.
  induction fuel as [|fuel IH]; intros v i Hv; simpl;
    destruct (Z.geb_spec v 0); try lia; [reflexivity|].
  apply IH. exact Hv.
Qed.

(** The values [x] takes in [digit_count]: [64^i] truncated to 32 bits. *)
Definition dc_x (i : Z) : Z :=
  if i =? 1 then 64
  else if i =? 2 then 4096
  else if i =? 3 then 262144
  else if i =? 4 then 16777216
  else if i =? 5 then 1073741824
  else 0.

Ltac split_index i :=
  let H := fresh in
  assert (i = 1 \/ i = 2 \/ i = 3 \/ i = 4 \/ i = 5 \/ i = 6) as H by lia;
  destruct H as [->|[->|[->|[->|[->| ->]]]]].

Ltac split_ltb :=
  repeat match goal with
         | |- context [?a <? ?b] => destruct (Z.ltb_spec a b)
         end.

Ltac eval_dc_x :=
  repeat match goal with
         | |- context [dc_x ?e] =>
             let r := eval vm_compute in (dc_x e) in change (dc_x e) with r
         end.

Lemma dc_x_next (i : Z) :
  1 <= i <= 5 -> u32 (Z.shiftl (dc_x i) 6) = dc_x (i + 1).
Proof. intros Hi. split_index i; try lia; reflexivity. Qed.

Lemma digit_count_loop_sound (fuel : nat) : forall (v i n : Z),
  0 <= v < 4294967296 -> 1 <= i <= 6 -> (i = 1 \/ dc_x (i - 1) <= v) ->
  digit_count_loop fuel v i (dc_x i) = Some n ->
  n = ndigits v /\ v < 1073741824.
Proof.
  assert (forall v i, 0 <= v -> 1 <= i <= 6 -> (i = 1 \/ dc_x (i - 1) <= v) ->
                      v < dc_x i -> i = ndigits v /\ v < 1073741824) as Hexit.
  { intros v i Hv Hi Hlow Hlt. revert Hlow Hlt. unfold ndigits.
    split_index i; eval_dc_x; intros; split_ltb; lia. }
  induction fuel as [|fuel IH]; intros v i n Hv Hi Hlow; simpl.
  - destruct (Z.geb_spec v (dc_x i)) as [Hge|Hlt]; [discriminate|].
    intros [= <-]. apply Hexit; lia.
  - destruct (Z.geb_spec v (dc_x i)) as [Hge|Hlt].
    + destruct (Z.eq_dec i 6) as [->|Hne].
      * change (u32 (Z.shiftl (dc_x 6) 6)) with 0.
        rewrite digit_count_loop_stuck by lia. discriminate.
      * rewrite dc_x_next by lia.
        assert (u32 (i + 1) = i + 1) as -> by (apply u32_small; lia).
        apply IH; [lia | lia |]. right.
        replace (i + 1 - 1) with i by lia. lia.
    + intros [= <-]. apply Hexit; lia.
Qed.

Lemma digit_count_sound (fuel : nat) (v n : Z) :
  digit_count fuel v = Some n -> n = ndigits (u32 v) /\ u32 v < 1073741824.
Proof.
  unfold digit_count. intros H.
  apply (digit_count_loop_sound fuel (u32 v) 1 n); auto using u32_range; lia.
Qed.

Lemma digit_count_loop_total (fuel : nat) : forall (v i : Z),
  0 <= v < 1073741824 -> 1 <= i <= 5 -> (i = 1 \/ dc_x (i - 1) <= v) ->
  5 - i <= Z.of_nat fuel ->
  digit_count_loop fuel v i (dc_x i) = Some (ndigits v).
Proof.
  assert (forall v i, 0 <= v -> 1 <= i <= 5 -> (i = 1 \/ dc_x (i - 1) <= v) ->
                      v < dc_x i -> i = ndigits v) as Hexit.
  { intros v i Hv Hi Hlow Hlt. revert Hlow Hlt. unfold ndigits.
    split_index i; try lia; eval_dc_x; intros; split_ltb; lia. }
  induction fuel as [|fuel IH]; intros v i Hv Hi Hlow Hf.
  - assert (i = 5) as -> by lia. simpl.
    destruct (Z.geb_spec v (dc_x 5)) as [Hge|Hlt]; [change (dc_x 5) with 1073741824 in Hge; lia|].
    f_equal. apply Hexit; lia.
  - simpl. destruct (Z.geb_spec v (dc_x i)) as [Hge|Hlt].
    + assert (i <> 5) as Hne by (intros ->; change (dc_x 5) with 1073741824 in Hge; lia).
      rewrite dc_x_next by lia.
      assert (u32 (i + 1) = i + 1) as -> by (apply u32_small; lia).
      apply IH; [lia | lia | | lia]. right.
      replace (i + 1 - 1) with i by lia. exact Hge.
    + f_equal. apply Hexit; lia.
Qed.

Lemma digit_count_total (fuel : nat) (v : Z) :
  (5 <= fuel)%nat -> 0 <= v < 1073741824 ->
  digit_count fuel v = Some (ndigits v).
Proof.
  intros Hf Hv. unfold digit_count. rewrite u32_small by lia.
  apply (digit_count_loop_total fuel v 1); lia.
Qed.

(** For [v >= 2^30] the comparison value [x] wraps to zero after the fifth
    shift and [digit_count] never returns. *)
Lemma digit_count_diverges (fuel : nat) (v : Z) :
  1073741824 <= v < 4294967296 -> digit_count fuel v = None.
Proof.
  intros Hv. destruct (digit_count fuel v) as [n|] eqn:E; [|reflexivity].
  apply digit_count_sound in E. rewrite u32_small in E by lia. lia.
Qed.

(** Claim C10.  For every [v] with [0 <= v < 2^30] [putInt] writes exactly
    [digit_count v] characters, all of them base-64 digits; [putInt 0]
    writes the single digit ['0'] and [digit_count 0] is [1].  Both loops
    are over within six iterations. *)
Theorem putInt_writes_digit_count (fuel : nat) (v : Z) :
  (6 <= fuel)%nat -> 0 <= v < 1073741824 ->
  exists (ds : list byte) (n : Z),
    putInt fuel v = Some ds /\ digit_count fuel v = Some n /\
    Z.of_nat (length ds) = n /\
    Forall (fun d => In d zDigits) ds /\
    (v = 0 -> ds = ["0"%byte] /\ n = 1).
Proof.
  intros Hf Hv.
  destruct (putInt_total fuel v) as [ds Hds]; [lia|].
  exists ds, (ndigits v). split; [exact Hds|]. split.
  - apply digit_count_total; lia.
  - split; [|split].
    + rewrite (putInt_length _ _ _ Hds). f_equal. apply u32_small. lia.
    + eapply putInt_digits. exact Hds.
    + intros ->. unfold putInt in Hds. change (u32 0 =? 0) with true in Hds.
      injection Hds as <-. split; reflexivity.
Qed.

Lemma putInt_writes_digit_count_witness :
  ((6 <= 6)%nat /\ 0 <= 4096 < 1073741824) /\
  exists (ds : list byte) (n : Z),
    putInt 6 4096 = Some ds /\ digit_count 6 4096 = Some n /\
    Z.of_nat (length ds) = n /\
    Forall (fun d => In d zDigits) ds /\
    (4096 = 0 -> ds = ["0"%byte] /\ n = 1).
Proof.
  split; [lia|]. apply (putInt_writes_digit_count 6 4096); lia.
Defined.

(** ** The rolling hash and the checksum *)

Definition len (z : list byte) : Z := Z.of_nat (length z).

(** [a[i]] for an array of [int]. *)
Definition int_at (a : list Z) (i : Z) : Z := nth (Z.to_nat i) a 0.

(** [struct hash]: the fields [a], [b], [i] and [z]. *)
Record hash : Type := mk_hash { h_a : Z; h_b : Z; h_i : Z; h_z : list byte }.

Section Codec.

(** Whether plain [char] is signed on the target (it is on x86, it is not
    on ARM Linux); the hash reads the BLOBs through [const char *]. *)
Variable char_signed : bool.

Definition char_val (c : byte) : Z :=
  if char_signed && (128 <=? u8 c) then u8 c - 256 else u8 c.

(** The loop of [hash_init]: [a += z[i]; b += (NHASH - i) * z[i];] with
    [a], [b] of type [u16]. *)
Fixpoint hash_init_loop (n : nat) (z : list byte) (i a b : Z) : Z * Z :=
  match n with
  | O => (a, b)
  | S n' =>
      let c := char_val (byte_at z i) in
      hash_init_loop n' z (i + 1) (u16 (a + c)) (u16 (b + (NHASH - i) * c))
  end.

(** [hash_init (&h, z)], [z] pointing at at least [NHASH] bytes. *)
Definition hash_init (z : list byte) : hash :=
  let ab := hash_init_loop 16 z 0 0 0 in
  {| h_a := Z.land (fst ab) 65535;
     h_b := Z.land (snd ab) 65535;
     h_i := 0;
     h_z := take 16 z |}.

Definition hash_next (h : hash) (c : byte) : hash :=
  let old := u16 (char_val (byte_at (h_z h) (h_i h))) in
  let a := u16 (h_a h - old + char_val c) in
  {| h_a := a;
     h_b := u16 (h_b h - NHASH * old + a);
     h_i := Z.land (h_i h + 1) (NHASH - 1);
     h_z := <[Z.to_nat (h_i h) := c]> (h_z h) |}.

Definition hash_32bit (h : hash) : Z :=
  Z.lor (Z.land (h_a h) 65535) (u32 (Z.shiftl (Z.land (h_b h) 65535) 16)).

End Codec.

(** The running sums [sum0 .. sum3] of [checksum]. *)
Record sums : Type := mk_sums { sum0 : Z; sum1 : Z; sum2 : Z; sum3 : Z }.

(** [while (N >= 16) { ... z += 16; N -= 16; }] *)
Fixpoint checksum16 (z : list byte) (s : sums) : list byte * sums :=
  match z with
  | z0 :: z1 :: z2 :: z3 :: z4 :: z5 :: z6 :: z7 :: z8 :: z9 :: z10 :: z11
       :: z12 :: z13 :: z14 :: z15 :: z' =>
      checksum16 z'
        {| sum0 := u32 (sum0 s + u32 (u8 z0 + u8 z4 + u8 z8 + u8 z12));
           sum1 := u32 (sum1 s + u32 (u8 z1 + u8 z5 + u8 z9 + u8 z13));
           sum2 := u32 (sum2 s + u32 (u8 z2 + u8 z6 + u8 z10 + u8 z14));
           sum3 := u32 (sum3 s + u32 (u8 z3 + u8 z7 + u8 z11 + u8 z15)) |}
  | _ => (z, s)
  end.

(** [while (N >= 4) { ... z += 4; N -= 4; }] *)
Fixpoint checksum4 (z : list byte) (s : sums) : list byte * sums :=
  match z with
  | z0 :: z1 :: z2 :: z3 :: z' =>
      checksum4 z'
        {| sum0 := u32 (sum0 s + u8 z0);
           sum1 := u32 (sum1 s + u8 z1);
           sum2 := u32 (sum2 s + u8 z2);
           sum3 := u32 (sum3 s + u8 z3) |}
  | _ => (z, s)
  end.

(** [checksum (zIn, N)]; the [switch] on the remaining [N] falls through
    from [case 3] to [case 1]. *)
Definition checksum (zIn : list byte) : Z :=
  let (z, s) := checksum16 zIn {| sum0 := 0; sum1 := 0; sum2 := 0; sum3 := 0 |} in
  let (z, s) := checksum4 z s in
  let s3 :=
    u32 (sum3 s
         + u32 (u32 (u32 (Z.shiftl (sum2 s) 8) + u32 (Z.shiftl (sum1 s) 16))
                + u32 (Z.shiftl (sum0 s) 24))) in
  match z with
  | [z0; z1; z2] =>
      u32 (u32 (u32 (s3 + Z.shiftl (u8 z2) 8) + Z.shiftl (u8 z1) 16)
           + Z.shiftl (u8 z0) 24)
  | [z0; z1] => u32 (u32 (s3 + Z.shiftl (u8 z1) 16) + Z.shiftl (u8 z0) 24)
  | [z0] => u32 (s3 + Z.shiftl (u8 z0) 24)
  | _ => s3
  end.

Lemma checksum_range (z : list byte) : 0 <= checksum z < 4294967296.
Proof.
  unfold checksum.
  destruct (checksum16 z _) as [z1 s1]. destruct (checksum4 z1 s1) as [z2 s2].
  destruct z2 as [|? [|? [|? [|? ?]]]]; apply u32_range.
Qed.

(** ** The delta encoder [rbuDeltaCreate] *)

(** The hash table: [landmark] and [collide], both of [nHash] entries. *)
Record htab : Type := mk_htab { landmark : list Z; collide : list Z }.

(** [bestCnt], [bestOfst] and [bestLitsz]. *)
Record best : Type := mk_best { bestCnt : Z; bestOfst : Z; bestLitsz : Z }.

Section DeltaCreate.

Variable char_signed : bool.
(** Iterations granted to each data-dependent loop. *)
Variable fuel : nat.
Variables zSrc zOut : list byte.

Local Abbreviation lenSrc := (len zSrc).
Local Abbreviation lenOut := (len zOut).

(** [for (i = 0; i < lenSrc - NHASH; i += NHASH)]: one landmark per
    iteration, pushed on the chain of its bucket. *)
Fixpoint build_loop (n : nat) (nHash i : Z) (t : htab) : option htab :=
  if i <? lenSrc - NHASH then
    match n with
    | O => None
    | S n' =>
        let h := hash_init char_signed (drop (Z.to_nat i) zSrc) in
        let hv := hash_32bit h mod nHash in
        build_loop n' nHash (i + NHASH)
          {| collide := <[Z.to_nat (i / NHASH) := int_at (landmark t) hv]> (collide t);
             landmark := <[Z.to_nat hv := i / NHASH]> (landmark t) |}
    end
  else Some t.

(** [memset (landmark, -1, ...); memset (collide, -1, ...);] then the loop. *)
Definition build_table (nHash : Z) : option htab :=
  build_loop fuel nHash 0
    {| landmark := replicate (Z.to_nat nHash) (-1);
       collide := replicate (Z.to_nat nHash) (-1) |}.

(** [for (j = 0, x = iSrc, y = base + i; x < lenSrc && y < lenOut;
         j++, x++, y++) if (zSrc[x] != zOut[y]) break;] *)
Fixpoint match_fwd (n : nat) (j x y : Z) : option Z :=
  if (x <? lenSrc) && (y <? lenOut) then
    if negb (Byte.eqb (byte_at zSrc x) (byte_at zOut y)) then Some j
    else
      match n with
      | O => None
      | S n' => match_fwd n' (j + 1) (x + 1) (y + 1)
      end
  else Some j.

(** [for (k = 1; k < iSrc && (unsigned int) k <= i; k++)
       if (zSrc[iSrc - k] != zOut[base + i - k]) break;] *)
Fixpoint match_bwd (n : nat) (iSrc base i k : Z) : option Z :=
  if (k <? iSrc) && (k <=? i) then
    if negb (Byte.eqb (byte_at zSrc (iSrc - k)) (byte_at zOut (base + i - k)))
    then Some k
    else
      match n with
      | O => None
      | S n' => match_bwd n' iSrc base i (k + 1)
      end
  else Some k.

(** [while (iBlock >= 0 && (limit--) > 0)]: the walk along the collision
    chain that keeps the longest worthwhile match. *)
Fixpoint chain_walk (limit : nat) (t : htab) (base i iBlock : Z) (bst : best)
  : option best :=
  if iBlock >=? 0 then
    match limit with
    | O => Some bst
    | S limit' =>
        let iSrc := iBlock * NHASH in
        j <- match_fwd fuel 0 iSrc (base + i) ;;
        let j := j - 1 in
        k <- match_bwd fuel iSrc base i 1 ;;
        let k := k - 1 in
        let ofst := iSrc - k in
        let cnt := j + k + 1 in
        let litsz := i - k in
        d1 <- digit_count fuel (i - k) ;;
        d2 <- digit_count fuel cnt ;;
        d3 <- digit_count fuel ofst ;;
        let sz := d1 + d2 + d3 + 3 in
        chain_walk limit' t base i (int_at (collide t) iBlock)
          (if (cnt >=? sz) && (cnt >? bestCnt bst)
           then {| bestCnt := cnt; bestOfst := iSrc - k; bestLitsz := litsz |}
           else bst)
    end
  else Some bst.

(** An "insert" record [NNN:TTTTT] for [n] bytes of the target at [base]. *)
Definition put_insert (base n : Z) : option (list byte) :=
  d <- putInt fuel n ;;
  Some (d ++ [":"%byte] ++ slice zOut base n).

(** The copy command found by the scan, preceded by the pending literal;
    the result is the text written and the new [base].  ([lastRead] is
    assigned here but read nowhere, it is left out.) *)
Definition put_copy (base : Z) (bst : best) : option (list byte * Z) :=
  lit <- (if bestLitsz bst >? 0 then put_insert base (bestLitsz bst) else Some []) ;;
  let base := if bestLitsz bst >? 0 then base + bestLitsz bst else base in
  let base := base + bestCnt bst in
  d1 <- putInt fuel (bestCnt bst) ;;
  d2 <- putInt fuel (bestOfst bst) ;;
  Some (lit ++ d1 ++ ["@"%byte] ++ d2 ++ [","%byte], base).

(** The inner [while (1)]: slide the window over [zOut[base + i ..]] until
    a copy is worth issuing or the end of the target is reached. *)
Fixpoint scan (n : nat) (t : htab) (nHash base : Z) (h : hash) (i : Z)
  (bst : best) : option (list byte * Z) :=
  match n with
  | O => None
  | S n' =>
      let hv := hash_32bit h mod nHash in
      let iBlock := int_at (landmark t) hv in
      bst <- chain_walk 250 t base i iBlock bst ;;
      if bestCnt bst >? 0 then put_copy base bst
      else if base + i + NHASH >=? lenOut then
        lit <- put_insert base (lenOut - base) ;; Some (lit, lenOut)
      else
        scan n' t nHash base
          (hash_next char_signed h (byte_at zOut (base + i + NHASH))) (i + 1) bst
  end.

(** The outer [while (base + NHASH < lenOut)]. *)
Fixpoint scan_all (n : nat) (t : htab) (nHash base : Z)
  : option (list byte * Z) :=
  if base + NHASH <? lenOut then
    match n with
    | O => None
    | S n' =>
        r <- scan fuel t nHash base
               (hash_init char_signed (drop (Z.to_nat base) zOut)) 0
               {| bestCnt := 0; bestOfst := 0; bestLitsz := 0 |} ;;
        r' <- scan_all n' t nHash (snd r) ;;
        Some (fst r ++ fst r', snd r')
    end
  else Some ([], base).

(** [rbuDeltaCreate (zSrc, lenSrc, zOut, lenOut, zDelta)]: the bytes
    written to [zDelta]; the C function returns their number. *)
Definition rbuDeltaCreate : option (list byte) :=
  hdr <- putInt fuel lenOut ;;
  if lenSrc <=? NHASH then
    d <- putInt fuel lenOut ;;
    c <- putInt fuel (checksum zOut) ;;
    Some (hdr ++ ["010"%byte] ++ d ++ [":"%byte] ++ zOut ++ c ++ [";"%byte])
  else
    let nHash := lenSrc / NHASH in
    t <- build_table nHash ;;
    r <- scan_all fuel t nHash 0 ;;
    tail <- (if snd r <? lenOut then put_insert (snd r) (lenOut - snd r)
             else Some []) ;;
    c <- putInt fuel (checksum zOut) ;;
    Some (hdr ++ ["010"%byte] ++ fst r ++ tail ++ c ++ [";"%byte]).

End DeltaCreate.

(** ** Reading a delta back

    The program only writes deltas; they are read by SQLite's RBU
    extension, which is not part of the repository.  The reader below is
    written from the "Output Format" comment above [rbuDeltaCreate] in
    the source: a base-64 target size and a newline, then copy commands
    [NNN@MMM,] ([NNN] bytes of the source from offset [MMM]; [NNN = 0]
    copies the rest of the source), literals [NNN:TTTTT], and a last term
    [NNN;] holding the checksum of the output. *)

Fixpoint digit_index (ds : list byte) (c : byte) (n : Z) : option Z :=
  match ds with
  | [] => None
  | d :: ds' => if Byte.eqb d c then Some n else digit_index ds' c (n + 1)
  end.

(** Value of a base-64 digit, [None] for any other character. *)
Definition digit_value (c : byte) : option Z := digit_index zDigits c 0.

(** Reads a base-64 number; returns it with the unread text. *)
Fixpoint getInt (z : list byte) (v : Z) : Z * list byte :=
  match z with
  | [] => (v, [])
  | c :: z' =>
      match digit_value c with
      | Some d => getInt z' (v * 64 + d)
      | None => (v, z)
      end
  end.

(** Runs the commands of a delta; [out] is the output so far.  The result
    is the output and the number of the final [NNN;] term. *)
Fixpoint delta_commands (n : nat) (zSrc zDelta out : list byte)
  : option (list byte * Z) :=
  match n with
  | O => None
  | S n' =>
      let (cnt, z1) := getInt zDelta 0 in
      match z1 with
      | c :: z2 =>
          if Byte.eqb c "@"%byte then
            let (ofst, z3) := getInt z2 0 in
            match z3 with
            | c' :: z4 =>
                if Byte.eqb c' ","%byte && (ofst + cnt <=? len zSrc) then
                  delta_commands n' zSrc z4
                    (out ++ slice zSrc ofst
                              (if cnt =? 0 then len zSrc - ofst else cnt))
                else None
            | [] => None
            end
          else if Byte.eqb c ":"%byte then
            if cnt <=? len z2 then
              delta_commands n' zSrc (drop (Z.to_nat cnt) z2)
                (out ++ take (Z.to_nat cnt) z2)
            else None
          else if Byte.eqb c ";"%byte then
            match z2 with
            | [] => Some (out, cnt)
            | _ :: _ => None
            end
          else None
      | [] => None
      end
  end.

(** Applies [zDelta] to [zSrc]: the target, if its length is the one the
    header announces, and the checksum the delta carries. *)
Definition delta_apply (zSrc zDelta : list byte) : option (list byte * Z) :=
  let (limit, z1) := getInt zDelta 0 in
  match z1 with
  | c :: z2 =>
      if Byte.eqb c "010"%byte then
        r <- delta_commands (length z2) zSrc z2 [] ;;
        if len (fst r) =? limit then Some r else None
      else None
  | [] => None
  end.

(** ** Slices of byte arrays *)

Lemma len_nonneg (z : list byte) : 0 <= len z.
Proof. unfold len. lia. Qed.

Lemma len_app (a b : list byte) : len (a ++ b) = len a + len b.
Proof. unfold len. rewrite length_app. lia. Qed.

Lemma slice_cons (z : list byte) (x n : Z) :
  0 <= x < len z -> 0 <= n ->
  slice z x (n + 1) = byte_at z x :: slice z (x + 1) n.
Proof.
  unfold slice, byte_at, len. intros Hx Hn.
  replace (Z.to_nat (n + 1)) with (S (Z.to_nat n)) by lia.
  replace (Z.to_nat (x + 1)) with (S (Z.to_nat x)) by lia.
  destruct (nth_lookup_or_length z (Z.to_nat x) "000"%byte) as [E|E]; [|lia].
  rewrite (drop_S _ _ _ E). reflexivity.
Qed.

Lemma slice_ext (A B : list byte) (n : nat) : forall (a b : Z),
  0 <= a -> 0 <= b -> a + Z.of_nat n <= len A -> b + Z.of_nat n <= len B ->
  (forall m, 0 <= m < Z.of_nat n -> byte_at A (a + m) = byte_at B (b + m)) ->
  slice A a (Z.of_nat n) = slice B b (Z.of_nat n).
Proof.
  induction n as [|n IH]; intros a b Ha Hb HA HB Heq; [reflexivity|].
  replace (Z.of_nat (S n)) with (Z.of_nat n + 1) in * by lia.
  rewrite !slice_cons by lia. f_equal.
  - specialize (Heq 0). rewrite !Z.add_0_r in Heq. apply Heq. lia.
  - apply IH; try lia. intros m Hm.
    replace (a + 1 + m) with (a + (m + 1)) by lia.
    replace (b + 1 + m) with (b + (m + 1)) by lia.
    apply Heq. lia.
Qed.

Lemma slice_app (z : list byte) (a n m : Z) :
  0 <= a -> 0 <= n -> 0 <= m ->
  slice z a (n + m) = slice z a n ++ slice z (a + n) m.
Proof.
  intros Ha Hn Hm. unfold slice.
  replace (Z.to_nat (n + m)) with (Z.to_nat n + Z.to_nat m)%nat by lia.
  replace (Z.to_nat (a + n)) with (Z.to_nat a + Z.to_nat n)%nat by lia.
  rewrite <- take_take_drop, drop_drop. reflexivity.
Qed.

Lemma slice_all (z : list byte) : slice z 0 (len z) = z.
Proof.
  unfold slice, len. rewrite Nat2Z.id. simpl. apply firstn_all.
Qed.

Lemma slice_len (z : list byte) (a n : Z) :
  0 <= a -> 0 <= n -> a + n <= len z -> len (slice z a n) = n.
Proof.
  unfold slice, len. intros Ha Hn Hl.
  rewrite length_take, length_drop. lia.
Qed.

(** ** Deltas as lists of commands

    The text the encoder writes between the header and the checksum is a
    sequence of rendered commands; what a reader makes of it is the
    concatenation of what each command stands for. *)

Inductive cmd : Type :=
| Lit (bs : list byte)
| Copy (cnt ofst : Z).

(** The base-64 numeral of [v], as [putInt] writes it. *)
Definition b64 (v : Z) : list byte :=
  match putInt 6 v with
  | Some ds => ds
  | None => []
  end.

Definition render (c : cmd) : list byte :=
  match c with
  | Lit bs => b64 (len bs) ++ [":"%byte] ++ bs
  | Copy cnt ofst => b64 cnt ++ ["@"%byte] ++ b64 ofst ++ [","%byte]
  end.

Definition render_all (cs : list cmd) : list byte := flat_map render cs.

Definition interp (zSrc : list byte) (c : cmd) : list byte :=
  match c with
  | Lit bs => bs
  | Copy cnt ofst => slice zSrc ofst cnt
  end.

Definition interp_all (zSrc : list byte) (cs : list cmd) : list byte :=
  flat_map (interp zSrc) cs.

Definition cmd_ok (zSrc : list byte) (c : cmd) : Prop :=
  match c with
  | Lit bs => len bs < 4294967296
  | Copy cnt ofst =>
      0 < cnt < 4294967296 /\ 0 <= ofst < 4294967296 /\ ofst + cnt <= len zSrc
  end.

Lemma putInt_loop_det (f1 : nat) : forall (f2 : nat) (v : Z) (a b : list byte),
  putInt_loop f1 v [] = Some a -> putInt_loop f2 v [] = Some b -> a = b.
Proof.
  induction f1 as [|f1 IH]; intros f2 v a b.
  - simpl. destruct (Z.gtb_spec v 0) as [Hv|Hv]; [discriminate|].
    intros [= <-]. destruct f2; simpl; destruct (Z.gtb_spec v 0); try lia;
      now intros [= <-].
  - destruct (Z.gtb_spec v 0) as [Hv|Hv].
    + rewrite putInt_loop_step by lia. destruct f2 as [|f2].
      * simpl. destruct (Z.gtb_spec v 0); [discriminate | lia].
      * rewrite putInt_loop_step by lia.
        destruct (putInt_loop f1 (v / 64) []) as [a'|] eqn:Ea; [|discriminate].
        destruct (putInt_loop f2 (v / 64) []) as [b'|] eqn:Eb; [|discriminate].
        simpl. intros [= <-] [= <-]. f_equal. eapply IH; eassumption.
    + simpl. destruct (Z.gtb_spec v 0); [lia|]. intros [= <-].
      destruct f2; simpl; destruct (Z.gtb_spec v 0); try lia; now intros [= <-].
Qed.

Lemma putInt_b64 (fuel : nat) (v : Z) (ds : list byte) :
  putInt fuel v = Some ds -> ds = b64 v.
Proof.
  intros H. unfold b64. destruct (putInt_total 6 v) as [ds' Hds']; [lia|].
  rewrite Hds'. revert H Hds'. unfold putInt.
  destruct (u32 v =? 0); [congruence|].
  intros H1 H2. apply bind_Some in H1 as (a & Ha & [= <-]).
  apply bind_Some in H2 as (b & Hb & [= <-]).
  f_equal. eapply putInt_loop_det; eassumption.
Qed.

Lemma b64_length (v : Z) : Z.of_nat (length (b64 v)) = ndigits (u32 v).
Proof.
  unfold b64. destruct (putInt_total 6 v) as [ds Hds]; [lia|].
  rewrite Hds. eapply putInt_length. exact Hds.
Qed.

Lemma b64_length_le (v : Z) : (1 <= length (b64 v) <= 6)%nat.
Proof.
  pose proof (b64_length v). pose proof (ndigits_range (u32 v)). lia.
Qed.

(** *** Reading back what [putInt] wrote *)

Lemma digit_value_nth (n : nat) :
  (n < 64)%nat -> digit_value (nth n zDigits "0"%byte) = Some (Z.of_nat n).
Proof.
  intros Hn.
  assert (forallb (fun k => match digit_value (nth k zDigits "0"%byte) with
                            | Some d => d =? Z.of_nat k
                            | None => false
                            end) (seq 0 64) = true) as Hall
      by (vm_compute; reflexivity).
  rewrite forallb_forall in Hall. specialize (Hall n).
  destruct (digit_value (nth n zDigits "0"%byte)) as [d|].
  - f_equal. apply Z.eqb_eq. apply Hall. apply in_seq. lia.
  - discriminate Hall. apply in_seq. lia.
Qed.

Lemma land63 (v : Z) : Z.land v 63 = v mod 64.
Proof. change 63 with (Z.ones 6). rewrite Z.land_ones by lia. reflexivity. Qed.

Lemma digit_value_digit_of (v : Z) : digit_value (digit_of v) = Some (v mod 64).
Proof.
  unfold digit_of. rewrite land63.
  pose proof (Z.mod_pos_bound v 64 ltac:(lia)) as Hr.
  rewrite digit_value_nth by lia. f_equal. lia.
Qed.

(** Value of a digit string, most significant digit first, on top of [acc]. *)
Definition digits_value (ds : list byte) (acc : Z) : Z :=
  fold_left (fun a d => a * 64 + default 0 (digit_value d)) ds acc.

Definition not_digit_head (z : list byte) : Prop :=
  match z with
  | [] => True
  | c :: _ => digit_value c = None
  end.

Lemma getInt_stop (z : list byte) (v : Z) :
  not_digit_head z -> getInt z v = (v, z).
Proof. destruct z as [|c z]; simpl; [reflexivity|]. now intros ->. Qed.

Lemma getInt_digits (ds : list byte) : forall (rest : list byte) (acc : Z),
  Forall (fun d => In d zDigits) ds -> not_digit_head rest ->
  getInt (ds ++ rest) acc = (digits_value ds acc, rest).
Proof.
  induction ds as [|d ds IH]; intros rest acc Hds Hrest.
  - simpl. apply getInt_stop. exact Hrest.
  - inversion Hds as [|? ? Hd Hds']; subst.
    destruct (In_nth _ _ "0"%byte Hd) as (n & Hn & <-).
    change (length zDigits) with 64%nat in Hn.
    cbn [app getInt]. rewrite digit_value_nth by exact Hn.
    rewrite IH by assumption. unfold digits_value. cbn [fold_left].
    rewrite digit_value_nth by exact Hn. reflexivity.
Qed.

Lemma putInt_loop_value (fuel : nat) : forall (v : Z) (zBuf : list byte),
  0 <= v -> putInt_loop fuel v [] = Some zBuf ->
  digits_value (rev zBuf) 0 = v.
Proof.
  induction fuel as [|fuel IH]; intros v zBuf Hv.
  - simpl. destruct (Z.gtb_spec v 0); [discriminate|]. intros [= <-]. simpl.
    unfold digits_value. simpl. lia.
  - destruct (Z.gtb_spec v 0) as [Hp|Hp].
    + rewrite putInt_loop_step by lia.
      destruct (putInt_loop fuel (v / 64) []) as [r|] eqn:E; [|discriminate].
      simpl. intros [= <-]. simpl. unfold digits_value.
      rewrite fold_left_app. simpl. fold (digits_value (rev r) 0).
      rewrite (IH (v / 64) r); [| Z.div_mod_to_equations; lia | exact E].
      rewrite digit_value_digit_of. simpl. Z.div_mod_to_equations. lia.
    + simpl. destruct (Z.gtb_spec v 0); [lia|]. intros [= <-].
      unfold digits_value. simpl. lia.
Qed.

Lemma b64_digits (v : Z) : Forall (fun d => In d zDigits) (b64 v).
Proof.
  unfold b64. destruct (putInt_total 6 v) as [ds Hds]; [lia|].
  rewrite Hds. eapply putInt_digits. exact Hds.
Qed.

Lemma b64_value (v : Z) : digits_value (b64 v) 0 = u32 v.
Proof.
  unfold b64. destruct (putInt_total 6 v) as [ds Hds]; [lia|].
  rewrite Hds. revert Hds. unfold putInt.
  destruct (Z.eqb_spec (u32 v) 0) as [Hz|Hz].
  - intros [= <-]. rewrite Hz. reflexivity.
  - intros H. apply bind_Some in H as (zBuf & Hl & [= <-]).
    apply (putInt_loop_value 6); [apply u32_range | exact Hl].
Qed.

(** A numeral written by [putInt] and followed by a character that is not
    a digit reads back as the number written. *)
Lemma getInt_b64 (v : Z) (rest : list byte) :
  0 <= v < 4294967296 -> not_digit_head rest ->
  getInt (b64 v ++ rest) 0 = (v, rest).
Proof.
  intros Hv Hrest. rewrite getInt_digits by (auto using b64_digits).
  rewrite b64_value, u32_small by lia. reflexivity.
Qed.

(** A rendered command followed by more text is undone by one round of
    [delta_commands]. *)
Lemma delta_commands_step (n : nat) (zSrc : list byte) (c : cmd)
  (rest out : list byte) :
  cmd_ok zSrc c ->
  delta_commands (S n) zSrc (render c ++ rest) out =
  delta_commands n zSrc rest (out ++ interp zSrc c).
Proof.
  intros Hok. destruct c as [bs|cnt ofst]; simpl in Hok.
  - unfold render. rewrite <- !app_assoc. cbn [delta_commands].
    rewrite getInt_b64; [| pose proof (len_nonneg bs); lia | reflexivity].
    cbn [app]. change (Byte.eqb ":" "@") with false.
    change (Byte.eqb ":" ":") with true. cbn iota.
    rewrite len_app. pose proof (len_nonneg rest).
    destruct (Z.leb_spec (len bs) (len bs + len rest)); [|lia].
    unfold len. rewrite Nat2Z.id, drop_app_length, take_app_length. reflexivity.
  - destruct Hok as (Hc & Ho & Hl).
    unfold render. rewrite <- !app_assoc. cbn [delta_commands].
    rewrite getInt_b64; [| lia | reflexivity].
    cbn [app]. change (Byte.eqb "@" "@") with true. cbn iota.
    rewrite getInt_b64; [| lia | reflexivity].
    cbn [app]. change (Byte.eqb "," ",") with true.
    destruct (Z.leb_spec (ofst + cnt) (len zSrc)); [|lia].
    destruct (Z.eqb_spec cnt 0); [lia|]. reflexivity.
Qed.

Lemma delta_commands_run (zSrc : list byte) (cs : list cmd) :
  forall (n : nat) (rest out : list byte),
  Forall (cmd_ok zSrc) cs ->
  delta_commands (length cs + n) zSrc (render_all cs ++ rest) out =
  delta_commands n zSrc rest (out ++ interp_all zSrc cs).
Proof.
  induction cs as [|c cs IH]; intros n rest out Hok.
  - simpl. now rewrite app_nil_r.
  - inversion Hok; subst. simpl length. simpl plus.
    unfold render_all, interp_all. simpl flat_map.
    rewrite <- app_assoc. rewrite delta_commands_step by assumption.
    fold (render_all cs). rewrite IH by assumption.
    fold (interp_all zSrc cs). now rewrite app_assoc.
Qed.

Lemma render_length (c : cmd) : (2 <= length (render c))%nat.
Proof.
  destruct c as [bs|cnt ofst]; cbn [render]; rewrite !length_app; cbn [length].
  - pose proof (b64_length_le (len bs)). lia.
  - pose proof (b64_length_le cnt). lia.
Qed.

Lemma render_all_length (cs : list cmd) :
  (length cs <= length (render_all cs))%nat.
Proof.
  induction cs as [|c cs IH]; [simpl; lia|].
  unfold render_all in *. cbn [flat_map length].
  rewrite length_app. pose proof (render_length c). lia.
Qed.

(** The reader undoes a well-formed delta. *)
Lemma delta_apply_rendered (zSrc : list byte) (cs : list cmd) (limit chk : Z) :
  Forall (cmd_ok zSrc) cs ->
  0 <= limit < 4294967296 -> 0 <= chk < 4294967296 ->
  len (interp_all zSrc cs) = limit ->
  delta_apply zSrc
    (b64 limit ++ ["010"%byte] ++ render_all cs ++ b64 chk ++ [";"%byte])
  = Some (interp_all zSrc cs, chk).
Proof.
  intros Hok Hl Hc Hlen. unfold delta_apply.
  rewrite getInt_b64; [| lia | reflexivity].
  cbn [app]. change (Byte.eqb "010" "010") with true. cbn iota.
  set (n := length (render_all cs ++ b64 chk ++ [";"%byte])).
  assert (exists k, n = (length cs + S k)%nat) as [k Hk].
  { subst n. rewrite !length_app. simpl.
    pose proof (render_all_length cs). pose proof (b64_length_le chk).
    exists (length (render_all cs) + length (b64 chk) - length cs)%nat. lia. }
  rewrite Hk, delta_commands_run by assumption.
  cbn [delta_commands app].
  rewrite getInt_b64; [| lia | reflexivity].
  change (Byte.eqb ";" "@") with false.
  change (Byte.eqb ";" ":") with false.
  change (Byte.eqb ";" ";") with true. cbn.
  destruct (Z.eqb_spec (len (interp_all zSrc cs)) limit); [reflexivity | lia].
Qed.

Ltac len_norm :=
  repeat first [rewrite length_app | progress cbn [length app]].

(** ** What the encoder guarantees whenever it returns *)

Section DeltaCreateFacts.

Variable char_signed : bool.
Variable fuel : nat.
Variables zSrc zOut : list byte.

Local Abbreviation lenSrc := (len zSrc).
Local Abbreviation lenOut := (len zOut).

(** BLOB lengths are C [int]s. *)
Hypothesis lenSrc_int : lenSrc < 2147483648.
Hypothesis lenOut_int : lenOut < 2147483648.

(** A table entry is [-1] or the index of a block inside the source. *)
Definition block_ok (e : Z) : Prop := e * NHASH <= lenSrc.

Definition tab_ok (t : htab) : Prop :=
  Forall block_ok (landmark t) /\ Forall block_ok (collide t).

Lemma int_at_ok (a : list Z) (i : Z) :
  Forall block_ok a -> block_ok (int_at a i).
Proof.
  intros Ha. unfold int_at.
  destruct (nth_in_or_default (Z.to_nat i) a 0) as [Hin| ->].
  - rewrite List.Forall_forall in Ha. apply Ha. exact Hin.
  - unfold block_ok. pose proof (len_nonneg zSrc). unfold NHASH. lia.
Qed.

Lemma build_loop_ok (n : nat) : forall (nHash i : Z) (t t' : htab),
  0 <= i -> tab_ok t ->
  build_loop char_signed zSrc n nHash i t = Some t' -> tab_ok t'.
Proof.
  induction n as [|n IH]; intros nHash i t t' Hi Ht; cbn [build_loop].
  - destruct (i <? lenSrc - NHASH); [discriminate|]. now intros [= <-].
  - destruct (Z.ltb_spec i (lenSrc - NHASH)) as [Hlt|Hge]; [|now intros [= <-]].
    apply IH; [unfold NHASH; lia|]. destruct Ht as [Hl Hc].
    split; cbn [landmark collide].
    + apply Forall_insert; [exact Hl|]. unfold block_ok, NHASH in *.
      Z.div_mod_to_equations. lia.
    + apply Forall_insert; [exact Hc|]. apply int_at_ok. exact Hl.
Qed.

Lemma build_table_ok (nHash : Z) (t : htab) :
  build_table char_signed fuel zSrc nHash = Some t -> tab_ok t.
Proof.
  unfold build_table. apply build_loop_ok; [lia|].
  pose proof (len_nonneg zSrc).
  split; cbn [landmark collide]; apply Forall_replicate;
    unfold block_ok, NHASH; lia.
Qed.

Lemma match_fwd_post (n : nat) : forall (j x y r : Z),
  0 <= x <= lenSrc -> 0 <= y <= lenOut ->
  match_fwd zSrc zOut n j x y = Some r ->
  j <= r /\ x + (r - j) <= lenSrc /\ y + (r - j) <= lenOut /\
  (forall m, 0 <= m < r - j -> byte_at zSrc (x + m) = byte_at zOut (y + m)).
Proof.
  assert (forall j x y : Z, 0 <= x <= lenSrc -> 0 <= y <= lenOut ->
            j <= j /\ x + (j - j) <= lenSrc /\ y + (j - j) <= lenOut /\
            (forall m, 0 <= m < j - j ->
                       byte_at zSrc (x + m) = byte_at zOut (y + m))) as Hstop.
  { intros. repeat split; try lia. }
  induction n as [|n IH]; intros j x y r Hx Hy; cbn [match_fwd].
  - destruct ((x <? lenSrc) && (y <? lenOut)); [|intros [= <-]; auto].
    destruct (negb _); [intros [= <-]; auto | discriminate].
  - destruct (Z.ltb_spec x lenSrc) as [Hc1|Hc1]; cbn [andb];
      [|intros [= <-]; auto].
    destruct (Z.ltb_spec y lenOut) as [Hc2|Hc2]; [|intros [= <-]; auto].
    destruct (Byte.eqb (byte_at zSrc x) (byte_at zOut y)) eqn:E; simpl;
      [|intros [= <-]; auto].
    apply Byte.byte_dec_bl in E. intros H.
    apply IH in H as (H1 & H2 & H3 & H4); [|lia|lia].
    repeat split; try lia. intros m Hm.
    destruct (Z.eq_dec m 0) as [->|Hne]; [now rewrite !Z.add_0_r|].
    replace (x + m) with (x + 1 + (m - 1)) by lia.
    replace (y + m) with (y + 1 + (m - 1)) by lia.
    apply H4. lia.
Qed.

Lemma match_bwd_post (n : nat) : forall (iSrc base i k r : Z),
  match_bwd zSrc zOut n iSrc base i k = Some r ->
  k <= r /\ (r = k \/ (r <= iSrc /\ r <= i + 1)) /\
  (forall m, k <= m < r ->
             byte_at zSrc (iSrc - m) = byte_at zOut (base + i - m)).
Proof.
  induction n as [|n IH]; intros iSrc base i k r; cbn [match_bwd].
  - destruct ((k <? iSrc) && (k <=? i));
      [destruct (negb _); [|discriminate] |];
      intros [= <-]; repeat split; try lia; auto.
  - destruct (Z.ltb_spec k iSrc) as [Hc1|Hc1]; cbn [andb];
      [|intros [= <-]; repeat split; try lia; auto].
    destruct (Z.leb_spec k i) as [Hc2|Hc2];
      [|intros [= <-]; repeat split; try lia; auto].
    destruct (Byte.eqb (byte_at zSrc (iSrc - k)) (byte_at zOut (base + i - k)))
      eqn:E; simpl; [|intros [= <-]; repeat split; try lia; auto].
    apply Byte.byte_dec_bl in E. intros H.
    apply IH in H as (H1 & H2 & H3).
    repeat split; try lia. intros m Hm.
    destruct (Z.eq_dec m k) as [->|Hne]; [exact E|]. apply H3. lia.
Qed.

(** A recorded match: a copy of [bestCnt] bytes from [bestOfst] that
    reproduces the target after [bestLitsz] literal bytes, and costs no
    more text than it covers. *)
Definition best_ok (base : Z) (b : best) : Prop :=
  0 < bestCnt b /\ 0 <= bestLitsz b /\ 0 <= bestOfst b /\
  bestOfst b + bestCnt b <= lenSrc /\
  base + bestLitsz b + bestCnt b <= lenOut /\
  slice zSrc (bestOfst b) (bestCnt b)
  = slice zOut (base + bestLitsz b) (bestCnt b) /\
  ndigits (u32 (bestLitsz b)) + ndigits (u32 (bestCnt b))
  + ndigits (u32 (bestOfst b)) + 3 <= bestCnt b.

Definition best_inv (base : Z) (b : best) : Prop :=
  bestCnt b = 0 \/ best_ok base b.

Lemma chain_walk_post (limit : nat) :
  forall (t : htab) (base i iBlock : Z) (bst r : best),
  tab_ok t -> 0 <= base -> 0 <= i -> base + i <= lenOut ->
  block_ok iBlock -> best_inv base bst ->
  chain_walk fuel zSrc zOut limit t base i iBlock bst = Some r ->
  best_inv base r.
Proof.
  induction limit as [|limit IH]; intros t base i iBlock bst r Ht Hb Hi Hbi Hblk Hinv;
    cbn [chain_walk].
  - destruct (iBlock >=? 0); now intros [= <-].
  - destruct (Z.geb_spec iBlock 0) as [Hge|Hlt]; [|now intros [= <-]].
    intros H.
    apply bind_Some in H as (j & Hj & H).
    apply bind_Some in H as (k & Hk & H).
    apply bind_Some in H as (d1 & Hd1 & H).
    apply bind_Some in H as (d2 & Hd2 & H).
    apply bind_Some in H as (d3 & Hd3 & H).
    unfold block_ok, NHASH in Hblk.
    apply match_fwd_post in Hj as (Hj1 & Hj2 & Hj3 & Hj4);
      [| unfold NHASH; lia | lia].
    apply match_bwd_post in Hk as (Hk1 & Hk2 & Hk3).
    apply digit_count_sound in Hd1 as [-> _].
    apply digit_count_sound in Hd2 as [-> _].
    apply digit_count_sound in Hd3 as [-> _].
    revert H. apply IH; try assumption.
    { apply int_at_ok. apply Ht. }
    match goal with
    | |- best_inv _ (if ?c then _ else _) => destruct c eqn:Hc
    end; [|exact Hinv].
    apply andb_true_iff in Hc as [Hc1 Hc2]. rewrite Z.geb_leb in Hc1.
    apply Z.leb_le in Hc1. right. unfold best_ok. cbn [bestCnt bestOfst bestLitsz].
    pose proof (ndigits_range (u32 (i - (k - 1)))).
    pose proof (ndigits_range (u32 (j - 1 + (k - 1) + 1))).
    pose proof (ndigits_range (u32 (iBlock * NHASH - (k - 1)))).
    unfold NHASH in *. rewrite Z.sub_0_r in *.
    repeat split; try lia.
    assert (0 <= j - 1 + (k - 1) + 1) as Hcnt by lia.
    rewrite <- (Z2Nat.id _ Hcnt). apply slice_ext; try lia.
    rewrite (Z2Nat.id _ Hcnt). intros m Hm.
    destruct (Z.lt_ge_cases m (k - 1)) as [Hmk|Hmk].
    + specialize (Hk3 (k - 1 - m)).
      replace (iBlock * 16 - (k - 1) + m) with (iBlock * 16 - (k - 1 - m)) by lia.
      replace (base + (i - (k - 1)) + m) with (base + i - (k - 1 - m)) by lia.
      apply Hk3. lia.
    + specialize (Hj4 (m - (k - 1))).
      replace (iBlock * 16 - (k - 1) + m) with (iBlock * 16 + (m - (k - 1))) by lia.
      replace (base + (i - (k - 1)) + m) with (base + i + (m - (k - 1))) by lia.
      apply Hj4. lia.
Qed.

(** The text of a step of the encoder: commands that rebuild the target
    from [base] up to the new [base'], in at most [slack] bytes more than
    the target bytes they cover. *)
Definition step_ok (base : Z) (slack : Z) (r : list byte * Z) : Prop :=
  base <= snd r <= lenOut /\
  Z.of_nat (length (fst r)) <= snd r - base + slack /\
  exists cs : list cmd,
    fst r = render_all cs /\ Forall (cmd_ok zSrc) cs /\
    interp_all zSrc cs = slice zOut base (snd r - base).

Lemma put_insert_eq (base n : Z) (out : list byte) :
  0 <= base -> 0 <= n -> base + n <= lenOut ->
  put_insert fuel zOut base n = Some out ->
  out = render (Lit (slice zOut base n)) /\
  Z.of_nat (length out) = ndigits (u32 n) + 1 + n.
Proof.
  intros Hb Hn Hl H. unfold put_insert in H.
  apply bind_Some in H as (d & Hd & [= <-]).
  pose proof (putInt_length _ _ _ Hd) as Hlen.
  apply putInt_b64 in Hd. subst d.
  pose proof (slice_len zOut base n Hb Hn Hl) as Hs.
  split.
  - cbn [render]. rewrite Hs. reflexivity.
  - rewrite !length_app. cbn [length]. unfold len in Hs. lia.
Qed.

Lemma put_insert_post (base n : Z) (out : list byte) :
  0 <= base -> 0 <= n -> base + n <= lenOut ->
  put_insert fuel zOut base n = Some out ->
  step_ok base 7 (out, base + n).
Proof.
  intros Hb Hn Hl H.
  destruct (put_insert_eq _ _ _ Hb Hn Hl H) as [-> Hlen].
  pose proof (ndigits_range (u32 n)).
  pose proof (slice_len zOut base n Hb Hn Hl) as Hs.
  unfold step_ok. cbn [fst snd]. split; [lia|]. split; [lia|].
  exists [Lit (slice zOut base n)]. split; [|split].
  - unfold render_all. cbn [flat_map]. now rewrite app_nil_r.
  - constructor; [|constructor]. cbn [cmd_ok]. lia.
  - unfold interp_all. cbn [flat_map interp]. rewrite app_nil_r.
    f_equal. lia.
Qed.

Lemma put_copy_post (base : Z) (b : best) (r : list byte * Z) :
  0 <= base -> best_ok base b ->
  put_copy fuel zOut base b = Some r ->
  step_ok base 0 r /\ base < snd r.
Proof.
  intros Hb (Hc & Hl & Ho & Hsrc & Hout & Heq & Hsz) H. unfold put_copy in H.
  apply bind_Some in H as (lit & Hlit & H).
  apply bind_Some in H as (d1 & Hd1 & H).
  apply bind_Some in H as (d2 & Hd2 & [= <-]).
  pose proof (putInt_length _ _ _ Hd1) as Hlen1.
  pose proof (putInt_length _ _ _ Hd2) as Hlen2.
  apply putInt_b64 in Hd1, Hd2. subst d1 d2.
  pose proof (ndigits_range (u32 (bestLitsz b))).
  assert (cmd_ok zSrc (Copy (bestCnt b) (bestOfst b))) as Hcopy
      by (cbn [cmd_ok]; lia).
  unfold step_ok. cbn [fst snd].
  destruct (Z.gtb_spec (bestLitsz b) 0) as [Hpos|Hzero].
  - apply put_insert_eq in Hlit as [-> Hlen]; try lia.
    pose proof (slice_len zOut base (bestLitsz b)) as Hs.
    split; [|lia]. split; [lia|]. split.
    + len_norm. lia.
    + exists [Lit (slice zOut base (bestLitsz b)); Copy (bestCnt b) (bestOfst b)].
      split; [|split].
      * unfold render_all. cbn [flat_map]. cbn [render].
        rewrite app_nil_r, <- !app_assoc. reflexivity.
      * constructor; [cbn [cmd_ok]; rewrite Hs; lia|].
        constructor; [exact Hcopy | constructor].
      * unfold interp_all. cbn [flat_map interp]. rewrite app_nil_r, Heq.
        replace (base + bestLitsz b + bestCnt b - base)
          with (bestLitsz b + bestCnt b) by lia.
        rewrite slice_app by lia. reflexivity.
  - injection Hlit as <-. assert (bestLitsz b = 0) as Hz by lia.
    rewrite Hz in *. split; [|lia]. split; [lia|]. split.
    + len_norm. lia.
    + exists [Copy (bestCnt b) (bestOfst b)]. split; [|split].
      * unfold render_all. cbn [flat_map render app].
        rewrite app_nil_r, <- ?app_assoc. reflexivity.
      * constructor; [exact Hcopy | constructor].
      * unfold interp_all. cbn [flat_map interp]. rewrite app_nil_r, Heq.
        f_equal; lia.
Qed.

Lemma step_ok_weaken (base s s' : Z) (r : list byte * Z) :
  s <= s' -> step_ok base s r -> step_ok base s' r.
Proof.
  intros Hs (H1 & H2 & H3). split; [exact H1|]. split; [lia | exact H3].
Qed.

(** One scan of the window emits commands for a non-empty stretch of the
    target; only the literal that runs to the end of the target costs
    more text than it covers. *)
Lemma scan_post (n : nat) :
  forall (t : htab) (nHash base : Z) (h : hash) (i : Z) (bst : best)
         (r : list byte * Z),
  tab_ok t -> 0 <= base -> 0 <= i -> base + i + NHASH <= lenOut ->
  best_inv base bst ->
  scan char_signed fuel zSrc zOut n t nHash base h i bst = Some r ->
  step_ok base (if snd r =? lenOut then 7 else 0) r /\ base < snd r.
Proof.
  induction n as [|n IH]; intros t nHash base h i bst r Ht Hb Hi Hbi Hinv;
    cbn [scan]; [discriminate|].
  intros H. apply bind_Some in H as (bst' & Hwalk & H).
  assert (best_inv base bst') as Hw.
  { eapply (chain_walk_post 250 t base i _ bst); try eassumption.
    - unfold NHASH in Hbi. lia.
    - apply int_at_ok. apply Ht. }
  clear Hwalk.
  destruct (Z.gtb_spec (bestCnt bst') 0) as [Hpos|Hzero].
  - destruct Hw as [Hw|Hw]; [lia|].
    apply put_copy_post in H as [H1 H2]; try assumption.
    split; [|exact H2]. eapply step_ok_weaken; [|exact H1].
    destruct (snd r =? lenOut); lia.
  - destruct (Z.geb_spec (base + i + NHASH) lenOut) as [Hend|Hmore].
    + apply bind_Some in H as (lit & Hlit & [= <-]). cbn [snd].
      rewrite Z.eqb_refl. unfold NHASH in *.
      apply put_insert_post in Hlit; try lia.
      replace (base + (lenOut - base)) with lenOut in Hlit by lia.
      split; [exact Hlit | lia].
    + revert H. apply IH; try assumption; lia.
Qed.

Lemma scan_all_post (n : nat) :
  forall (t : htab) (nHash base : Z) (r : list byte * Z),
  tab_ok t -> 0 <= base <= lenOut ->
  scan_all char_signed fuel zSrc zOut n t nHash base = Some r ->
  step_ok base (if snd r =? lenOut then 7 else 0) r.
Proof.
  assert (forall base, 0 <= base <= lenOut ->
            step_ok base (if base =? lenOut then 7 else 0) ([], base)) as Hnil.
  { intros base Hb. unfold step_ok. cbn [fst snd length].
    split; [lia|]. split; [destruct (base =? lenOut); lia|].
    exists []. split; [reflexivity|]. split; [constructor|].
    rewrite Z.sub_diag. reflexivity. }
  induction n as [|n IH]; intros t nHash base r Ht Hb; cbn [scan_all].
  - destruct (base + NHASH <? lenOut); [discriminate|].
    intros [= <-]. apply Hnil. exact Hb.
  - destruct (Z.ltb_spec (base + NHASH) lenOut) as [Hlt|Hge];
      [|intros [= <-]; apply Hnil; exact Hb].
    intros H. apply bind_Some in H as (r1 & H1 & H).
    apply bind_Some in H as (r2 & H2 & [= <-]).
    apply scan_post in H1 as [(Hr1 & Hs1 & cs1 & Hc1 & Hok1 & Hi1) Hlt1];
      try assumption; try lia.
    2: { now left. }
    assert (snd r1 = lenOut -> r2 = ([], snd r1)) as Hlast.
    { intros E. revert H2. rewrite E. destruct n; cbn [scan_all];
        (destruct (Z.ltb_spec (lenOut + NHASH) lenOut);
         [unfold NHASH in *; lia | now intros [= <-]]). }
    apply IH in H2 as (Hr2 & Hs2 & cs2 & Hc2 & Hok2 & Hi2);
      try assumption; try lia.
    unfold step_ok. cbn [fst snd]. split; [lia|]. split.
    + rewrite length_app.
      destruct (Z.eqb_spec (snd r1) lenOut) as [E|E].
      * rewrite (Hlast E) in *. cbn [fst snd length] in *.
        rewrite E, Z.eqb_refl. lia.
      * lia.
    + exists (cs1 ++ cs2). split; [|split].
      * unfold render_all in *. rewrite flat_map_app. congruence.
      * apply Forall_app. split; assumption.
      * unfold interp_all in *. rewrite flat_map_app, Hi1, Hi2.
        replace (snd r2 - base) with ((snd r1 - base) + (snd r2 - snd r1)) by lia.
        rewrite slice_app by lia. do 2 f_equal. lia.
Qed.

(** The delta is the header, a command sequence that rebuilds the whole
    target, and the checksum of the target. *)
Lemma rbuDeltaCreate_shape (d : list byte) :
  rbuDeltaCreate char_signed fuel zSrc zOut = Some d ->
  exists cs : list cmd,
    d = b64 lenOut ++ ["010"%byte] ++ render_all cs
        ++ b64 (checksum zOut) ++ [";"%byte] /\
    Forall (cmd_ok zSrc) cs /\ interp_all zSrc cs = zOut /\
    Z.of_nat (length (render_all cs)) <= lenOut + 7.
Proof.
  unfold rbuDeltaCreate. intros H.
  pose proof (len_nonneg zOut) as Hout0.
  apply bind_Some in H as (hdr & Hhdr & H). apply putInt_b64 in Hhdr. subst hdr.
  destruct (lenSrc <=? NHASH).
  - apply bind_Some in H as (d1 & Hd1 & H).
    apply bind_Some in H as (c & Hc & [= <-]).
    apply putInt_b64 in Hd1, Hc. subst d1 c.
    exists [Lit zOut]. unfold render_all, interp_all. cbn [flat_map render interp].
    rewrite !app_nil_r. split; [|split; [|split]].
    + rewrite <- !app_assoc. reflexivity.
    + constructor; [cbn [cmd_ok]; lia | constructor].
    + reflexivity.
    + len_norm. pose proof (b64_length_le lenOut). unfold len in *. lia.
  - apply bind_Some in H as (t & Ht & H). apply build_table_ok in Ht.
    apply bind_Some in H as (r & Hr & H).
    apply scan_all_post in Hr as (Hb & Hsz & cs & Hcs & Hok & Hi);
      [| exact Ht | lia].
    apply bind_Some in H as (tl & Htl & H).
    apply bind_Some in H as (c & Hc & [= <-]).
    apply putInt_b64 in Hc. subst c. rewrite Z.sub_0_r in *.
    destruct (Z.ltb_spec (snd r) lenOut) as [Hlt|Hge].
    + apply put_insert_post in Htl as (_ & Hsz2 & cs2 & Hcs2 & Hok2 & Hi2);
        try lia.
      cbn [fst snd] in *.
      exists (cs ++ cs2). unfold render_all, interp_all in *.
      rewrite !flat_map_app. split; [|split; [|split]].
      * rewrite Hcs, Hcs2, <- !app_assoc. reflexivity.
      * apply Forall_app. split; assumption.
      * rewrite Hi, Hi2. replace (snd r + (lenOut - snd r) - snd r)
          with (lenOut - snd r) by lia.
        pose proof (slice_app zOut 0 (snd r) (lenOut - snd r)) as Happ.
        rewrite Z.add_0_l in Happ. rewrite <- Happ by lia.
        replace (snd r + (lenOut - snd r)) with lenOut by lia.
        apply slice_all.
      * rewrite length_app, <- Hcs, <- Hcs2.
        destruct (Z.eqb_spec (snd r) lenOut); lia.
    + injection Htl as <-. assert (snd r = lenOut) as E by lia.
      exists cs. rewrite app_nil_l. split; [|split; [|split]].
      * rewrite Hcs. reflexivity.
      * exact Hok.
      * rewrite Hi, E. apply slice_all.
      * rewrite <- Hcs. rewrite E, Z.eqb_refl in Hsz. lia.
Qed.

End DeltaCreateFacts.

(** ** The encoder returns for BLOBs below [2^30] bytes *)

Section DeltaCreateTotal.

Variable char_signed : bool.
Variable fuel : nat.
Variables zSrc zOut : list byte.

Local Abbreviation lenSrc := (len zSrc).
Local Abbreviation lenOut := (len zOut).

(** The BLOBs have at most [2^30] bytes, and they are not one and the
    same BLOB of exactly [2^30] bytes. *)
Hypothesis lenSrc_small : lenSrc <= 1073741824.
Hypothesis lenOut_small : lenOut <= 1073741824.
Hypothesis not_same : zSrc = zOut -> lenSrc < 1073741824.
Hypothesis fuel_enough : lenSrc + lenOut + 6 <= Z.of_nat fuel.

(** A table entry is [-1] or the index of a block that starts inside the
    source. *)
Definition block_lt (e : Z) : Prop := e * NHASH < lenSrc.

Definition tab_lt (t : htab) : Prop :=
  Forall block_lt (landmark t) /\ Forall block_lt (collide t).

Lemma int_at_lt (a : list Z) (i : Z) :
  0 < lenSrc -> Forall block_lt a -> block_lt (int_at a i).
Proof.
  intros Hs Ha. unfold int_at.
  destruct (nth_in_or_default (Z.to_nat i) a 0) as [Hin| ->].
  - rewrite List.Forall_forall in Ha. apply Ha. exact Hin.
  - unfold block_lt, NHASH. lia.
Qed.

Lemma build_loop_lt (n : nat) : forall (nHash i : Z) (t t' : htab),
  0 <= i -> 0 < lenSrc -> tab_lt t ->
  build_loop char_signed zSrc n nHash i t = Some t' -> tab_lt t'.
Proof.
  induction n as [|n IH]; intros nHash i t t' Hi Hs Ht; cbn [build_loop].
  - destruct (i <? lenSrc - NHASH); [discriminate|]. now intros [= <-].
  - destruct (Z.ltb_spec i (lenSrc - NHASH)) as [Hlt|Hge]; [|now intros [= <-]].
    apply IH; [unfold NHASH; lia | exact Hs |]. destruct Ht as [Hl Hc].
    split; cbn [landmark collide].
    + apply Forall_insert; [exact Hl|]. unfold block_lt, NHASH in *.
      Z.div_mod_to_equations. lia.
    + apply Forall_insert; [exact Hc|]. now apply int_at_lt.
Qed.

(** Two BLOBs of one length that agree byte by byte are equal. *)
Lemma blob_ext (a b : list byte) :
  len a = len b ->
  (forall p, 0 <= p < len a -> byte_at a p = byte_at b p) -> a = b.
Proof.
  unfold len, byte_at. intros Hl Hp.
  apply (List.nth_ext a b "000"%byte "000"%byte); [lia|].
  intros n Hn. specialize (Hp (Z.of_nat n) ltac:(lia)).
  now rewrite Nat2Z.id in Hp.
Qed.

Lemma build_loop_total (n : nat) : forall (nHash i : Z) (t : htab),
  lenSrc - NHASH - i <= NHASH * Z.of_nat n ->
  exists t', build_loop char_signed zSrc n nHash i t = Some t'.
Proof.
  induction n as [|n IH]; intros nHash i t Hn; cbn [build_loop];
    destruct (Z.ltb_spec i (lenSrc - NHASH)) as [Hlt|Hge]; eauto.
  - unfold NHASH in *. lia.
  - apply IH. unfold NHASH in *. lia.
Qed.

Lemma match_fwd_total (n : nat) : forall (j x y : Z),
  lenOut - y <= Z.of_nat n ->
  exists r, match_fwd zSrc zOut n j x y = Some r.
Proof.
  induction n as [|n IH]; intros j x y Hn; cbn [match_fwd];
    destruct (Z.ltb_spec x lenSrc); cbn [andb]; eauto;
    destruct (Z.ltb_spec y lenOut); eauto;
    destruct (negb _); eauto.
  - lia.
  - apply IH. lia.
Qed.

Lemma match_bwd_total (n : nat) : forall (iSrc base i k : Z),
  i - k + 1 <= Z.of_nat n ->
  exists r, match_bwd zSrc zOut n iSrc base i k = Some r.
Proof.
  induction n as [|n IH]; intros iSrc base i k Hn; cbn [match_bwd];
    destruct (Z.ltb_spec k iSrc); cbn [andb]; eauto;
    destruct (Z.leb_spec k i); eauto;
    destruct (negb _); eauto.
  - lia.
  - apply IH. lia.
Qed.

(** No match is as long as [2^30] bytes: it would cover the whole source
    and the whole target. *)
Lemma match_below_1GiB (iSrc base i j k : Z) :
  0 <= iSrc <= lenSrc -> 0 <= base -> 0 <= i ->
  1 <= k -> (k = 1 \/ (k <= iSrc /\ k <= i + 1)) ->
  0 <= j -> iSrc + j <= lenSrc -> base + i + j <= lenOut ->
  (forall m, 0 <= m < j -> byte_at zSrc (iSrc + m) = byte_at zOut (base + i + m)) ->
  (forall m, 1 <= m < k ->
             byte_at zSrc (iSrc - m) = byte_at zOut (base + i - m)) ->
  j + k - 1 < 1073741824.
Proof.
  intros Hsrc Hb Hi Hk1 Hk2 Hj Hjs Hjo Hfwd Hbwd.
  destruct (Z_lt_le_dec (j + k - 1) 1073741824) as [|Hbig]; [assumption|].
  exfalso.
  assert (iSrc = k - 1 /\ base + i = k - 1 /\
          lenSrc = 1073741824 /\ lenOut = 1073741824 /\
          j + k - 1 = 1073741824) as (E1 & E2 & E3 & E4 & E5) by lia.
  assert (zSrc = zOut) as Heq.
  { apply blob_ext; [lia|]. intros p Hp.
    destruct (Z_lt_le_dec p iSrc) as [Hlo|Hhi].
    - pose proof (Hbwd (iSrc - p) ltac:(lia)) as E.
      replace (iSrc - (iSrc - p)) with p in E by lia.
      replace (base + i - (iSrc - p)) with p in E by lia. exact E.
    - pose proof (Hfwd (p - iSrc) ltac:(lia)) as E.
      replace (iSrc + (p - iSrc)) with p in E by lia.
      replace (base + i + (p - iSrc)) with p in E by lia. exact E. }
  specialize (not_same Heq). lia.
Qed.

Lemma chain_walk_total (limit : nat) :
  forall (t : htab) (base i iBlock : Z) (bst : best),
  tab_lt t -> 0 <= base -> 0 <= i -> base + i < lenOut ->
  block_lt iBlock ->
  exists r, chain_walk fuel zSrc zOut limit t base i iBlock bst = Some r.
Proof.
  induction limit as [|limit IH]; intros t base i iBlock bst Ht Hb Hi Hbi Hblk;
    cbn [chain_walk]; destruct (Z.geb_spec iBlock 0) as [Hge|Hlt]; eauto.
  pose proof (len_nonneg zSrc). unfold block_lt, NHASH in Hblk.
  destruct (match_fwd_total fuel 0 (iBlock * NHASH) (base + i)) as [j Hj]; [lia|].
  rewrite Hj. cbn [bind].
  apply match_fwd_post in Hj as (Hj1 & Hj2 & Hj3 & Hj4);
    [| unfold NHASH; lia | lia].
  destruct (match_bwd_total fuel (iBlock * NHASH) base i 1) as [k Hk]; [lia|].
  rewrite Hk. cbn [bind].
  apply match_bwd_post in Hk as (Hk1 & Hk2 & Hk3).
  rewrite Z.sub_0_r in Hj2, Hj3, Hj4.
  pose proof (match_below_1GiB (iBlock * NHASH) base i j k
                ltac:(unfold NHASH; lia) Hb Hi Hk1 Hk2 Hj1 Hj2 Hj3 Hj4 Hk3)
    as Hcnt.
  unfold NHASH in *.
  rewrite !digit_count_total by lia. cbn [bind].
  apply IH; try assumption. apply int_at_lt; [lia | apply Ht].
Qed.

Lemma put_insert_total (base n : Z) :
  exists out, put_insert fuel zOut base n = Some out.
Proof.
  unfold put_insert. pose proof (len_nonneg zSrc). pose proof (len_nonneg zOut).
  destruct (putInt_total fuel n) as [d Hd]; [lia|].
  rewrite Hd. cbn [bind]. eauto.
Qed.

Lemma put_copy_total (base : Z) (b : best) :
  exists r, put_copy fuel zOut base b = Some r.
Proof.
  unfold put_copy. pose proof (len_nonneg zSrc). pose proof (len_nonneg zOut).
  assert (exists lit, (if bestLitsz b >? 0
                       then put_insert fuel zOut base (bestLitsz b)
                       else Some []) = Some lit) as [lit ->].
  { destruct (bestLitsz b >? 0); [apply put_insert_total | eauto]. }
  destruct (putInt_total fuel (bestCnt b)) as [d1 ->]; [lia|].
  destruct (putInt_total fuel (bestOfst b)) as [d2 ->]; [lia|].
  cbn [bind]. eauto.
Qed.

Lemma scan_total (n : nat) :
  forall (t : htab) (nHash base : Z) (h : hash) (i : Z) (bst : best),
  0 < lenSrc -> tab_lt t -> 0 <= base -> 0 <= i ->
  base + i + NHASH <= lenOut ->
  lenOut - (base + i + NHASH) + 1 <= Z.of_nat n ->
  exists r, scan char_signed fuel zSrc zOut n t nHash base h i bst = Some r.
Proof.
  induction n as [|n IH]; intros t nHash base h i bst Hs Ht Hb Hi Hbi Hn;
    cbn [scan]; [lia|].
  destruct (chain_walk_total 250 t base i
              (int_at (landmark t) (hash_32bit h mod nHash)) bst)
    as [bst' ->]; try assumption.
  { unfold NHASH in *. lia. }
  { apply int_at_lt; [exact Hs | apply Ht]. }
  cbn [bind]. destruct (bestCnt bst' >? 0); [apply put_copy_total|].
  destruct (Z.geb_spec (base + i + NHASH) lenOut) as [Hend|Hmore].
  - destruct (put_insert_total base (lenOut - base)) as [lit ->].
    cbn [bind]. eauto.
  - apply IH; try assumption; unfold NHASH in *; lia.
Qed.

Lemma scan_all_total (n : nat) : forall (t : htab) (nHash base : Z),
  0 < lenSrc -> tab_ok zSrc t -> tab_lt t -> 0 <= base <= lenOut ->
  lenOut - base <= Z.of_nat n ->
  exists r, scan_all char_signed fuel zSrc zOut n t nHash base = Some r.
Proof.
  induction n as [|n IH]; intros t nHash base Hs Ht Hlt' Hb Hn; cbn [scan_all];
    destruct (Z.ltb_spec (base + NHASH) lenOut) as [Hlt|Hge]; eauto.
  - unfold NHASH in *. lia.
  - pose proof (len_nonneg zSrc).
    destruct (scan_total fuel t nHash base
                (hash_init char_signed (drop (Z.to_nat base) zOut)) 0
                {| bestCnt := 0; bestOfst := 0; bestLitsz := 0 |})
      as [r1 Hr1]; try assumption; try (unfold NHASH in *; lia).
    rewrite Hr1. cbn [bind].
    apply scan_post in Hr1 as [(Hr & _) Hlt1]; try assumption;
      try (unfold NHASH in *; lia).
    2: { now left. }
    destruct (IH t nHash (snd r1)) as [r2 ->]; try assumption; try lia.
    cbn [bind]. eauto.
Qed.

Lemma rbuDeltaCreate_total :
  exists d, rbuDeltaCreate char_signed fuel zSrc zOut = Some d.
Proof.
  unfold rbuDeltaCreate.
  pose proof (len_nonneg zSrc). pose proof (len_nonneg zOut).
  destruct (putInt_total fuel lenOut) as [hdr ->]; [lia|]. cbn [bind].
  destruct (putInt_total fuel (checksum zOut)) as [c Hc]; [lia|].
  destruct (Z.leb_spec lenSrc NHASH) as [Hshort|Hlong].
  - rewrite Hc. cbn [bind]. eauto.
  - unfold build_table.
    destruct (build_loop_total fuel (lenSrc / NHASH) 0
                {| landmark := replicate (Z.to_nat (lenSrc / NHASH)) (-1);
                   collide := replicate (Z.to_nat (lenSrc / NHASH)) (-1) |})
      as [t Ht]; [unfold NHASH; lia|].
    rewrite Ht. cbn [bind].
    assert (tab_lt t) as Hlt.
    { apply build_loop_lt in Ht; [exact Ht | lia | unfold NHASH in *; lia |].
      split; cbn [landmark collide]; apply Forall_replicate;
        unfold block_lt, NHASH; lia. }
    apply (build_table_ok char_signed fuel) in Ht.
    destruct (scan_all_total fuel t (lenSrc / NHASH) 0) as [r ->];
      try assumption; try lia.
    { unfold NHASH in *. lia. }
    cbn [bind].
    assert (exists tl, (if snd r <? lenOut
                        then put_insert fuel zOut (snd r) (lenOut - snd r)
                        else Some []) = Some tl) as [tl ->].
    { destruct (snd r <? lenOut); [apply put_insert_total | eauto]. }
    rewrite Hc. cbn [bind]. eauto.
Qed.

End DeltaCreateTotal.

(** ** The promises of the delta codec *)

(** Claim C2.  Whenever [rbuDeltaCreate] returns, the delta it wrote is at
    most [|T| + 60] bytes long (in fact at most [|T| + 21]), so the buffer
    of [nFinal + 60] bytes that [rbudiff_one_table] allocates is never
    overrun; and it does return for BLOBs below [2^30] bytes. *)
Theorem delta_size_ceiling (char_signed : bool) (zSrc zOut : list byte) :
  len zSrc < 2147483648 -> len zOut < 2147483648 ->
  (forall (fuel : nat) (d : list byte),
     rbuDeltaCreate char_signed fuel zSrc zOut = Some d ->
     Z.of_nat (length d) <= len zOut + 60) /\
  (forall fuel : nat,
     len zSrc < 1073741824 -> len zOut < 1073741824 ->
     len zSrc + len zOut + 6 <= Z.of_nat fuel ->
     exists d, rbuDeltaCreate char_signed fuel zSrc zOut = Some d).
Proof.
  intros Hs Ho. split.
  - intros fuel d H.
    apply rbuDeltaCreate_shape in H as (cs & -> & _ & _ & Hlen); try assumption.
    len_norm. pose proof (b64_length_le (len zOut)).
    pose proof (b64_length_le (checksum zOut)). lia.
  - intros fuel Hs' Ho' Hf.
    apply rbuDeltaCreate_total; [lia | lia | intros _; lia | assumption].
Qed.

Definition sample_source : list byte :=
  list_byte_of_string "hello world, this is the source text of the delta.".

Definition sample_target : list byte :=
  list_byte_of_string "hello world, this is the target text of the delta!".

Lemma delta_size_ceiling_witness :
  (len sample_source < 2147483648 /\ len sample_target < 2147483648) /\
  (forall (fuel : nat) (d : list byte),
     rbuDeltaCreate true fuel sample_source sample_target = Some d ->
     Z.of_nat (length d) <= len sample_target + 60) /\
  (forall fuel : nat,
     len sample_source < 1073741824 -> len sample_target < 1073741824 ->
     len sample_source + len sample_target + 6 <= Z.of_nat fuel ->
     exists d, rbuDeltaCreate true fuel sample_source sample_target = Some d).
Proof.
  assert (len sample_source < 2147483648 /\ len sample_target < 2147483648)
    as H by (vm_compute; split; reflexivity).
  split; [exact H|].
  apply (delta_size_ceiling true sample_source sample_target); apply H.
Defined.

(** The round trip up to [2^30] bytes.  For a source and a target of at
    most [2^30] bytes that are not one and the same BLOB of exactly
    [2^30] bytes, the encoder returns a delta; read back against the
    source it yields the target, and the number in its last term is the
    checksum of the target. *)
Theorem delta_round_trip (char_signed : bool) (fuel : nat)
  (zSrc zOut : list byte) :
  len zSrc <= 1073741824 -> len zOut <= 1073741824 ->
  (zSrc = zOut -> len zSrc < 1073741824) ->
  len zSrc + len zOut + 6 <= Z.of_nat fuel ->
  exists d,
    rbuDeltaCreate char_signed fuel zSrc zOut = Some d /\
    delta_apply zSrc d = Some (zOut, checksum zOut).
Proof.
  intros Hs Ho Hne Hf.
  destruct (rbuDeltaCreate_total char_signed fuel zSrc zOut Hs Ho Hne Hf)
    as [d Hd].
  exists d. split; [exact Hd|].
  apply rbuDeltaCreate_shape in Hd as (cs & -> & Hok & Hi & _); try lia.
  pose proof (delta_apply_rendered zSrc cs (len zOut) (checksum zOut) Hok) as Hr.
  rewrite Hi in Hr. apply Hr.
  - pose proof (len_nonneg zOut). lia.
  - apply checksum_range.
  - reflexivity.
Qed.

Lemma delta_round_trip_witness :
  (len sample_source <= 1073741824 /\ len sample_target <= 1073741824 /\
   (sample_source = sample_target -> len sample_source < 1073741824) /\
   len sample_source + len sample_target + 6 <= Z.of_nat 200) /\
  exists d,
    rbuDeltaCreate true 200 sample_source sample_target = Some d /\
    delta_apply sample_source d = Some (sample_target, checksum sample_target).
Proof.
  assert (len sample_source <= 1073741824 /\ len sample_target <= 1073741824 /\
          (sample_source = sample_target -> len sample_source < 1073741824) /\
          len sample_source + len sample_target + 6 <= Z.of_nat 200)
    as H by (split; [|split; [|split; [intros _|]]];
             vm_compute; congruence).
  split; [exact H|].
  apply (delta_round_trip true 200 sample_source sample_target); apply H.
Defined.

(** ** A BLOB of exactly [2^30] bytes on which the encoder never returns

    Sixteen bytes [0x01] followed by zero bytes: the first block is alone
    in its bucket, so scanning the BLOB against itself finds a match of
    the whole length at once, and [digit_count] is asked for the digits
    of [2^30]. *)

Definition ones_then_zeros (m : nat) : list byte :=
  replicate 16 "001"%byte ++ replicate m "000"%byte.

Definition blob_1GiB : list byte := ones_then_zeros (Z.to_nat 1073741808).

Lemma byte_at_drop (z : list byte) (i k : Z) :
  0 <= i -> 0 <= k -> byte_at (drop (Z.to_nat i) z) k = byte_at z (i + k).
Proof.
  intros Hi Hk. unfold byte_at. rewrite !nth_lookup, lookup_drop.
  replace (Z.to_nat i + Z.to_nat k)%nat with (Z.to_nat (i + k)) by lia.
  reflexivity.
Qed.

Lemma byte_at_replicate (n : nat) (b : byte) (k : Z) :
  0 <= k < Z.of_nat n -> byte_at (replicate n b) k = b.
Proof.
  intros Hk. unfold byte_at. rewrite nth_lookup.
  rewrite lookup_replicate_2 by lia. reflexivity.
Qed.

Lemma byte_at_ones (m : nat) (j : Z) :
  0 <= j < 16 -> byte_at (ones_then_zeros m) j = "001"%byte.
Proof.
  intros Hj. unfold byte_at, ones_then_zeros. rewrite nth_lookup.
  rewrite lookup_app_l by (rewrite length_replicate; lia).
  rewrite lookup_replicate_2 by lia. reflexivity.
Qed.

Lemma byte_at_zeros (m : nat) (j : Z) :
  16 <= j -> byte_at (ones_then_zeros m) j = "000"%byte.
Proof.
  intros Hj. unfold byte_at, ones_then_zeros. rewrite nth_lookup.
  rewrite lookup_app_r by (rewrite length_replicate; lia).
  destruct (replicate m "000"%byte !! _) as [b|] eqn:E; [|reflexivity].
  apply lookup_replicate in E as [-> _]. reflexivity.
Qed.

Lemma len_ones_then_zeros (m : nat) :
  len (ones_then_zeros m) = 16 + Z.of_nat m.
Proof.
  unfold len, ones_then_zeros. rewrite length_app, !length_replicate. lia.
Qed.

Lemma hash_init_loop_ext (cs : bool) (z z' : list byte) (n : nat) :
  forall (i a b : Z),
  (forall k, i <= k < i + Z.of_nat n -> byte_at z k = byte_at z' k) ->
  hash_init_loop cs n z i a b = hash_init_loop cs n z' i a b.
Proof.
  induction n as [|n IH]; intros i a b Heq; cbn [hash_init_loop]; [reflexivity|].
  rewrite (Heq i) by lia. apply IH. intros k Hk. apply Heq. lia.
Qed.

(** The hash of a window depends on its sixteen bytes only. *)
Lemma hash_32bit_ext (cs : bool) (z z' : list byte) :
  (forall k, 0 <= k < 16 -> byte_at z k = byte_at z' k) ->
  hash_32bit (hash_init cs z) = hash_32bit (hash_init cs z').
Proof.
  intros Heq. unfold hash_32bit, hash_init. cbn [h_a h_b].
  rewrite (hash_init_loop_ext cs z z' 16 0 0 0) by (intros; apply Heq; lia).
  reflexivity.
Qed.

Lemma hash_of_ones (cs : bool) (m : nat) :
  hash_32bit (hash_init cs (drop (Z.to_nat 0) (ones_then_zeros m))) = 8912912.
Proof.
  rewrite (hash_32bit_ext cs _ (replicate 16 "001"%byte)).
  - destruct cs; vm_compute; reflexivity.
  - intros k Hk. rewrite byte_at_drop by lia.
    rewrite byte_at_ones, byte_at_replicate by lia. reflexivity.
Qed.

Lemma hash_of_zeros (cs : bool) (m : nat) (i : Z) :
  16 <= i ->
  hash_32bit (hash_init cs (drop (Z.to_nat i) (ones_then_zeros m))) = 0.
Proof.
  intros Hi. rewrite (hash_32bit_ext cs _ (replicate 16 "000"%byte)).
  - destruct cs; vm_compute; reflexivity.
  - intros k Hk. rewrite byte_at_drop by lia.
    rewrite byte_at_zeros, byte_at_replicate by lia. reflexivity.
Qed.

Lemma int_at_insert_ne (a : list Z) (i j v : Z) :
  0 <= i -> 0 <= j -> i <> j ->
  int_at (<[Z.to_nat i := v]> a) j = int_at a j.
Proof.
  intros Hi Hj Hne. unfold int_at. rewrite !nth_lookup.
  rewrite list_lookup_insert_ne by lia. reflexivity.
Qed.

Lemma int_at_insert_0 (a : list Z) (i : Z) :
  int_at (<[Z.to_nat i := 0]> a) i = 0.
Proof.
  unfold int_at. rewrite nth_lookup.
  destruct (decide (Z.to_nat i < length a)%nat) as [Hlt|Hge].
  - rewrite list_lookup_insert_eq by exact Hlt. reflexivity.
  - rewrite list_insert_ge by lia.
    rewrite (lookup_ge_None_2 a) by lia. reflexivity.
Qed.

(** A landmark stays put while no later block falls into its bucket. *)
Lemma build_loop_keeps (cs : bool) (zSrc : list byte) (nHash hv0 v : Z)
  (n : nat) : forall (i : Z) (t t' : htab),
  0 <= hv0 -> 0 < nHash -> 0 <= i ->
  (forall i', i <= i' ->
     hash_32bit (hash_init cs (drop (Z.to_nat i') zSrc)) mod nHash <> hv0) ->
  int_at (landmark t) hv0 = v ->
  build_loop cs zSrc n nHash i t = Some t' ->
  int_at (landmark t') hv0 = v.
Proof.
  induction n as [|n IH]; intros i t t' Hhv Hn Hi Hne Hv; cbn [build_loop].
  - destruct (i <? len zSrc - NHASH); [discriminate | now intros [= <-]].
  - destruct (i <? len zSrc - NHASH); [|now intros [= <-]].
    apply IH; try assumption.
    + unfold NHASH. lia.
    + intros i' Hi'. apply Hne. unfold NHASH in Hi'. lia.
    + cbn [landmark]. rewrite int_at_insert_ne; [exact Hv | | exact Hhv |].
      * apply Z.mod_pos_bound. exact Hn.
      * apply Hne. lia.
Qed.

Lemma match_fwd_same (z : list byte) (n : nat) : forall (j x r : Z),
  0 <= x <= len z ->
  match_fwd z z n j x x = Some r -> r = j + (len z - x).
Proof.
  induction n as [|n IH]; intros j x r Hx; cbn [match_fwd];
    destruct (Z.ltb_spec x (len z)) as [Hlt|Hge]; cbn [andb];
    try (intros [= <-]; lia);
    rewrite (Byte.byte_dec_lb (eq_refl (byte_at z x))); cbn [negb];
    [discriminate|].
  intros H. apply IH in H; lia.
Qed.

Section Hang.

Variable cs : bool.
Variable fuel : nat.
Variable m : nat.
Hypothesis m_size : Z.of_nat m = 1073741808.

Local Abbreviation blob := (ones_then_zeros m).

Lemma len_blob : len blob = 1073741824.
Proof. rewrite len_ones_then_zeros. lia. Qed.

Lemma chain_walk_hang (limit : nat) (t : htab) (bst : best) :
  chain_walk fuel blob blob (S limit) t 0 0 0 bst = None.
Proof.
  cbn [chain_walk]. change (0 >=? 0) with true. cbn iota.
  change (0 * NHASH) with 0. change (0 + 0) with 0.
  destruct (match_fwd blob blob fuel 0 0 0) as [j|] eqn:Ej; [|reflexivity].
  apply match_fwd_same in Ej; [| rewrite len_blob; lia].
  rewrite len_blob in Ej. cbn [bind].
  assert (match_bwd blob blob fuel 0 0 0 1 = Some 1) as ->
      by (destruct fuel; reflexivity).
  cbn [bind].
  destruct (digit_count fuel (0 - (1 - 1))) as [d1|]; [|reflexivity].
  cbn [bind]. rewrite digit_count_diverges by lia. reflexivity.
Qed.

Lemma build_table_landmark (t : htab) :
  build_table cs fuel blob 67108864 = Some t ->
  int_at (landmark t) 8912912 = 0.
Proof.
  unfold build_table. destruct fuel as [|n]; cbn [build_loop].
  - rewrite len_blob. change (0 <? 1073741824 - NHASH) with true. discriminate.
  - rewrite len_blob. change (0 <? 1073741824 - NHASH) with true. cbn iota.
    rewrite hash_of_ones. change (8912912 mod 67108864) with 8912912.
    change (0 / NHASH) with 0. change (0 + NHASH) with 16.
    apply build_loop_keeps; try lia.
    + intros i' Hi'. rewrite hash_of_zeros by lia.
      change (0 mod 67108864) with 0. lia.
    + cbn [landmark]. apply int_at_insert_0.
Qed.

Lemma scan_hang (n : nat) (t : htab) :
  int_at (landmark t) 8912912 = 0 ->
  scan cs fuel blob blob n t 67108864 0
    (hash_init cs (drop (Z.to_nat 0) blob)) 0
    {| bestCnt := 0; bestOfst := 0; bestLitsz := 0 |} = None.
Proof.
  intros Ht. destruct n as [|n]; cbn [scan]; [reflexivity|].
  rewrite hash_of_ones. change (8912912 mod 67108864) with 8912912.
  rewrite Ht. change 250%nat with (S 249).
  rewrite chain_walk_hang. reflexivity.
Qed.

Lemma scan_all_hang (n : nat) (t : htab) :
  int_at (landmark t) 8912912 = 0 ->
  scan_all cs fuel blob blob n t 67108864 0 = None.
Proof.
  intros Ht. destruct n as [|n]; cbn [scan_all]; rewrite len_blob;
    change (0 + NHASH <? 1073741824) with true; cbn iota; [reflexivity|].
  rewrite scan_hang by exact Ht. reflexivity.
Qed.

Lemma rbuDeltaCreate_hang : rbuDeltaCreate cs fuel blob blob = None.
Proof.
  unfold rbuDeltaCreate. rewrite len_blob.
  destruct (putInt fuel 1073741824) as [hdr|]; [|reflexivity]. cbn [bind].
  change (1073741824 <=? NHASH) with false. cbn iota.
  change (1073741824 / NHASH) with 67108864.
  destruct (build_table cs fuel blob 67108864) as [t|] eqn:Ht; [|reflexivity].
  cbn [bind]. apply build_table_landmark in Ht.
  rewrite scan_all_hang by exact Ht. reflexivity.
Qed.

End Hang.


(** ** Which blocks of the source the hash table holds *)

(** The blocks met when a chain is followed from [iBlock], as
    [chain_walk] follows it, for at most [n] steps. *)
Fixpoint chain_of (n : nat) (t : htab) (iBlock : Z) : list Z :=
  if iBlock >=? 0 then
    match n with
    | O => []
    | S n' => iBlock :: chain_of n' t (int_at (collide t) iBlock)
    end
  else [].

(** Bucket of the block that starts at offset [i * NHASH]. *)
Definition hash_bucket (cs : bool) (zSrc : list byte) (nHash i : Z) : Z :=
  hash_32bit (hash_init cs (drop (Z.to_nat (i * NHASH)) zSrc)) mod nHash.

(** Block [i] is in the index when it is on the chain of its bucket. *)
Definition indexed (cs : bool) (zSrc : list byte) (t : htab) (nHash i : Z)
  : Prop :=
  In i (chain_of (Z.to_nat nHash) t
          (int_at (landmark t) (hash_bucket cs zSrc nHash i))).

(** *** The blocks the loop does insert *)

Lemma int_at_insert_eq (a : list Z) (i v : Z) :
  (Z.to_nat i < length a)%nat -> int_at (<[Z.to_nat i := v]> a) i = v.
Proof.
  intros Hi. unfold int_at. rewrite nth_lookup.
  rewrite list_lookup_insert_eq by exact Hi. reflexivity.
Qed.

Lemma chain_of_more (n : nat) : forall (t : htab) (s j : Z),
  In j (chain_of n t s) -> In j (chain_of (S n) t s).
Proof.
  induction n as [|n IH]; intros t s j; cbn [chain_of].
  - destruct (s >=? 0); intros [].
  - destruct (s >=? 0); [|intros []].
    intros [->|H]; [now left | right]. apply IH in H. exact H.
Qed.

Lemma chain_of_le (n m : nat) (t : htab) (s j : Z) :
  (n <= m)%nat -> In j (chain_of n t s) -> In j (chain_of m t s).
Proof.
  induction 1 as [|m _ IH]; [auto|]. intros H. apply chain_of_more. auto.
Qed.

(** A chain only reads [collide] below the block it starts from, as long
    as every entry points to an earlier block. *)
Lemma chain_of_agree (n : nat) : forall (t t' : htab) (s : Z),
  (forall j, 0 <= j <= s -> int_at (collide t') j = int_at (collide t) j) ->
  (forall j, 0 <= j <= s -> int_at (collide t) j < j) ->
  chain_of n t' s = chain_of n t s.
Proof.
  induction n as [|n IH]; intros t t' s Heq Hdec; cbn [chain_of];
    destruct (Z.geb_spec s 0) as [Hs|Hs]; try reflexivity.
  rewrite (Heq s) by lia. f_equal. specialize (Hdec s ltac:(lia)) as Hlt.
  apply IH; intros j Hj; [apply Heq | apply Hdec]; lia.
Qed.

Section BuildFacts.

Variable cs : bool.
Variable zSrc : list byte.

Local Abbreviation nHash := (len zSrc / NHASH).

(** State of the table when the blocks below [b] have been inserted. *)
Definition built (b : Z) (t : htab) : Prop :=
  length (landmark t) = Z.to_nat nHash /\
  length (collide t) = Z.to_nat nHash /\
  (forall hv, 0 <= hv < nHash -> -1 <= int_at (landmark t) hv < b) /\
  (forall j, 0 <= j < b -> -1 <= int_at (collide t) j < j) /\
  (forall j, 0 <= j < b ->
     In j (chain_of (Z.to_nat b) t
             (int_at (landmark t) (hash_bucket cs zSrc nHash j)))).

Lemma hash_bucket_eq (j : Z) :
  hash_32bit (hash_init cs (drop (Z.to_nat (j * NHASH)) zSrc)) mod nHash
  = hash_bucket cs zSrc nHash j.
Proof. unfold hash_bucket. reflexivity. Qed.

Lemma hash_bucket_range (j : Z) :
  0 < nHash -> 0 <= hash_bucket cs zSrc nHash j < nHash.
Proof. intros H. unfold hash_bucket. apply Z.mod_pos_bound. exact H. Qed.

Lemma built_step (b : Z) (t : htab) :
  0 <= b -> b < nHash -> built b t ->
  built (b + 1)
    {| collide := <[Z.to_nat b :=
                     int_at (landmark t) (hash_bucket cs zSrc nHash b)]>
                    (collide t);
       landmark := <[Z.to_nat (hash_bucket cs zSrc nHash b) := b]>
                     (landmark t) |}.
Proof.
  intros Hb Hbn (Hl & Hc & Ha & Hd & Hin).
  set (hv := hash_bucket cs zSrc nHash b).
  assert (0 <= hv < nHash) as Hhv by (apply hash_bucket_range; lia).
  set (t' := {| collide := _; landmark := _ |}).
  assert (forall h, 0 <= h < nHash ->
            int_at (landmark t') h = if Z.eq_dec h hv then b
                                     else int_at (landmark t) h) as Hland.
  { intros h Hh. cbn [landmark t']. destruct (Z.eq_dec h hv) as [->|Hne].
    - apply int_at_insert_eq. lia.
    - apply int_at_insert_ne; lia. }
  assert (forall j, 0 <= j -> j <> b ->
            int_at (collide t') j = int_at (collide t) j) as Hcol.
  { intros j Hj Hne. cbn [collide t']. apply int_at_insert_ne; lia. }
  assert (int_at (collide t') b = int_at (landmark t) hv) as Hcolb.
  { cbn [collide t']. apply int_at_insert_eq. lia. }
  assert (forall s, s < b -> chain_of (Z.to_nat b) t' s
                             = chain_of (Z.to_nat b) t s) as Hchain.
  { intros s Hs. apply chain_of_agree.
    - intros j Hj. apply Hcol; lia.
    - intros j Hj. apply Hd. lia. }
  unfold built. split; [|split; [|split; [|split]]].
  - cbn [landmark t']. now rewrite length_insert.
  - cbn [collide t']. now rewrite length_insert.
  - intros h Hh. rewrite Hland by exact Hh.
    destruct (Z.eq_dec h hv); [lia|]. specialize (Ha h Hh). lia.
  - intros j Hj. destruct (Z.eq_dec j b) as [->|Hne].
    + rewrite Hcolb. specialize (Ha hv Hhv). lia.
    + rewrite Hcol by lia. apply Hd. lia.
  - intros j Hj.
    pose proof (hash_bucket_range j ltac:(lia)) as Hbj.
    rewrite Hland by exact Hbj.
    replace (Z.to_nat (b + 1)) with (S (Z.to_nat b)) by lia.
    destruct (Z.eq_dec j b) as [->|Hne].
    + fold hv. destruct (Z.eq_dec hv hv) as [_|E]; [|contradiction].
      cbn [chain_of]. destruct (Z.geb_spec b 0); [now left | lia].
    + specialize (Hin j ltac:(lia)).
      destruct (Z.eq_dec (hash_bucket cs zSrc nHash j) hv) as [E|E].
      * cbn [chain_of]. destruct (Z.geb_spec b 0); [|lia]. right.
        rewrite Hcolb, Hchain by (specialize (Ha hv Hhv); lia).
        rewrite E in Hin. exact Hin.
      * apply chain_of_more.
        rewrite Hchain by (specialize (Ha _ Hbj); lia). exact Hin.
Qed.

Lemma build_loop_built (n : nat) : forall (b : Z) (t t' : htab),
  0 <= b -> b * NHASH < len zSrc -> built b t ->
  build_loop cs zSrc n nHash (b * NHASH) t = Some t' ->
  exists b', b <= b' /\ b' * NHASH < len zSrc /\
             len zSrc - NHASH <= b' * NHASH /\ built b' t'.
Proof.
  induction n as [|n IH]; intros b t t' Hb Hlt Hinv; cbn [build_loop].
  - destruct (Z.ltb_spec (b * NHASH) (len zSrc - NHASH)); [discriminate|].
    intros [= <-]. exists b. auto with zarith.
  - destruct (Z.ltb_spec (b * NHASH) (len zSrc - NHASH)) as [Hgo|Hstop].
    + replace (b * NHASH / NHASH) with b
        by (unfold NHASH; Z.div_mod_to_equations; lia).
      replace (b * NHASH + NHASH) with ((b + 1) * NHASH) by lia.
      rewrite !hash_bucket_eq.
      assert (b < nHash) as Hbn
        by (unfold NHASH in *; Z.div_mod_to_equations; lia).
      pose proof (built_step b t Hb Hbn Hinv) as Hnext.
      intros H. apply IH in H as (b' & H1 & H2 & H3 & H4).
      * exists b'. split; [lia|]. auto.
      * lia.
      * unfold NHASH in *. lia.
      * exact Hnext.
    + intros [= <-]. exists b. auto with zarith.
Qed.

(** Every block that ends before the last sixteen bytes of the source is
    on the chain of its bucket when the table is built. *)
Theorem build_table_indexes (fuel : nat) (t : htab) (i : Z) :
  NHASH < len zSrc ->
  build_table cs fuel zSrc nHash = Some t ->
  0 <= i -> i * NHASH < len zSrc - NHASH ->
  indexed cs zSrc t nHash i.
Proof.
  intros Hlen Hbuild Hi Hblock. unfold build_table in Hbuild.
  assert (0 < nHash) as Hn by (unfold NHASH in *; Z.div_mod_to_equations; lia).
  change 0 with (0 * NHASH) in Hbuild at 1.
  apply build_loop_built in Hbuild as (b & Hb1 & Hb2 & Hb3 & Hbuilt).
  - destruct Hbuilt as (_ & _ & _ & _ & Hin). unfold indexed.
    apply (chain_of_le (Z.to_nat b)).
    + unfold NHASH in *. Z.div_mod_to_equations. lia.
    + apply Hin. unfold NHASH in *. lia.
  - lia.
  - unfold NHASH in *. lia.
  - unfold built. cbn [landmark collide]. rewrite !length_replicate.
    split; [reflexivity|]. split; [reflexivity|].
    split; [|split; intros j Hj; lia].
    intros hv Hhv. unfold int_at. rewrite nth_lookup.
    rewrite lookup_replicate_2 by lia. cbn. lia.
Qed.

End BuildFacts.

Lemma build_table_indexes_witness :
  (NHASH < len (replicate 33 "000"%byte) /\
   build_table true 2 (replicate 33 "000"%byte)
     (len (replicate 33 "000"%byte) / NHASH)
   = Some {| landmark := [1; -1]; collide := [-1; 0] |} /\
   0 <= 1 /\ 1 * NHASH < len (replicate 33 "000"%byte) - NHASH) /\
  indexed true (replicate 33 "000"%byte)
    {| landmark := [1; -1]; collide := [-1; 0] |}
    (len (replicate 33 "000"%byte) / NHASH) 1.
Proof.
  assert (NHASH < len (replicate 33 "000"%byte) /\
          build_table true 2 (replicate 33 "000"%byte)
            (len (replicate 33 "000"%byte) / NHASH)
          = Some {| landmark := [1; -1]; collide := [-1; 0] |} /\
          0 <= 1 /\ 1 * NHASH < len (replicate 33 "000"%byte) - NHASH) as H
      by (vm_compute; repeat split; congruence).
  split; [exact H|].
  destruct H as (H1 & H2 & H3 & H4).
  exact (build_table_indexes true (replicate 33 "000"%byte) 2 _ 1 H1 H2 H3 H4).
Defined.

(** Claim C3 at a source of 32 bytes ([nHash = 2]): the loop
    [for (i = 0; i < lenSrc - NHASH; i += NHASH)] stops before the block
    at offset 16, so block 0 is in the index and block 1 is not. *)
Theorem last_block_not_indexed (cs : bool) :
  let zSrc := replicate 32 "000"%byte in
  let nHash := len zSrc / NHASH in
  nHash = 2 /\
  exists t,
    build_table cs 2 zSrc nHash = Some t /\
    landmark t = [0; -1] /\ collide t = [-1; -1] /\
    indexed cs zSrc t nHash 0 /\ ~ indexed cs zSrc t nHash 1.
Proof.
  intros zSrc nHash. split; [reflexivity|].
  exists {| landmark := [0; -1]; collide := [-1; -1] |}.
  split; [destruct cs; vm_compute; reflexivity|].
  split; [reflexivity|]. split; [reflexivity|]. split.
  - destruct cs; vm_compute; left; reflexivity.
  - destruct cs; vm_compute; intros [H|[]]; discriminate H.
Qed.

(** ** The identifier quoter [safeId] *)

(** Character code, as [unsigned char]. *)
Definition code (c : ascii) : Z := Z.of_N (N_of_ascii c).

(** [isalpha] and [isdigit] in the "C" locale (the program never calls
    [setlocale]). *)
Definition isalpha (c : ascii) : bool :=
  ((65 <=? code c) && (code c <=? 90)) || ((97 <=? code c) && (code c <=? 122)).

Definition isdigit (c : ascii) : bool := (48 <=? code c) && (code c <=? 57).

(** SQLite's [sqlite3UpperToLower] table: ASCII upper case to lower case,
    every other byte unchanged. *)
Definition to_lower (c : ascii) : Z :=
  if (65 <=? code c) && (code c <=? 90) then code c + 32 else code c.

(** [sqlite3_stricmp]: the first difference of the two strings after
    folding, [0] when there is none. *)
Fixpoint stricmp (zLeft zRight : string) : Z :=
  match zLeft, zRight with
  | EmptyString, EmptyString => 0
  | EmptyString, String x _ => 0 - to_lower x
  | String c _, EmptyString => to_lower c
  | String c a, String x b =>
      if to_lower c - to_lower x =? 0 then stricmp a b
      else to_lower c - to_lower x
  end.

Definition dquote : ascii := ascii_of_nat 34.

(** The [%w] conversion of [sqlite3_mprintf]: every double quote doubled. *)
Fixpoint escape_w (z : string) : string :=
  match z with
  | EmptyString => EmptyString
  | String c z' =>
      if Ascii.eqb c dquote then String c (String c (escape_w z'))
      else String c (escape_w z')
  end.

(** [sqlite3_mprintf ("\"%w\"", zId)]. *)
Definition quote_w (zId : string) : string :=
  String dquote (String.append (escape_w zId) (String dquote EmptyString)).

Definition azKeywords : list string :=
  [ "ABORT"; "ACTION"; "ADD"; "AFTER"; "ALL"; "ALTER"; "ANALYZE"; "AND"; "AS";
    "ASC"; "ATTACH"; "AUTOINCREMENT"; "BEFORE"; "BEGIN"; "BETWEEN"; "BY";
    "CASCADE"; "CASE"; "CAST"; "CHECK"; "COLLATE"; "COLUMN"; "COMMIT";
    "CONFLICT"; "CONSTRAINT"; "CREATE"; "CROSS"; "CURRENT_DATE";
    "CURRENT_TIME"; "CURRENT_TIMESTAMP"; "DATABASE"; "DEFAULT"; "DEFERRABLE";
    "DEFERRED"; "DELETE"; "DESC"; "DETACH"; "DISTINCT"; "DROP"; "EACH";
    "ELSE"; "END"; "ESCAPE"; "EXCEPT"; "EXCLUSIVE"; "EXISTS"; "EXPLAIN";
    "FAIL"; "FOR"; "FOREIGN"; "FROM"; "FULL"; "GLOB"; "GROUP"; "HAVING"; "IF";
    "IGNORE"; "IMMEDIATE"; "IN"; "INDEX"; "INDEXED"; "INITIALLY"; "INNER";
    "INSERT"; "INSTEAD"; "INTERSECT"; "INTO"; "IS"; "ISNULL"; "JOIN"; "KEY";
    "LEFT"; "LIKE"; "LIMIT"; "MATCH"; "NATURAL"; "NO"; "NOT"; "NOTNULL";
    "NULL"; "OF"; "OFFSET"; "ON"; "OR"; "ORDER"; "OUTER"; "PLAN"; "PRAGMA";
    "PRIMARY"; "QUERY"; "RAISE"; "RECURSIVE"; "REFERENCES"; "REGEXP";
    "REINDEX"; "RELEASE"; "RENAME"; "REPLACE"; "RESTRICT"; "RIGHT";
    "ROLLBACK"; "ROW"; "SAVEPOINT"; "SELECT"; "SET"; "TABLE"; "TEMP";
    "TEMPORARY"; "THEN"; "TO"; "TRANSACTION"; "TRIGGER"; "UNION"; "UNIQUE";
    "UPDATE"; "USING"; "VACUUM"; "VALUES"; "VIEW"; "VIRTUAL"; "WHEN"; "WHERE";
    "WITH"; "WITHOUT" ]%string.

(** The first loop of [safeId]: [None] when it returns the quoted name,
    otherwise the final count [x] of digits met after the first place. *)
Fixpoint scan_id (z : string) (i x : Z) : option Z :=
  match z with
  | EmptyString => Some x
  | String c z' =>
      if negb (isalpha c) && negb (Ascii.eqb c "_"%char) then
        if (i >? 0) && isdigit c then scan_id z' (i + 1) (x + 1) else None
      else scan_id z' (i + 1) x
  end.

(** The binary search [while (lwr <= upr)]; the answer is whether the
    name was found. *)
Fixpoint keyword_search (n : nat) (zId : string) (lwr upr : Z) : option bool :=
  if lwr <=? upr then
    match n with
    | O => None
    | S n' =>
        let mid := (lwr + upr) / 2 in
        let c := stricmp (nth (Z.to_nat mid) azKeywords EmptyString) zId in
        if c =? 0 then Some true
        else if c <? 0 then keyword_search n' zId (mid + 1) upr
        else keyword_search n' zId lwr (mid - 1)
    end
  else Some false.

Definition safeId (zId : string) : option string :=
  match zId with
  | EmptyString => Some (String dquote (String dquote EmptyString))
  | _ =>
      match scan_id zId 0 0 with
      | None => Some (quote_w zId)
      | Some x =>
          if negb (x =? 0) then Some zId
          else
            found <- keyword_search (length azKeywords) zId 0
                       (Z.of_nat (length azKeywords) - 1) ;;
            Some (if found : bool then quote_w zId else zId)
      end
  end.

(** A C string holds no NUL. *)
Definition c_string (z : string) : Prop :=
  forall (i : nat) (c : ascii), String.get i z = Some c -> code c <> 0.

(** *** Facts about characters and folded comparison *)

Lemma code_range (c : ascii) : 0 <= code c < 256.
Proof. unfold code. pose proof (N_ascii_bounded c). lia. Qed.

Lemma code_inj (a b : ascii) : code a = code b -> a = b.
Proof.
  unfold code. intros H.
  rewrite <- (ascii_N_embedding a), <- (ascii_N_embedding b).
  f_equal. lia.
Qed.

Lemma ascii_eqb_code (a b : ascii) : Ascii.eqb a b = (code a =? code b).
Proof.
  destruct (Ascii.eqb_spec a b) as [->|Hne].
  - symmetry. apply Z.eqb_refl.
  - symmetry. apply Z.eqb_neq. intros H. apply Hne, code_inj, H.
Qed.

(** Letters and the underscore: the characters [safeId] lets through. *)
Definition plain_char (c : ascii) : bool := isalpha c || Ascii.eqb c "_"%char.

Lemma to_lower_plain (c k : ascii) :
  to_lower c = to_lower k -> plain_char k = true -> plain_char c = true.
Proof.
  unfold plain_char, isalpha, to_lower. rewrite !ascii_eqb_code.
  change (code "_"%char) with 95.
  pose proof (code_range c) as Hc. pose proof (code_range k) as Hk.
  repeat match goal with
         | |- context [?a <=? ?b] => destruct (Z.leb_spec a b)
         | |- context [?a =? ?b] => destruct (Z.eqb_spec a b)
         end; cbn [andb orb]; intros; try reflexivity; try discriminate; lia.
Qed.

Lemma to_lower_zero (c : ascii) : to_lower c = 0 -> code c = 0.
Proof.
  unfold to_lower. pose proof (code_range c).
  destruct ((65 <=? code c) && (code c <=? 90)); lia.
Qed.

Lemma c_string_tail (c : ascii) (z : string) :
  c_string (String c z) -> code c <> 0 /\ c_string z.
Proof.
  intros H. split.
  - apply (H 0%nat). reflexivity.
  - intros i d Hd. apply (H (S i)). exact Hd.
Qed.

(** The string as [sqlite3_stricmp] sees it. *)
Fixpoint folded (z : string) : list Z :=
  match z with
  | EmptyString => []
  | String c z' => to_lower c :: folded z'
  end.

Lemma stricmp_zero (a : string) : forall b : string,
  c_string a -> c_string b -> stricmp a b = 0 -> folded a = folded b.
Proof.
  induction a as [|c a IH]; intros [|x b] Ha Hb; cbn [stricmp folded].
  - reflexivity.
  - intros Hz. apply c_string_tail in Hb as [Hx _].
    exfalso. apply Hx, to_lower_zero. lia.
  - intros Hz. apply c_string_tail in Ha as [Hc _].
    exfalso. apply Hc, to_lower_zero. exact Hz.
  - apply c_string_tail in Ha as [_ Ha']. apply c_string_tail in Hb as [_ Hb'].
    destruct (Z.eqb_spec (to_lower c - to_lower x) 0) as [E|E]; [|lia].
    intros Hz. f_equal; [lia | apply IH; assumption].
Qed.

Lemma stricmp_folded (a : string) : forall b b' : string,
  folded b = folded b' -> stricmp a b = stricmp a b'.
Proof.
  induction a as [|c a IH]; intros [|x b] [|x' b']; cbn [stricmp folded];
    try discriminate; try reflexivity.
  - intros [= -> _]. reflexivity.
  - intros [= -> H]. rewrite (IH _ _ H). reflexivity.
Qed.

Lemma keyword_search_folded (n : nat) : forall (z z' : string) (lwr upr : Z),
  folded z = folded z' ->
  keyword_search n z lwr upr = keyword_search n z' lwr upr.
Proof.
  induction n as [|n IH]; intros z z' lwr upr H; cbn [keyword_search];
    [reflexivity|].
  rewrite (stricmp_folded _ _ _ H).
  rewrite (IH z z' ((lwr + upr) / 2 + 1) upr H).
  rewrite (IH z z' lwr ((lwr + upr) / 2 - 1) H). reflexivity.
Qed.

(** *** What [safeId] returns *)

Fixpoint chars (z : string) : list ascii :=
  match z with
  | EmptyString => []
  | String c z' => c :: chars z'
  end.

Lemma scan_id_unsafe (z : string) : forall (k : nat) (c : ascii) (i x : Z),
  String.get k z = Some c ->
  isalpha c = false -> c <> "_"%char ->
  (isdigit c = false \/ i + Z.of_nat k = 0) -> 0 <= i ->
  scan_id z i x = None.
Proof.
  induction z as [|h z IH]; intros k c i x Hget Ha Hu Hd Hi; [discriminate|].
  cbn [scan_id]. destruct k as [|k].
  - injection Hget as ->. rewrite Ha.
    destruct (Ascii.eqb_spec c "_"%char) as [E|_]; [contradiction|].
    cbn [negb andb]. destruct Hd as [-> | Hz].
    + now rewrite andb_false_r.
    + destruct (Z.gtb_spec i 0); [lia | reflexivity].
  - cbn [String.get] in Hget.
    assert (isdigit c = false \/ i + 1 + Z.of_nat k = 0) as Hd'
        by (destruct Hd; [now left | lia]).
    destruct (negb (isalpha h) && negb (Ascii.eqb h "_"%char)).
    + destruct ((i >? 0) && isdigit h); [|reflexivity].
      apply (IH k c); auto; lia.
    + apply (IH k c); auto; lia.
Qed.

Lemma scan_id_plain (z : string) : forall (i x : Z),
  forallb plain_char (chars z) = true -> scan_id z i x = Some x.
Proof.
  induction z as [|h z IH]; intros i x; cbn [chars forallb scan_id];
    [reflexivity|].
  intros [Hh Hz]%andb_true_iff. unfold plain_char in Hh.
  destruct (isalpha h); cbn [negb andb]; [apply IH; exact Hz|].
  cbn [orb] in Hh. rewrite Hh. cbn [negb]. apply IH. exact Hz.
Qed.

Lemma escape_w_plain (z : string) :
  forallb plain_char (chars z) = true -> escape_w z = z.
Proof.
  induction z as [|h z IH]; cbn [chars forallb escape_w]; [reflexivity|].
  intros [Hh Hz]%andb_true_iff. rewrite (IH Hz).
  destruct (Ascii.eqb_spec h dquote) as [->|_]; [discriminate Hh | reflexivity].
Qed.

Lemma folded_plain (z : string) : forall kw : string,
  folded z = folded kw ->
  forallb plain_char (chars kw) = true ->
  forallb plain_char (chars z) = true.
Proof.
  induction z as [|h z IH]; intros [|k kw]; cbn [folded chars forallb];
    try discriminate; [reflexivity|].
  intros [= Hh Hz] [Hk Hkw]%andb_true_iff.
  rewrite (to_lower_plain h k Hh Hk), (IH kw Hz Hkw). reflexivity.
Qed.

Lemma keywords_checked (kw : string) :
  In kw azKeywords ->
  keyword_search (length azKeywords) kw 0 (Z.of_nat (length azKeywords) - 1)
  = Some true /\
  forallb plain_char (chars kw) = true /\ kw <> EmptyString /\ c_string kw.
Proof.
  assert (forallb (fun k =>
            match keyword_search (length azKeywords) k 0
                    (Z.of_nat (length azKeywords) - 1) with
            | Some true => true
            | _ => false
            end
            && forallb plain_char (chars k)
            && negb (String.eqb k EmptyString)
            && forallb (fun c => negb (code c =? 0)) (chars k))
            azKeywords = true) as Hall by (vm_compute; reflexivity).
  rewrite forallb_forall in Hall. intros Hin. specialize (Hall kw Hin).
  apply andb_true_iff in Hall as [Hall H4].
  apply andb_true_iff in Hall as [Hall H3].
  apply andb_true_iff in Hall as [H1 H2].
  split; [|split; [|split]].
  - destruct (keyword_search _ kw _ _) as [[|]|]; try discriminate. reflexivity.
  - exact H2.
  - intros ->. discriminate H3.
  - clear -H4. induction kw as [|h kw IH]; intros i c; [discriminate|].
    cbn [chars forallb] in H4. apply andb_true_iff in H4 as [Hh Hkw].
    destruct i as [|i]; cbn [String.get].
    + intros [= <-]. now destruct (Z.eqb_spec (code h) 0).
    + apply IH. exact Hkw.
Qed.

(** Rule 3 of the quoter.  A name that matches a reserved keyword,
    whatever its case, comes back wrapped in double quotes. *)
Theorem safeId_quotes_keywords (zId kw : string) :
  c_string zId -> In kw azKeywords -> stricmp kw zId = 0 ->
  safeId zId
  = Some (String dquote (String.append zId (String dquote EmptyString))).
Proof.
  intros Hc Hin Hcmp.
  destruct (keywords_checked kw Hin) as (Hfound & Hplain & Hne & Hkw).
  pose proof (stricmp_zero kw zId Hkw Hc Hcmp) as Hfold.
  assert (forallb plain_char (chars zId) = true) as Hz
      by (apply (folded_plain zId kw); [now symmetry | exact Hplain]).
  unfold safeId. destruct zId as [|h z].
  { destruct kw; [contradiction | discriminate Hfold]. }
  rewrite scan_id_plain by exact Hz. change (negb (0 =? 0)) with false.
  cbn iota.
  rewrite (keyword_search_folded _ _ kw) by (now symmetry).
  rewrite Hfound. cbn [bind]. unfold quote_w.
  rewrite escape_w_plain by exact Hz. reflexivity.
Qed.

Lemma safeId_quotes_keywords_witness :
  (c_string "Order" /\ In "ORDER"%string azKeywords /\
   stricmp "ORDER" "Order" = 0) /\
  safeId "Order"
  = Some (String dquote (String.append "Order" (String dquote EmptyString))).
Proof.
  assert (c_string "Order" /\ In "ORDER"%string azKeywords /\
          stricmp "ORDER" "Order" = 0) as H.
  { split; [|split].
    - intros i c. do 6 (destruct i as [|i]; [intros [= <-]; discriminate|]).
      discriminate.
    - unfold azKeywords. do 84 right. left. reflexivity.
    - reflexivity. }
  split; [exact H|].
  apply (safeId_quotes_keywords "Order" "ORDER"); apply H.
Defined.

Lemma chars_append (a b : string) :
  chars (String.append a b) = chars a ++ chars b.
Proof.
  induction a as [|c a IH]; cbn [String.append chars app]; [reflexivity|].
  now rewrite IH.
Qed.

Lemma quote_w_chars (z : string) :
  chars (quote_w z)
  = [dquote]
    ++ flat_map (fun d => if Ascii.eqb d dquote then [d; d] else [d]) (chars z)
    ++ [dquote].
Proof.
  unfold quote_w. cbn [chars app]. rewrite chars_append. cbn [chars].
  do 2 f_equal. induction z as [|c z IH]; [reflexivity|].
  cbn [escape_w chars flat_map]. destruct (Ascii.eqb c dquote);
    cbn [chars app]; now rewrite IH.
Qed.

(** Claim C8.  A name with a character that is neither a letter nor an
    underscore, and is not a digit after the first place, comes back
    wrapped in double quotes with every double quote inside doubled. *)
Theorem safeId_quotes_unsafe_names (zId : string) (k : nat) (c : ascii) :
  c_string zId ->
  String.get k zId = Some c ->
  isalpha c = false -> c <> "_"%char ->
  (isdigit c = false \/ k = 0%nat) ->
  safeId zId = Some (quote_w zId) /\
  chars (quote_w zId)
  = [dquote]
    ++ flat_map (fun d => if Ascii.eqb d dquote then [d; d] else [d]) (chars zId)
    ++ [dquote].
Proof.
  intros _ Hget Ha Hu Hd. split; [|apply quote_w_chars].
  unfold safeId. destruct zId as [|h z]; [discriminate|].
  rewrite (scan_id_unsafe _ k c 0 0); auto; [|lia].
  destruct Hd; [now left | right; lia].
Qed.

Definition name_with_quote : string :=
  String "a" (String dquote (String "b" EmptyString)).

Lemma safeId_quotes_unsafe_names_witness :
  (c_string name_with_quote /\
   String.get 1 name_with_quote = Some dquote /\
   isalpha dquote = false /\ dquote <> "_"%char /\
   (isdigit dquote = false \/ 1%nat = 0%nat)) /\
  safeId name_with_quote
  = Some (String dquote
            (String "a" (String dquote (String dquote (String "b"
               (String dquote EmptyString)))))).
Proof.
  assert (c_string name_with_quote /\
          String.get 1 name_with_quote = Some dquote /\
          isalpha dquote = false /\ dquote <> "_"%char /\
          (isdigit dquote = false \/ 1%nat = 0%nat)) as H.
  { split; [|split; [|split; [|split]]]; try reflexivity.
    - intros i c. do 3 (destruct i as [|i]; [intros [= <-]; discriminate|]).
      discriminate.
    - discriminate.
    - left. reflexivity. }
  split; [exact H|].
  destruct H as (H1 & H2 & H3 & H4 & H5).
  exact (proj1 (safeId_quotes_unsafe_names name_with_quote 1 dquote
                  H1 H2 H3 H4 H5)).
Defined.

(** ** Names in the statements of the classic emitter *)

Definition nl : string := String (ascii_of_nat 10) EmptyString.

(** [columnNames] stores every column name as [safeId] returns it. *)
Definition column_entry (zName : string) : option string := safeId zName.

(** [fprintf (out, "ALTER TABLE %s ADD COLUMN %s;\n", zId, safeId (az2[n2]))]
    in [diff_one_table], [zCol] being the entry [az2[n2]] of the column
    list. *)
Definition alter_add_column (zTab zCol : string) : option string :=
  zId <- safeId zTab ;;
  zNew <- safeId zCol ;;
  Some (String.append "ALTER TABLE "
          (String.append zId
             (String.append " ADD COLUMN "
                (String.append zNew (String.append ";" nl))))).

(** [fprintf (out, "%s %s=", zSep, az2[...])] of the UPDATE and WHERE
    clauses, which take the entry of the column list as it is. *)
Definition assign_head (zSep zCol : string) : string :=
  String.append zSep (String.append " " (String.append zCol "=")).

(** Claim C7 on the ALTER TABLE path.  For a table [order] that gains a
    column [select], the column list holds the quoted name and
    [diff_one_table] passes that entry through [safeId] once more: the
    statement names the column with three double quotes on either side,
    where the UPDATE of the same pass names it with one. *)
Theorem alter_add_column_requotes :
  safeId "order" = Some (quote_w "order") /\
  column_entry "select" = Some (quote_w "select") /\
  alter_add_column "order" (quote_w "select")
  = Some (String.append "ALTER TABLE "
            (String.append (quote_w "order")
               (String.append " ADD COLUMN "
                  (String.append (quote_w (quote_w "select"))
                     (String.append ";" nl))))) /\
  chars (quote_w (quote_w "select"))
  = [dquote; dquote; dquote] ++ chars "select" ++ [dquote; dquote; dquote] /\
  assign_head " SET" (quote_w "select")
  = String.append " SET " (String.append (quote_w "select") "=").
Proof.
  split; [vm_compute; reflexivity|].
  split; [vm_compute; reflexivity|].
  split; [vm_compute; reflexivity|].
  split; vm_compute; reflexivity.
Qed.

(** ** The tunables and the command line *)

(** [struct GlobalVars], without the database handle. *)
Record GlobalVars : Type := mk_GlobalVars {
  zArgv0 : string;
  bSchemaPK : Z;
  fDebug : Z;
  FSEvent : Z;
  verbose : Z;
  useTransaction : Z;
  neverUseTransaction : Z;
  nExt : Z;
  azExt : list string;
  rbuTable : Z
}.

(** Event masks of [<sys/inotify.h>]. *)
Definition IN_MODIFY : Z := 2.
Definition IN_CLOSE_WRITE : Z := 8.

(** How [main] ends: the process exits with a status ([cmdlineError]
    exits with 1, [--help] returns 0), or the watch loop is entered with
    the tunables set and the path to watch. *)
Inductive outcome : Type :=
| Exit (status : Z)
| Run (g : GlobalVars) (dbPath : string).

(** [z] of the option loop: the argument without its one or two leading
    dashes; [None] for an argument that is not an option. *)
Definition option_name (a : string) : option string :=
  match a with
  | String c z =>
      if Ascii.eqb c "-"%char then
        match z with
        | String c' z' => if Ascii.eqb c' "-"%char then Some z' else Some z
        | EmptyString => Some z
        end
      else None
  | EmptyString => None
  end.

Section Main.

(** [strtol (s, 0, 0)] of the C library. *)
Variable strtol : string -> Z.

(** The option loop of [main] over [argv[1 ..]]. *)
Fixpoint parse_args (args : list string) (g : GlobalVars)
  (dbPath : option string) : outcome :=
  match args with
  | [] =>
      match dbPath with
      | None => Exit 1
      | Some p => Run g p
      end
  | a :: rest =>
      match option_name a with
      | Some z =>
          if String.eqb z "event" then
            match rest with
            | [] => Exit 1
            | v :: rest' =>
                if String.eqb v "modify" then
                  parse_args rest'
                    (mk_GlobalVars (zArgv0 g) (bSchemaPK g) (fDebug g) IN_MODIFY
                       (verbose g) (useTransaction g) (neverUseTransaction g)
                       (nExt g) (azExt g) (rbuTable g)) dbPath
                else if String.eqb v "close_write" then parse_args rest' g dbPath
                else Exit 1
            end
          else if String.eqb z "debug" then
            match rest with
            | [] => Exit 1
            | v :: rest' =>
                parse_args rest'
                  (mk_GlobalVars (zArgv0 g) (bSchemaPK g) (u32 (strtol v))
                     (FSEvent g) (verbose g) (useTransaction g)
                     (neverUseTransaction g) (nExt g) (azExt g) (rbuTable g))
                  dbPath
            end
          else if String.eqb z "help" then Exit 0
          else if String.eqb z "lib" || String.eqb z "L" then
            match rest with
            | [] => Exit 1
            | v :: rest' =>
                parse_args rest'
                  (mk_GlobalVars (zArgv0 g) (bSchemaPK g) (fDebug g) (FSEvent g)
                     (verbose g) (useTransaction g) (neverUseTransaction g)
                     (nExt g + 1) (azExt g ++ [v]) (rbuTable g)) dbPath
            end
          else if String.eqb z "primarykey" then
            parse_args rest
              (mk_GlobalVars (zArgv0 g) 1 (fDebug g) (FSEvent g) (verbose g)
                 (useTransaction g) (neverUseTransaction g) (nExt g) (azExt g)
                 (rbuTable g)) dbPath
          else if String.eqb z "rbu" then
            parse_args rest
              (mk_GlobalVars (zArgv0 g) (bSchemaPK g) (fDebug g) (FSEvent g)
                 (verbose g) (useTransaction g) (neverUseTransaction g) (nExt g)
                 (azExt g) 1) dbPath
          else if String.eqb z "transaction" then
            parse_args rest
              (mk_GlobalVars (zArgv0 g) (bSchemaPK g) (fDebug g) (FSEvent g)
                 (verbose g) 1 (neverUseTransaction g) (nExt g) (azExt g)
                 (rbuTable g)) dbPath
          else if String.eqb z "verbose" || String.eqb z "v" then
            parse_args rest
              (mk_GlobalVars (zArgv0 g) (bSchemaPK g) (fDebug g) (FSEvent g) 1
                 (useTransaction g) (neverUseTransaction g) (nExt g) (azExt g)
                 (rbuTable g)) dbPath
          else Exit 1
      | None =>
          match dbPath with
          | None => parse_args rest g (Some a)
          | Some _ => Exit 1
          end
      end
  end.

(** [main]: [g] starts zeroed, as a C global does. *)
Definition main (argv : list string) : outcome :=
  parse_args (tl argv)
    {| zArgv0 := hd EmptyString argv; bSchemaPK := 0; fDebug := 0;
       FSEvent := IN_CLOSE_WRITE; verbose := 0; useTransaction := 0;
       neverUseTransaction := 0; nExt := 0; azExt := []; rbuTable := 0 |}
    None.

End Main.

(** ** The pass driver [sqlDiff] *)

Section Pass.

(** The two per-table emitters work through SQLite; each is taken as the
    text it writes for a table.  ([rbudiff_one_table] also sets
    [g.bSchemaPK].) *)
Variables diff_one_table rbudiff_one_table : string -> string.

Definition concat_text (l : list string) : string :=
  fold_right String.append EmptyString l.

Definition begin_text : string := String.append "BEGIN TRANSACTION;" nl.
Definition commit_text : string := String.append "COMMIT;" nl.

(** Result of a pass: the tunables, the patch file and the value returned. *)
Record pass : Type := mk_pass { pass_g : GlobalVars; pass_log : string; pass_ret : Z }.

(** [sqlDiff (zDb1, zDb2, zLog)] for two databases that open: [tables] is
    what the query over both [sqlite_master] tables yields, [zTime] the
    text of [timestamp ()], [log] the patch file so far (it is opened for
    appending, so [ftell] after a write is the length of the file). *)
Definition sqlDiff (g : GlobalVars) (tables : list string) (zTime log : string)
  : pass :=
  let xDiff := if negb (rbuTable g =? 0) then rbudiff_one_table
               else diff_one_table in
  let log := String.append log (String.append "-- " (String.append zTime nl)) in
  let fstart := Z.of_nat (String.length log) in
  let g := if negb (neverUseTransaction g =? 0)
           then mk_GlobalVars (zArgv0 g) (bSchemaPK g) (fDebug g) (FSEvent g)
                  (verbose g) 0 (neverUseTransaction g) (nExt g) (azExt g)
                  (rbuTable g)
           else g in
  let log := if negb (useTransaction g =? 0) then String.append log begin_text
             else log in
  let log := String.append log (concat_text (map xDiff tables)) in
  let log := if negb (useTransaction g =? 0) then String.append log commit_text
             else log in
  let fend := Z.of_nat (String.length log) in
  let g := match tables with
           | _ :: _ =>
               if negb (rbuTable g =? 0)
               then mk_GlobalVars (zArgv0 g) 1 (fDebug g) (FSEvent g)
                      (verbose g) (useTransaction g) (neverUseTransaction g)
                      (nExt g) (azExt g) (rbuTable g)
               else g
           | [] => g
           end in
  {| pass_g := g; pass_log := log;
     pass_ret := if fend - fstart =? 0 then -1 else fstart |}.

End Pass.

(** *** Null diffs and the value [sqlDiff] returns *)

Lemma string_length_append (a b : string) :
  String.length (String.append a b) = (String.length a + String.length b)%nat.
Proof. induction a as [|c a IH]; cbn; [reflexivity | now rewrite IH]. Qed.

Lemma append_empty_r (a : string) : String.append a EmptyString = a.
Proof. induction a as [|c a IH]; cbn; [reflexivity | now rewrite IH]. Qed.

Lemma concat_text_empty (l : list string) :
  Forall (fun z => z = EmptyString) l -> concat_text l = EmptyString.
Proof.
  induction 1 as [|z l Hz _ IH]; [reflexivity|].
  cbn [concat_text fold_right]. fold (concat_text l). now rewrite Hz, IH.
Qed.

(** What a pass appends to the patch file. *)
Definition pass_text (g : GlobalVars) (zTime body : string) : string :=
  String.append "-- "
    (String.append zTime
       (String.append nl
          (if (useTransaction g =? 0) || negb (neverUseTransaction g =? 0)
           then body
           else String.append begin_text (String.append body commit_text)))).

Lemma append_assoc (a b c : string) :
  String.append (String.append a b) c = String.append a (String.append b c).
Proof. induction a as [|x a IH]; cbn; [reflexivity | now rewrite IH]. Qed.

Lemma sqlDiff_log (d r : string -> string) (g : GlobalVars)
  (tables : list string) (zTime log : string) :
  pass_log (sqlDiff d r g tables zTime log)
  = String.append log
      (pass_text g zTime
         (concat_text (map (if negb (rbuTable g =? 0) then r else d) tables))).
Proof.
  unfold sqlDiff, pass_text. cbn [pass_log].
  destruct (neverUseTransaction g =? 0); cbn [negb useTransaction].
  - rewrite orb_false_r. destruct (useTransaction g =? 0); cbn [negb];
      rewrite ?append_assoc; reflexivity.
  - rewrite orb_true_r. change (0 =? 0) with true. cbn [negb].
    rewrite ?append_assoc. reflexivity.
Qed.

(** With transactions off a pass over tables that need no statement
    returns [-1]. *)
Lemma sqlDiff_null_plain (d r : string -> string) (g : GlobalVars)
  (tables : list string) (zTime log : string) :
  useTransaction g = 0 \/ neverUseTransaction g <> 0 ->
  Forall (fun t => d t = EmptyString /\ r t = EmptyString) tables ->
  pass_ret (sqlDiff d r g tables zTime log) = -1 /\
  pass_log (sqlDiff d r g tables zTime log)
  = String.append log (String.append "-- " (String.append zTime nl)).
Proof.
  intros Hg Hnull.
  assert (concat_text (map (if negb (rbuTable g =? 0) then r else d) tables)
          = EmptyString) as Hbody.
  { apply concat_text_empty. rewrite Forall_map.
    eapply Forall_impl; [exact Hnull|]. intros t [Hd Hr].
    destruct (negb (rbuTable g =? 0)); assumption. }
  split.
  - unfold sqlDiff. cbn [pass_ret]. rewrite Hbody.
    destruct (Z.eqb_spec (neverUseTransaction g) 0) as [E|E]; cbn [negb].
    + destruct Hg as [Hg|Hg]; [|contradiction]. rewrite Hg. cbn [negb Z.eqb].
      rewrite append_empty_r, Z.sub_diag. reflexivity.
    + cbn [useTransaction negb Z.eqb].
      rewrite append_empty_r, Z.sub_diag. reflexivity.
  - rewrite sqlDiff_log, Hbody. unfold pass_text.
    destruct (Z.eqb_spec (neverUseTransaction g) 0) as [E|E]; cbn [negb].
    + destruct Hg as [Hg|Hg]; [|contradiction]. rewrite Hg. reflexivity.
    + now rewrite orb_true_r.
Qed.

(** The tunables after [--transaction]. *)
Definition g_transaction : GlobalVars :=
  {| zArgv0 := "repqlite"; bSchemaPK := 0; fDebug := 0;
     FSEvent := IN_CLOSE_WRITE; verbose := 0; useTransaction := 1;
     neverUseTransaction := 0; nExt := 0; azExt := []; rbuTable := 0 |}.

(** Claim C4 with transactions on.  After [repqlite --transaction DIR] a
    pass over tables that need no statement writes the header,
    [BEGIN TRANSACTION;] and [COMMIT;]; the offset [fstart] was taken
    before the two, so [sqlDiff] returns [fstart] and not [-1]. *)
Theorem sqlDiff_null_with_transaction (strtol : string -> Z)
  (tables : list string) (zTime log : string) :
  let header := String.append "-- " (String.append zTime nl) in
  let p := sqlDiff (fun _ => EmptyString) (fun _ => EmptyString)
             g_transaction tables zTime log in
  main strtol ["repqlite"; "--transaction"; "/srv/db"]%string
  = Run g_transaction "/srv/db" /\
  pass_log p
  = String.append log
      (String.append header (String.append begin_text commit_text)) /\
  pass_ret p = Z.of_nat (String.length (String.append log header)) /\
  pass_ret p <> -1.
Proof.
  intros header p. split; [reflexivity|].
  assert (concat_text (map (fun _ : string => EmptyString) tables) = EmptyString)
    as Hbody.
  { apply concat_text_empty. rewrite Forall_map. apply Forall_forall. auto. }
  assert (pass_ret p = Z.of_nat (String.length (String.append log header)))
    as Hret.
  { subst p. unfold sqlDiff. cbn [pass_ret neverUseTransaction useTransaction
      rbuTable g_transaction Z.eqb negb].
    rewrite Hbody, append_empty_r. fold header.
    rewrite !string_length_append.
    change (String.length begin_text) with 19%nat.
    change (String.length commit_text) with 8%nat.
    match goal with
    | |- (if ?c =? 0 then _ else _) = _ =>
        destruct (Z.eqb_spec c 0) as [E|E]; [lia | reflexivity]
    end. }
  split; [|split; [exact Hret | rewrite Hret; lia]].
  subst p. rewrite sqlDiff_log. unfold pass_text.
  cbn [neverUseTransaction useTransaction rbuTable g_transaction Z.eqb negb orb].
  rewrite Hbody. subst header. cbn [String.append].
  rewrite !append_assoc. reflexivity.
Qed.

(** *** Transactions are asked for on the command line *)

Lemma option_name_transaction (a : string) :
  option_name a = Some "transaction"%string ->
  a = "-transaction"%string \/ a = "--transaction"%string.
Proof.
  destruct a as [|c z]; [discriminate|]. cbn [option_name].
  destruct (Ascii.eqb_spec c "-"%char) as [->|_]; [|discriminate].
  destruct z as [|c' z']; [discriminate|].
  destruct (Ascii.eqb_spec c' "-"%char) as [->|_].
  - intros [= ->]. now right.
  - intros [= -> ->]. now left.
Qed.

Section MainFacts.

Variable strtol : string -> Z.

(** [main] leaves [neverUseTransaction] alone and sets [useTransaction]
    on a [-transaction] or [--transaction] argument only. *)
Lemma parse_args_transaction (n : nat) :
  forall (args : list string) (g : GlobalVars) (dbPath : option string)
         (g' : GlobalVars) (p : string),
  (length args <= n)%nat ->
  parse_args strtol args g dbPath = Run g' p ->
  neverUseTransaction g' = neverUseTransaction g /\
  (useTransaction g' = useTransaction g \/ useTransaction g' = 1) /\
  (~ In "-transaction"%string args -> ~ In "--transaction"%string args ->
   useTransaction g' = useTransaction g).
Proof.
  induction n as [|n IH]; intros args g dbPath g' p Hlen.
  - destruct args; [|cbn in Hlen; lia]. cbn [parse_args].
    destruct dbPath; [|discriminate]. intros [= <- _]. tauto.
  - destruct args as [|a rest]; cbn [parse_args].
    { destruct dbPath; [|discriminate]. intros [= <- _]. tauto. }
    cbn [length] in Hlen.
    assert (forall g0 d0, parse_args strtol rest g0 d0 = Run g' p ->
              neverUseTransaction g0 = neverUseTransaction g ->
              useTransaction g0 = useTransaction g ->
              neverUseTransaction g' = neverUseTransaction g /\
              (useTransaction g' = useTransaction g \/ useTransaction g' = 1) /\
              (~ In "-transaction"%string (a :: rest) ->
               ~ In "--transaction"%string (a :: rest) ->
               useTransaction g' = useTransaction g)) as Hrest.
    { intros g0 d0 H Hn Hu. apply IH in H as (H1 & H2 & H3); [|lia].
      rewrite Hn, Hu in *. split; [exact H1|]. split; [exact H2|].
      intros Ha Hb. apply H3; intros Hin; [apply Ha | apply Hb]; now right. }
    assert (forall v rest' g0 d0, rest = v :: rest' ->
              parse_args strtol rest' g0 d0 = Run g' p ->
              neverUseTransaction g0 = neverUseTransaction g ->
              useTransaction g0 = useTransaction g ->
              neverUseTransaction g' = neverUseTransaction g /\
              (useTransaction g' = useTransaction g \/ useTransaction g' = 1) /\
              (~ In "-transaction"%string (a :: rest) ->
               ~ In "--transaction"%string (a :: rest) ->
               useTransaction g' = useTransaction g)) as Hskip.
    { intros v rest' g0 d0 -> H Hn Hu. cbn [length] in Hlen.
      apply IH in H as (H1 & H2 & H3); [|lia].
      rewrite Hn, Hu in *. split; [exact H1|]. split; [exact H2|].
      intros Ha Hb. apply H3; intros Hin; [apply Ha | apply Hb];
        right; now right. }
    destruct (option_name a) as [z|] eqn:Hz.
    + destruct (String.eqb_spec z "event") as [_|_].
      { destruct rest as [|v rest']; [discriminate|].
        destruct (String.eqb v "modify");
          [intros H; eapply Hskip; eauto|].
        destruct (String.eqb v "close_write"); [|discriminate].
        intros H; eapply Hskip; eauto. }
      destruct (String.eqb_spec z "debug") as [_|_].
      { destruct rest as [|v rest']; [discriminate|].
        intros H; eapply Hskip; eauto. }
      destruct (String.eqb_spec z "help") as [_|_]; [discriminate|].
      destruct (String.eqb z "lib" || String.eqb z "L").
      { destruct rest as [|v rest']; [discriminate|].
        intros H; eapply Hskip; eauto. }
      destruct (String.eqb_spec z "primarykey") as [_|_];
        [intros H; eapply Hrest; eauto|].
      destruct (String.eqb_spec z "rbu") as [_|_];
        [intros H; eapply Hrest; eauto|].
      destruct (String.eqb_spec z "transaction") as [->|_].
      { intros H. apply IH in H as (H1 & H2 & H3); [|lia].
        cbn [neverUseTransaction useTransaction] in *.
        split; [exact H1|]. split; [right; destruct H2; assumption|].
        intros Ha Hb. exfalso.
        destruct (option_name_transaction a Hz) as [-> | ->];
          [apply Ha | apply Hb]; now left. }
      destruct (String.eqb z "verbose" || String.eqb z "v");
        [intros H; eapply Hrest; eauto | discriminate].
    + destruct dbPath; [discriminate|]. intros H; eapply Hrest; eauto.
Qed.

End MainFacts.

(** The tunables after [repqlite DIR]. *)
Definition g_default : GlobalVars :=
  {| zArgv0 := "repqlite"; bSchemaPK := 0; fDebug := 0;
     FSEvent := IN_CLOSE_WRITE; verbose := 0; useTransaction := 0;
     neverUseTransaction := 0; nExt := 0; azExt := []; rbuTable := 0 |}.

Definition sample_time : string := "30 October 2026 08:15:00 AM".

Definition sample_statement : string :=
  String.append "DELETE FROM t WHERE a=2;" nl.

(** Claim C5 fails: with no [--transaction] on the command line the pass
    writes its statement right after the header, with no
    [BEGIN TRANSACTION;] and no [COMMIT;]. *)
Lemma default_pass_is_not_bracketed :
  main (fun _ => 0) ["repqlite"; "/srv/db"]%string = Run g_default "/srv/db" /\
  neverUseTransaction g_default = 0 /\
  pass_log (sqlDiff (fun _ => sample_statement) (fun _ => EmptyString)
              g_default ["t"%string] sample_time EmptyString)
  = String.append "-- "
      (String.append sample_time (String.append nl sample_statement)).
Proof. split; [|split]; reflexivity. Qed.

(** Claim C5, as amended.  [main] never sets [neverUseTransaction], and
    sets [useTransaction] only on a [-transaction] or [--transaction]
    argument; a pass brackets the per-table SQL with
    [BEGIN TRANSACTION;] and [COMMIT;] exactly when [useTransaction] is
    set, so with no such argument it writes the header and the per-table
    SQL alone. *)
Theorem transactions_are_opt_in (strtol : string -> Z) (argv : list string)
  (g : GlobalVars) (path : string) (d r : string -> string)
  (tables : list string) (zTime log : string) :
  main strtol argv = Run g path ->
  let body := concat_text (map (if negb (rbuTable g =? 0) then r else d) tables) in
  neverUseTransaction g = 0 /\
  (useTransaction g = 0 \/ useTransaction g = 1) /\
  (~ In "-transaction"%string argv -> ~ In "--transaction"%string argv ->
   useTransaction g = 0) /\
  pass_log (sqlDiff d r g tables zTime log)
  = String.append log
      (String.append "-- "
         (String.append zTime
            (String.append nl
               (if useTransaction g =? 0 then body
                else String.append begin_text (String.append body commit_text))))).
Proof.
  intros H body. unfold main in H.
  apply (parse_args_transaction strtol (length (tl argv))) in H
    as (H1 & H2 & H3); [|lia].
  cbn [neverUseTransaction useTransaction] in H1, H2, H3.
  split; [exact H1|]. split; [destruct H2; [left | right]; assumption|].
  split.
  - intros Ha Hb. apply H3; intros Hin; [apply Ha | apply Hb];
      destruct argv; [destruct Hin | now right | destruct Hin | now right].
  - rewrite sqlDiff_log. unfold pass_text. rewrite H1.
    change (0 =? 0) with true. cbn [negb]. rewrite orb_false_r. reflexivity.
Qed.

Lemma transactions_are_opt_in_witness :
  main (fun _ => 0) ["repqlite"; "--rbu"; "/srv/db"]%string
  = Run (mk_GlobalVars "repqlite" 0 0 IN_CLOSE_WRITE 0 0 0 0 [] 1) "/srv/db" /\
  neverUseTransaction (mk_GlobalVars "repqlite" 0 0 IN_CLOSE_WRITE 0 0 0 0 [] 1)
  = 0.
Proof.
  split; [reflexivity|].
  exact (proj1 (transactions_are_opt_in (fun _ => 0)
                  ["repqlite"; "--rbu"; "/srv/db"]%string
                  (mk_GlobalVars "repqlite" 0 0 IN_CLOSE_WRITE 0 0 0 0 [] 1)
                  "/srv/db" (fun _ => EmptyString) (fun _ => EmptyString)
                  [] EmptyString EmptyString eq_refl)).
Defined.

(** ** The patch replayer [sqlPatch] *)

Definition newline : ascii := ascii_of_nat 10.
Definition carriage_return : ascii := ascii_of_nat 13.

(** End of a logical line: [n--; if (n > 0 && zLine[n-1] == '\r') n--;]
    on a line that ends in the newline just read. *)
Fixpoint strip_eol (zLine : string) : string :=
  match zLine with
  | EmptyString => EmptyString
  | String c EmptyString => EmptyString
  | String c (String d EmptyString) =>
      if Ascii.eqb c carriage_return then EmptyString else String c EmptyString
  | String c z => String c (strip_eol z)
  end.

Definition nul : ascii := ascii_of_nat 0.

(** An [int] after an arithmetic operation: two's complement on 32 bits. *)
Definition int32 (x : Z) : Z := (x + 2147483648) mod 4294967296 - 2147483648.

(** [fgets (s, size, in)] with [k = size - 1]: it reads at most [k]
    characters and stops after a newline.  The result is the chunk read
    and the text left unread; the chunk is empty only at the end of the
    file. *)
Fixpoint fgets (k : nat) (input : string) : string * string :=
  match k, input with
  | S k', String c rest =>
      if Ascii.eqb c newline then (String c EmptyString, rest)
      else let (chunk, rest') := fgets k' rest in (String c chunk, rest')
  | _, _ => (EmptyString, input)
  end.

(** The scan [while (zLine[n]) { ...; n++; }], which flips [inQuote] at
    every double quote, over the chunk that [fgets] has just stored at
    [zLine + n]: the characters counted and the flag.  The count ends at
    the first NUL, be it the terminator that [fgets] wrote or a NUL byte
    of the file; what the chunk holds after such a byte is overwritten by
    the next [fgets]. *)
Fixpoint scan_chunk (chunk : string) (inQuote : bool) : string * bool :=
  match chunk with
  | EmptyString => (EmptyString, inQuote)
  | String c z =>
      if Ascii.eqb c nul then (EmptyString, inQuote)
      else
        let (seen, q) :=
          scan_chunk z (if Ascii.eqb c dquote then negb inQuote else inQuote) in
        (String c seen, q)
  end.

(** [n > 0 && zLine[n - 1] == '\n' && (!inQuote)] *)
Definition ends_line (zLine : string) (inQuote : bool) : bool :=
  Ascii.eqb (List.last (chars zLine) nul) newline && negb inQuote.

(** The loop [while (1)] of [local_getline]: [zLine] holds the [n]
    characters counted so far and [nLine] is the size of the buffer, an
    [int].  The buffer grows to [nLine * 2 + 100] when fewer than 100
    bytes are free; when that product leaves the range of [int] the size
    handed to [realloc] is negative, which no allocator grants, and
    [local_getline] returns NULL (allocation is taken to succeed
    otherwise).  Then [fgets] reads a chunk, the scan counts it, and the
    line ends at a newline counted outside double quotes or at the end of
    the file.  The result is the line and the text left unread, [None]
    inside for NULL; the outer [None] is for a loop that [fuel] cuts
    short. *)
Fixpoint read_line (fuel : nat) (input zLine : string) (nLine : Z)
  (inQuote : bool) : option (option (string * string)) :=
  match fuel with
  | O => None
  | S fuel' =>
      let n := Z.of_nat (String.length zLine) in
      let nLine := if n + 100 >? nLine then int32 (nLine * 2 + 100) else nLine in
      if nLine <? 0 then Some None
      else
        match input with
        | EmptyString =>
            Some (if n =? 0 then None else Some (zLine, EmptyString))
        | String _ _ =>
            let (chunk, rest) := fgets (Z.to_nat (nLine - n - 1)) input in
            let (seen, inQuote) := scan_chunk chunk inQuote in
            let zLine := String.append zLine seen in
            if ends_line zLine inQuote then Some (Some (strip_eol zLine, rest))
            else read_line fuel' rest zLine nLine inQuote
        end
  end.

(** [local_getline (in)] on a file whose unread text is [input]: [None]
    is NULL.  Every turn of the loop but the last reads at least one
    character, so one turn more than there are characters is enough
    (lemma [local_getline_returns]). *)
Definition local_getline (input : string) : option (string * string) :=
  match read_line (S (String.length input)) input EmptyString 100 false with
  | Some r => r
  | None => None
  end.

(** [fseek (fd, sqlPos, SEEK_SET)]: the text from offset [sqlPos] on. *)
Fixpoint seek (n : nat) (z : string) : string :=
  match n, z with
  | O, _ => z
  | S n', String _ z' => seek n' z'
  | S _, EmptyString => EmptyString
  end.

Definition SQLITE_OK : Z := 0.

Section Replay.

(** The database and what SQLite does with a statement: the new state,
    the result code and the error message.  A NULL statement is [None]. *)
Variable DB : Type.
Variable sqlite3_exec : DB -> option string -> DB * Z * string.
Variable sqlite3_open : string -> Z * DB.
Variable sqlite3_errstr : Z -> string.

(** State of a replay: the database and what went to [stderr]. *)
Definition exec_step (st : DB * list string) (line : option string)
  : DB * list string :=
  let '(db, rc, zErrMsg) := sqlite3_exec (fst st) line in
  (db,
   if negb (rc =? SQLITE_OK)
   then snd st ++ [String.append "sqlite3_exec: " (String.append zErrMsg nl)]
   else snd st).

(** The [do ... while (line != NULL)] loop. *)
Fixpoint replay (n : nat) (input : string) (st : DB * list string)
  : option (DB * list string) :=
  match n with
  | O => None
  | S n' =>
      let line := local_getline input in
      let st := exec_step st (option_map fst line) in
      match line with
      | Some (_, rest) => replay n' rest st
      | None => Some st
      end
  end.

(** [sqlPatch (dbName, sqlFile, sqlPos)] on a patch file that opens and
    holds [content]: the value returned, the database and [stderr]. *)
Definition sqlPatch (fuel : nat) (dbName content : string) (sqlPos : Z)
  : option (Z * DB * list string) :=
  let (rc, db) := sqlite3_open dbName in
  if negb (rc =? SQLITE_OK)
  then Some (rc, db,
             [String.append "sqlite3_open: "
                (String.append (sqlite3_errstr rc) nl)])
  else
    st <- replay fuel (seek (Z.to_nat sqlPos) content) (db, []) ;;
    Some (SQLITE_OK, fst st, snd st).

(** The logical lines of a text, by repeated [local_getline]. *)
Fixpoint lines_of (n : nat) (input : string) : list string :=
  match n with
  | O => []
  | S n' =>
      match local_getline input with
      | Some (line, rest) => line :: lines_of n' rest
      | None => []
      end
  end.

Definition patch_lines (input : string) : list string :=
  lines_of (String.length input) input.

(** The buffer of [local_getline] between two turns of its loop. *)
Definition buffer_ok (zLine : string) (nLine : Z) : Prop :=
  nLine mod 200 = 100 /\ 0 < nLine < 2147483648 /\
  Z.of_nat (String.length zLine) < nLine.

Lemma fgets_split (k : nat) : forall input : string,
  String.append (fst (fgets k input)) (snd (fgets k input)) = input.
Proof.
  induction k as [|k IH]; intros [|c rest]; cbn [fgets]; try reflexivity.
  destruct (Ascii.eqb c newline); [reflexivity|].
  specialize (IH rest). destruct (fgets k rest) as [chunk rest'].
  cbn [fst snd String.append] in *. now rewrite IH.
Qed.

Lemma fgets_room (k : nat) (input : string) :
  (String.length (fst (fgets k input)) <= k)%nat.
Proof.
  revert input. induction k as [|k IH]; intros [|c rest]; cbn [fgets];
    try (cbn; lia).
  destruct (Ascii.eqb c newline); [cbn; lia|].
  specialize (IH rest). destruct (fgets k rest) as [chunk rest'].
  cbn [fst String.length] in *. lia.
Qed.

Lemma fgets_reads (k : nat) (c : ascii) (input : string) :
  (String.length (snd (fgets (S k) (String c input))) <= String.length input)%nat.
Proof.
  pose proof (fgets_split (S k) (String c input)) as H.
  apply (f_equal String.length) in H. rewrite string_length_append in H.
  cbn [fgets] in *. destruct (Ascii.eqb c newline); [cbn; lia|].
  destruct (fgets k input) as [chunk rest']. cbn [fst snd String.length] in *.
  lia.
Qed.

Lemma scan_chunk_length (chunk : string) : forall q : bool,
  (String.length (fst (scan_chunk chunk q)) <= String.length chunk)%nat.
Proof.
  induction chunk as [|c z IH]; intros q; cbn [scan_chunk]; [cbn; lia|].
  destruct (Ascii.eqb c nul); [cbn; lia|].
  specialize (IH (if Ascii.eqb c dquote then negb q else q)).
  destruct (scan_chunk z _) as [seen q']. cbn [fst String.length] in *. lia.
Qed.

(** One turn of the loop keeps the buffer in order, and when the buffer
    does not grow out of range it leaves room for at least one
    character. *)
Lemma buffer_grows (zLine : string) (nLine : Z) :
  buffer_ok zLine nLine ->
  let n := Z.of_nat (String.length zLine) in
  let nLine' := if n + 100 >? nLine then int32 (nLine * 2 + 100) else nLine in
  nLine' < 0 \/
  (nLine' mod 200 = 100 /\ 0 < nLine' < 2147483648 /\ n + 100 <= nLine').
Proof.
  intros (Hm & Hr & Hn) n nLine'. subst nLine'. fold n in Hn.
  destruct (Z.gtb_spec (n + 100) nLine) as [Hg|Hg]; [|right; lia].
  unfold int32.
  assert (nLine <= 2147483500) as Hb
      by (clear - Hm Hr; Z.div_mod_to_equations; lia).
  destruct (Z_lt_le_dec (nLine * 2 + 100) 2147483648) as [Hs|Hs].
  - right. rewrite (Z.mod_small (nLine * 2 + 100 + 2147483648)) by lia.
    replace (nLine * 2 + 100 + 2147483648 - 2147483648)
      with (nLine * 2 + 100) by lia.
    split; [|lia]. clear - Hm. Z.div_mod_to_equations. lia.
  - left.
    replace (nLine * 2 + 100 + 2147483648)
      with (nLine * 2 + 100 - 2147483648 + 1 * 4294967296) by lia.
    rewrite Z.mod_add by lia. rewrite Z.mod_small by lia. lia.
Qed.

Lemma read_line_rest (fuel : nat) :
  forall (input zLine : string) (nLine : Z) (q : bool) (line rest : string),
  buffer_ok zLine nLine ->
  read_line fuel input zLine nLine q = Some (Some (line, rest)) ->
  (String.length rest <= String.length input)%nat /\
  (zLine = EmptyString -> (String.length rest < String.length input)%nat).
Proof.
  induction fuel as [|fuel IH]; intros input zLine nLine q line rest Hok;
    [discriminate|].
  cbn [read_line]. cbv zeta.
  destruct (buffer_grows zLine nLine Hok) as [Hneg|(Hm & Hr & Hroom)].
  { destruct (Z.ltb_spec
                (if Z.of_nat (String.length zLine) + 100 >? nLine
                 then int32 (nLine * 2 + 100) else nLine) 0); [discriminate|lia]. }
  set (nLine' := if Z.of_nat (String.length zLine) + 100 >? nLine
                 then int32 (nLine * 2 + 100) else nLine) in *.
  destruct (Z.ltb_spec nLine' 0); [lia|].
  destruct input as [|c input].
  { destruct (Z.eqb_spec (Z.of_nat (String.length zLine)) 0) as [E|E];
      [discriminate|]. intros [= <- <-]. split; [cbn; lia|].
    intros ->. now contradiction E. }
  set (k := Z.to_nat (nLine' - Z.of_nat (String.length zLine) - 1)).
  assert (exists k', k = S k') as [k' Hk] by (exists (Nat.pred k); lia).
  pose proof (fgets_reads k' c input) as Hrd.
  pose proof (fgets_room k (String c input)) as Hrm.
  rewrite <- Hk in Hrd.
  destruct (fgets k (String c input)) as [chunk rest'].
  pose proof (scan_chunk_length chunk q) as Hsc.
  destruct (scan_chunk chunk q) as [seen q']. cbn [fst snd] in *.
  destruct (ends_line _ q').
  - intros [= <- <-]. cbn [String.length]. lia.
  - intros Hrec. apply IH in Hrec.
    + cbn [String.length]. lia.
    + split; [exact Hm|]. split; [exact Hr|].
      rewrite string_length_append. lia.
Qed.

(** The loop always ends: one turn more than there are characters left
    is enough. *)
Lemma read_line_returns (fuel : nat) :
  forall (input zLine : string) (nLine : Z) (q : bool),
  buffer_ok zLine nLine -> (String.length input < fuel)%nat ->
  read_line fuel input zLine nLine q <> None.
Proof.
  induction fuel as [|fuel IH]; intros input zLine nLine q Hok Hf; [lia|].
  cbn [read_line]. cbv zeta.
  destruct (buffer_grows zLine nLine Hok) as [Hneg|(Hm & Hr & Hroom)].
  { destruct (Z.ltb_spec
                (if Z.of_nat (String.length zLine) + 100 >? nLine
                 then int32 (nLine * 2 + 100) else nLine) 0); [discriminate|lia]. }
  set (nLine' := if Z.of_nat (String.length zLine) + 100 >? nLine
                 then int32 (nLine * 2 + 100) else nLine) in *.
  destruct (Z.ltb_spec nLine' 0); [lia|].
  destruct input as [|c input]; [discriminate|].
  set (k := Z.to_nat (nLine' - Z.of_nat (String.length zLine) - 1)).
  assert (exists k', k = S k') as [k' Hk] by (exists (Nat.pred k); lia).
  pose proof (fgets_reads k' c input) as Hrd.
  pose proof (fgets_room k (String c input)) as Hrm.
  rewrite <- Hk in Hrd.
  destruct (fgets k (String c input)) as [chunk rest'].
  pose proof (scan_chunk_length chunk q) as Hsc.
  destruct (scan_chunk chunk q) as [seen q']. cbn [fst snd] in *.
  destruct (ends_line _ q'); [discriminate|].
  apply IH.
  - split; [exact Hm|]. split; [exact Hr|].
    rewrite string_length_append. lia.
  - cbn [String.length] in Hf. lia.
Qed.

Lemma buffer_start : buffer_ok EmptyString 100.
Proof. unfold buffer_ok. cbn [String.length]. split; [reflexivity | lia]. Qed.

(** The fuel that [local_getline] passes on is enough: what it returns is
    what the loop returns. *)
Lemma local_getline_returns (input : string) :
  read_line (S (String.length input)) input EmptyString 100 false
  = Some (local_getline input).
Proof.
  unfold local_getline.
  destruct (read_line _ input EmptyString 100 false) as [r|] eqn:E;
    [reflexivity|].
  exfalso. revert E. apply read_line_returns; [apply buffer_start | lia].
Qed.

Lemma local_getline_rest (input line rest : string) :
  local_getline input = Some (line, rest) ->
  (String.length rest < String.length input)%nat.
Proof.
  unfold local_getline.
  destruct (read_line _ input EmptyString 100 false) as [r|] eqn:E;
    [|discriminate].
  intros ->. apply read_line_rest in E; [|apply buffer_start].
  now apply E.
Qed.

Lemma lines_of_fuel (n : nat) : forall (m : nat) (input : string),
  (String.length input <= n)%nat -> (String.length input <= m)%nat ->
  lines_of n input = lines_of m input.
Proof.
  induction n as [|n IH]; intros m input Hn Hm.
  - destruct input; [|cbn in Hn; lia]. destruct m; reflexivity.
  - destruct m as [|m].
    { destruct input; [reflexivity | cbn in Hm; lia]. }
    cbn [lines_of]. destruct (local_getline input) as [[line rest]|] eqn:E;
      [|reflexivity].
    apply local_getline_rest in E. f_equal. apply IH; lia.
Qed.

Lemma replay_all (n : nat) : forall (input : string) (st : DB * list string),
  (String.length input < n)%nat ->
  replay n input st
  = Some (fold_left exec_step (map Some (lines_of n input) ++ [None]) st).
Proof.
  induction n as [|n IH]; intros input st Hn; [lia|].
  cbn [replay lines_of].
  destruct (local_getline input) as [[line rest]|] eqn:E; cbn [option_map fst].
  - apply local_getline_rest in E. rewrite IH by lia. reflexivity.
  - reflexivity.
Qed.

(** Claim C9, as amended.  Once the database is open, [sqlPatch] hands
    every logical line of the patch file from offset [sqlPos] on to
    [sqlite3_exec], one call per line, in order and whatever the earlier
    calls returned, then the final NULL; each failing call adds one
    diagnostic to [stderr]; and the value returned is [SQLITE_OK]. *)
Theorem sqlPatch_replays_every_line (fuel : nat)
  (dbName content : string) (sqlPos : Z) (db : DB) :
  sqlite3_open dbName = (SQLITE_OK, db) ->
  (String.length content < fuel)%nat ->
  let input := seek (Z.to_nat sqlPos) content in
  let st := fold_left exec_step (map Some (patch_lines input) ++ [None])
              (db, []) in
  sqlPatch fuel dbName content sqlPos = Some (SQLITE_OK, fst st, snd st).
Proof.
  intros Hopen Hfuel input st. unfold sqlPatch. rewrite Hopen.
  change (negb (SQLITE_OK =? SQLITE_OK)) with false. cbn iota.
  assert (String.length input <= String.length content)%nat as Hlen.
  { subst input. generalize (Z.to_nat sqlPos). clear.
    induction content as [|c z IH]; intros [|n]; cbn [seek String.length];
      try lia. specialize (IH n). lia. }
  fold input. rewrite replay_all by lia. cbn [bind].
  rewrite (lines_of_fuel fuel (String.length input) input) by lia.
  reflexivity.
Qed.

End Replay.

(** A database that only counts the statements it ran, and a SQLite that
    fails on every statement but the NULL one. *)
Definition failing_exec (db : nat) (line : option string) : nat * Z * string :=
  match line with
  | Some _ => (S db, 1, "syntax error"%string)
  | None => (db, SQLITE_OK, EmptyString)
  end.

Definition sample_patch : string :=
  String.append "-- header"
    (String.append nl
       (String.append "UPDATE t SET b='y' WHERE a=1;"
          (String.append nl (String.append "DELETE FROM t WHERE a=2;" nl)))).

Lemma sqlPatch_replays_every_line_witness :
  sqlPatch nat failing_exec (fun _ => (SQLITE_OK, 0%nat)) (fun _ => EmptyString)
    100 "backup/db" sample_patch 10
  = Some (SQLITE_OK, 2%nat,
          [String.append "sqlite3_exec: syntax error" nl;
           String.append "sqlite3_exec: syntax error" nl]).
Proof.
  exact (sqlPatch_replays_every_line nat failing_exec
           (fun _ => (SQLITE_OK, 0%nat)) (fun _ => EmptyString)
           100 "backup/db" sample_patch 10 0%nat eq_refl
           ltac:(vm_compute; lia)).
Defined.

(** *** Two statements on one logical line *)

(** A SQLite in miniature.  The database is the list of the statements
    that ran.  The statements of a text end in a semicolon (the texts
    below hold none inside a literal), and [sqlite3_exec] runs them one
    after another and stops at the first that fails, as the documentation
    of SQLite describes it.  A statement fails when it inserts the key 1
    into [t], where that row exists. *)
Fixpoint statements (z cur : string) : list string :=
  match z with
  | EmptyString => match cur with EmptyString => [] | _ => [cur] end
  | String c z' =>
      if Ascii.eqb c ";"%char then cur :: statements z' EmptyString
      else
        match cur with
        | EmptyString =>
            if Ascii.eqb c newline then statements z' EmptyString
            else statements z' (String c EmptyString)
        | _ => statements z' (String.append cur (String c EmptyString))
        end
  end.

Definition SQLITE_CONSTRAINT : Z := 19.

Fixpoint run_statements (sts db : list string) : list string * Z * string :=
  match sts with
  | [] => (db, SQLITE_OK, EmptyString)
  | st :: sts' =>
      if String.prefix "INSERT INTO t(a,b) VALUES(1," st
      then (db, SQLITE_CONSTRAINT, "UNIQUE constraint failed: t.a"%string)
      else run_statements sts' (db ++ [st])
  end.

Definition stopping_exec (db : list string) (line : option string)
  : list string * Z * string :=
  match line with
  | Some z => run_statements (statements z EmptyString) db
  | None => (db, SQLITE_OK, EmptyString)
  end.

(** The statement that the classic emitter writes for a new row of
    [t(a,b)] with key [k] and the TEXT [d] followed by one double quote
    (lemma [odd_quote_inserts_written]). *)
Definition odd_quote_insert (k d : string) : string :=
  String.append "INSERT INTO t(a,b) VALUES("
    (String.append k
       (String.append ",'"
          (String.append d (String dquote "')")))).

Definition odd_quote_patch : string :=
  String.append (odd_quote_insert "1" "5")
    (String.append ";"
       (String.append nl
          (String.append (odd_quote_insert "2" "6") (String.append ";" nl)))).

(** Claim C9 fails where a logical line holds two statements.  The two
    INSERT statements of [odd_quote_patch] stand on a line each, yet
    [local_getline] reads them as one logical line, since the first
    newline comes after an odd number of double quotes.  [sqlPatch]
    hands that line to [sqlite3_exec] in one call; the first statement
    fails, a diagnostic is written, and the second statement, which runs
    well on its own, is never executed. *)
Lemma sqlPatch_skips_the_rest_of_a_failed_line :
  patch_lines odd_quote_patch
  = [String.append (odd_quote_insert "1" "5")
       (String.append ";"
          (String.append nl
             (String.append (odd_quote_insert "2" "6") ";")))] /\
  stopping_exec [] (Some (String.append (odd_quote_insert "2" "6") ";"))
  = ([odd_quote_insert "2" "6"], SQLITE_OK, EmptyString) /\
  sqlPatch (list string) stopping_exec (fun _ => (SQLITE_OK, []))
    (fun _ => EmptyString) 200 "backup/db" odd_quote_patch 0
  = Some (SQLITE_OK, [],
          [String.append "sqlite3_exec: UNIQUE constraint failed: t.a" nl]).
Proof. vm_compute. repeat split; reflexivity. Qed.

(** ** The RBU emitter: one [INSERT] per row of the diff query *)

(** A cell of a result row: [sqlite3_column_type] and the value.  A float
    is kept as its 64-bit pattern. *)
Inductive value : Type :=
| VNull
| VInt (i : Z)
| VFloat (bits : Z)
| VText (z : string)
| VBlob (b : list byte).

(** What the emitter writes for a column: the new value as a literal, or
    the hex text of a delta against the old value. *)
Inductive field : Type :=
| FValue (v : value)
| FDelta (d : list byte).

Definition hex_digit (n : Z) : ascii :=
  nth (Z.to_nat n) (chars "0123456789abcdef") "0"%char.

(** ["%02x"] of a byte. *)
Definition hex_byte (b : byte) : string :=
  String (hex_digit (u8 b / 16)) (String (hex_digit (u8 b mod 16)) EmptyString).

Definition hex_text (bs : list byte) : string :=
  String.append "x'" (String.append (concat_text (map hex_byte bs)) "'").

(** The TEXT case of [printQuoted]: the loop [for (i = j = 0; zArg[i]; i++)]
    and the final [%s] write the text up to its first NUL, with every
    apostrophe doubled. *)
Fixpoint escape_q (z : string) : string :=
  match z with
  | EmptyString => EmptyString
  | String c z' =>
      if Ascii.eqb c nul then EmptyString
      else if Ascii.eqb c "'"%char then String c (String c (escape_q z'))
      else String c (escape_q z')
  end.

Section Rbu.

(** [sqlite3_snprintf] with ["%!.15g"]. *)
Variable snprintf_15g : Z -> string.
(** The SQL operator [IS] on two cells. *)
Variable sql_is : value -> value -> bool.
Variable char_signed : bool.
Variable fuel : nat.

(** [printQuoted (out, X)].  A BLOB of no bytes has a NULL pointer. *)
Definition printQuoted (X : value) : string :=
  match X with
  | VFloat r1 => snprintf_15g r1
  | VInt i => NilZero.string_of_int (Z.to_int i)
  | VBlob [] => "NULL"
  | VBlob zBlob => hex_text zBlob
  | VText zArg => String.append "'" (String.append (escape_q zArg) "'")
  | VNull => "NULL"
  end.

(** [sqlite3_column_value (pStmt, i)]. *)
Definition column (row : list value) (i : Z) : value :=
  nth (Z.to_nat i) row VNull.

(** The value of [ota_control] in a row of the third SELECT that
    [getRbudiffQuery] builds: one ['.'] per key column unless the key is
    the implicit rowid, then ['.'] or ['x'] per other column, ['x'] where
    the new value [IS] not the old one. *)
Definition ota_control (nPK : nat) (bOtaRowid : bool) (n o : list value)
  : list ascii :=
  (if bOtaRowid then [] else replicate nPK "."%char)
  ++ map (fun p => if sql_is (fst p) (snd p) then "."%char else "x"%char)
       (drop nPK (zip n o)).

Fixpoint string_of_chars (l : list ascii) : string :=
  match l with
  | [] => EmptyString
  | c :: l' => String c (string_of_chars l')
  end.

(** A row of that SELECT for the rows [n] of [aux] and [o] of [main]
    with equal keys: the key, the changed new values, [ota_control],
    NULL per key column, the changed old values. *)
Definition update_row (nPK : nat) (bOtaRowid : bool) (n o : list value)
  : list value :=
  take nPK n
  ++ map (fun p => if sql_is (fst p) (snd p) then VNull else fst p)
       (drop nPK (zip n o))
  ++ [VText (string_of_chars (ota_control nPK bOtaRowid n o))]
  ++ replicate nPK VNull
  ++ map (fun p => if sql_is (fst p) (snd p) then VNull else snd p)
       (drop nPK (zip n o)).

(** The loop [for (i = 0; i < nCol; i++)] over the columns of an update
    row: [k] columns are left, [zOtaControl] is the control string being
    rewritten.  The result is the fields written and the final string. *)
Fixpoint rbu_columns (k : nat) (row : list value) (nCol nPK bOtaRowid i : Z)
  (zOtaControl : list ascii) : option (list field * list ascii) :=
  match k with
  | O => Some ([], zOtaControl)
  | S k' =>
      r <- match column row i, column row (nCol + 1 + i) with
           | VBlob aFinal, VBlob aSrc =>
               if i >=? nPK then
                 aDelta <- rbuDeltaCreate char_signed fuel aSrc aFinal ;;
                 if len aDelta <? len aFinal
                 then Some (FDelta aDelta,
                            <[Z.to_nat (i - bOtaRowid) := "f"%char]> zOtaControl)
                 else Some (FValue (VBlob aFinal), zOtaControl)
               else Some (FValue (VBlob aFinal), zOtaControl)
           | v, _ => Some (FValue v, zOtaControl)
           end ;;
      rest <- rbu_columns k' row nCol nPK bOtaRowid (i + 1) (snd r) ;;
      Some (fst r :: fst rest, snd rest)
  end.

Definition field_text (f : field) : string :=
  match f with
  | FValue v => printQuoted v
  | FDelta d => hex_text d
  end.

(** The text of the VALUES list of an update row, up to the closing
    bracket: every field followed by [", "], then the control string. *)
Definition values_text (fs : list field) (zOtaControl : list ascii) : string :=
  String.append
    (concat_text (map (fun f => String.append (field_text f) ", ") fs))
    (String.append "'" (String.append (string_of_chars zOtaControl) "'")).

(** The fields and the control string that the row loop of
    [rbudiff_one_table] writes for a row whose control column is TEXT
    (rows with an INTEGER there are inserts and deletes, written cell by
    cell). *)
Definition rbu_update_values (row : list value) (nCol nPK bOtaRowid : Z)
  : option (list field * list ascii) :=
  match column row nCol with
  | VText z => rbu_columns (Z.to_nat nCol) row nCol nPK bOtaRowid 0 (chars z)
  | _ => None
  end.

Lemma chars_string_of_chars (l : list ascii) : chars (string_of_chars l) = l.
Proof. induction l as [|c l IH]; cbn; [reflexivity | now rewrite IH]. Qed.

Lemma ota_control_length (nPK : nat) (b : bool) (n o : list value) :
  length n = length o -> (nPK <= length n)%nat ->
  length (ota_control nPK b n o)
  = ((length n - nPK) + (if b then 0 else nPK))%nat.
Proof.
  intros Hlen Hpk. unfold ota_control.
  rewrite length_app, length_map, length_drop, length_zip.
  destruct b; cbn [length]; rewrite ?length_replicate; lia.
Qed.

Lemma ota_control_chars (nPK : nat) (b : bool) (n o : list value) :
  Forall (fun c => c = "."%char \/ c = "x"%char) (ota_control nPK b n o).
Proof.
  unfold ota_control. apply Forall_app. split.
  - destruct b; [constructor | apply Forall_replicate; now left].
  - apply Forall_map. apply Forall_forall. intros p _. cbn.
    destruct (sql_is (fst p) (snd p)); [now left | now right].
Qed.

Lemma update_row_control (nPK : nat) (b : bool) (n o : list value) :
  length n = length o -> (nPK <= length n)%nat ->
  column (update_row nPK b n o) (Z.of_nat (length n))
  = VText (string_of_chars (ota_control nPK b n o)).
Proof.
  intros Hlen Hpk. unfold column, update_row. rewrite Nat2Z.id.
  rewrite app_assoc.
  set (pre := take nPK n ++ _).
  assert (length pre = length n) as Hpre.
  { subst pre. rewrite length_app, length_take, length_map, length_drop,
      length_zip. lia. }
  rewrite <- Hpre. cbn [app]. rewrite nth_middle. reflexivity.
Qed.

(** The loop only ever writes ['f'], and only at the place of a column
    it has just written as a delta. *)
Lemma rbu_columns_post (k : nat) (row : list value) (nCol nPK bOtaRowid : Z) :
  forall (i : Z) (ctl0 : list ascii) (fs : list field) (ctl : list ascii),
  rbu_columns k row nCol nPK bOtaRowid i ctl0 = Some (fs, ctl) ->
  length ctl = length ctl0 /\ length fs = k /\
  (forall p c, ctl !! p = Some c -> c = "f"%char \/ ctl0 !! p = Some c) /\
  (forall p, ctl !! p = Some "f"%char ->
     ctl0 !! p = Some "f"%char \/
     exists j d, i <= j /\ nPK <= j /\ p = Z.to_nat (j - bOtaRowid) /\
                 fs !! Z.to_nat (j - i) = Some (FDelta d)).
Proof.
  induction k as [|k IH]; intros i ctl0 fs ctl; cbn [rbu_columns].
  - intros [= <- <-]. repeat split; auto.
  - intros H. apply bind_Some in H as ([f0 ctl1] & Hr & H).
    apply bind_Some in H as ([fs' ctl'] & Hrest & [= <- <-]).
    cbn [fst snd] in *.
    apply IH in Hrest as (Hl & Hf & HA & HB).
    assert ((ctl1 = ctl0 /\ forall d, f0 <> FDelta d) \/
            (exists d, f0 = FDelta d /\ nPK <= i /\
               ctl1 = <[Z.to_nat (i - bOtaRowid) := "f"%char]> ctl0)) as Hstep.
    { destruct (column row i) as [| | | |aFinal];
        try (injection Hr as <- <-; left; split; [reflexivity | discriminate]).
      destruct (column row (nCol + 1 + i)) as [| | | |aSrc];
        try (injection Hr as <- <-; left; split; [reflexivity | discriminate]).
      destruct (Z.geb_spec i nPK) as [Hge|Hlt];
        [|injection Hr as <- <-; left; split; [reflexivity | discriminate]].
      apply bind_Some in Hr as (aDelta & _ & Hr).
      destruct (len aDelta <? len aFinal); injection Hr as <- <-.
      - right. exists aDelta. repeat split; auto.
      - left. split; [reflexivity | discriminate]. }
    split; [|split; [|split]].
    + destruct Hstep as [[-> _]|(d & _ & _ & ->)];
        [exact Hl | now rewrite Hl, length_insert].
    + cbn [length]. now rewrite Hf.
    + intros p c Hp. destruct (HA p c Hp) as [Hc|Hc]; [now left|].
      destruct Hstep as [[-> _]|(d & _ & _ & ->)]; [now right|].
      apply list_lookup_insert_Some in Hc as [(_ & <- & _)|[_ Hc]];
        [now left | now right].
    + intros p Hp. destruct (HB p Hp) as [Hc|(j & d & Hij & Hpk & -> & Hj)].
      * destruct Hstep as [[-> _]|(d & -> & Hpk & ->)]; [now left|].
        apply list_lookup_insert_Some in Hc as [(Hpos & _ & _)|[_ Hc]];
          [|now left].
        right. exists i, d. rewrite Z.sub_diag. repeat split; auto; lia.
      * right. exists j, d. repeat split; auto; try lia.
        replace (Z.to_nat (j - i)) with (S (Z.to_nat (j - (i + 1)))) by lia.
        exact Hj.
Qed.

Lemma lookup_map {A B : Type} (f : A -> B) (l : list A) (i : nat) :
  map f l !! i = option_map f (l !! i).
Proof.
  revert i. induction l as [|x l IH]; intros [|i]; cbn; auto.
Qed.

(** Every delta field comes from a call of [rbuDeltaCreate] on the two
    BLOBs of its column, and is shorter than the new BLOB. *)
Lemma rbu_columns_deltas (k : nat) (row : list value) (nCol nPK bOtaRowid : Z) :
  forall (i : Z) (ctl0 : list ascii) (fs : list field) (ctl : list ascii)
         (j : nat) (d : list byte),
  rbu_columns k row nCol nPK bOtaRowid i ctl0
  = Some (fs, ctl) ->
  fs !! j = Some (FDelta d) ->
  exists aFinal aSrc : list byte,
    column row (i + Z.of_nat j) = VBlob aFinal /\
    column row (nCol + 1 + (i + Z.of_nat j)) = VBlob aSrc /\
    nPK <= i + Z.of_nat j /\
    rbuDeltaCreate char_signed fuel aSrc aFinal = Some d /\
    len d < len aFinal.
Proof.
  induction k as [|k IH]; intros i ctl0 fs ctl j d; cbn [rbu_columns].
  - intros [= <- <-]. discriminate.
  - intros H. apply bind_Some in H as ([f0 ctl1] & Hr & H).
    apply bind_Some in H as ([fs' ctl'] & Hrest & [= <- <-]).
    cbn [fst snd] in *. destruct j as [|j]; cbn [lookup list_lookup].
    + intros [= ->]. rewrite Z.add_0_r.
      destruct (column row i) as [| | | |aFinal]; try discriminate Hr.
      destruct (column row (nCol + 1 + i)) as [| | | |aSrc];
        try discriminate Hr.
      destruct (Z.geb_spec i nPK) as [Hge|Hlt]; [|discriminate Hr].
      apply bind_Some in Hr as (aDelta & Hd & Hr).
      destruct (Z.ltb_spec (len aDelta) (len aFinal)); [|discriminate Hr].
      injection Hr as -> _. exists aFinal, aSrc. auto.
    + intros Hj. destruct (IH _ _ _ _ _ _ Hrest Hj)
        as (aFinal & aSrc & H1 & H2 & H3 & H4 & H5).
      exists aFinal, aSrc.
      replace (i + Z.of_nat (S j)) with (i + 1 + Z.of_nat j) by lia. auto.
Qed.

(** Cell [j] of the new values and of the old values in an update row,
    for a column [j] outside the key. *)
Lemma update_row_cells (nPK : nat) (b : bool) (n o : list value) (j : nat)
  (x y : value) :
  length n = length o -> (nPK <= j)%nat ->
  n !! j = Some x -> o !! j = Some y ->
  column (update_row nPK b n o) (Z.of_nat j)
  = (if sql_is x y then VNull else x) /\
  column (update_row nPK b n o) (Z.of_nat (length n) + 1 + Z.of_nat j)
  = (if sql_is x y then VNull else y).
Proof.
  intros Hlen Hpk Hx Hy.
  assert (j < length n)%nat as Hj by (apply lookup_lt_Some in Hx; exact Hx).
  assert (forall f : value * value -> value,
            map f (drop nPK (zip n o)) !! (j - nPK)%nat = Some (f (x, y)))
    as Hmap.
  { intros f. rewrite lookup_map, lookup_drop.
    replace (nPK + (j - nPK))%nat with j by lia.
    assert (zip n o !! j = Some (x, y)) as ->
        by (apply lookup_zip_with_Some; eauto).
    reflexivity. }
  assert (length (map (fun p : value * value =>
                         if sql_is (fst p) (snd p) then VNull else fst p)
                    (drop nPK (zip n o))) = (length n - nPK)%nat) as Hl1.
  { rewrite length_map, length_drop, length_zip. lia. }
  unfold column, update_row. split.
  - rewrite Nat2Z.id, nth_lookup.
    rewrite lookup_app_r by (rewrite length_take; lia).
    rewrite length_take, Nat.min_l by lia.
    rewrite lookup_app_l by (rewrite Hl1; lia).
    now rewrite Hmap.
  - replace (Z.to_nat (Z.of_nat (length n) + 1 + Z.of_nat j))
      with (length n + 1 + j)%nat by lia.
    rewrite nth_lookup.
    rewrite lookup_app_r by (rewrite length_take; lia).
    rewrite length_take, Nat.min_l by lia.
    rewrite lookup_app_r by (rewrite Hl1; lia). rewrite Hl1.
    rewrite lookup_app_r by (cbn [length]; lia). cbn [length].
    rewrite lookup_app_r by (rewrite length_replicate; lia).
    rewrite length_replicate.
    replace (length n + 1 + j - nPK - (length n - nPK) - 1 - nPK)%nat
      with (j - nPK)%nat by lia.
    now rewrite Hmap.
Qed.


End Rbu.

(** Scenario S5 of the specification: a BLOB of 512 bytes, [0 .. 255]
    twice, whose bytes 100 to 115 become zero. *)
Definition byte_of_Z (n : Z) : byte :=
  match Byte.of_N (Z.to_N (n mod 256)) with
  | Some b => b
  | None => "000"%byte
  end.

Definition blob_S5_old : list byte := map (fun k => byte_of_Z (Z.of_nat k)) (seq 0 512).

Definition blob_S5_new : list byte :=
  take 100 blob_S5_old ++ replicate 16 "000"%byte ++ drop 116 blob_S5_old.

(** An [IS] for the sample: equal integers, or equal BLOBs. *)
Definition sample_is (a b : value) : bool :=
  match a, b with
  | VNull, VNull => true
  | VInt x, VInt y => x =? y
  | VBlob x, VBlob y =>
      (length x =? length y)%nat
      && forallb (fun p => Byte.eqb (fst p) (snd p)) (zip x y)
  | _, _ => false
  end.

Definition row_S5 : option (list field * list ascii) :=
  Eval vm_compute in
    rbu_update_values true 600
      (update_row sample_is 1 false [VInt 1; VBlob blob_S5_new]
         [VInt 1; VBlob blob_S5_old]) 2 1 0.

Definition fields_S5 : list field :=
  match row_S5 with
  | Some r => fst r
  | None => []
  end.

Definition control_S5 : list ascii :=
  match row_S5 with
  | Some r => snd r
  | None => []
  end.


(** * Further properties of the code *)

(** ** The rolling hash: [hash_next] slides the window of [hash_init] *)

(** [x] and [y] differ by a multiple of [m]. *)
Lemma mod_shift (m x y q : Z) : x = y + q * m -> x mod m = y mod m.
Proof. intros ->. apply Z_mod_plus_full. Qed.

Section Rolling.

Variable cs : bool.
Variable z : list byte.

(** The sum and the weighted sum of [n] characters of [z] from [z[k]] on,
    with the weights [w], [w - 1], ... *)
Fixpoint window_sum (n : nat) (k : Z) : Z :=
  match n with
  | O => 0
  | S n' => char_val cs (byte_at z k) + window_sum n' (k + 1)
  end.

Fixpoint window_weighted (n : nat) (k w : Z) : Z :=
  match n with
  | O => 0
  | S n' => w * char_val cs (byte_at z k) + window_weighted n' (k + 1) (w - 1)
  end.

Lemma window_sum_next (n : nat) : forall k : Z,
  window_sum n (k + 1)
  = window_sum n k - char_val cs (byte_at z k)
    + char_val cs (byte_at z (k + Z.of_nat n)).
Proof.
  induction n as [|n IH]; intros k; cbn [window_sum].
  - rewrite Z.add_0_r. lia.
  - rewrite (IH (k + 1)).
    replace (k + 1 + Z.of_nat n) with (k + Z.of_nat (S n)) by lia. lia.
Qed.

Lemma window_weighted_next (n : nat) : forall k w : Z,
  window_weighted n (k + 1) w
  = window_weighted n k w - w * char_val cs (byte_at z k)
    + window_sum n (k + 1)
    + (w - Z.of_nat n) * char_val cs (byte_at z (k + Z.of_nat n)).
Proof.
  induction n as [|n IH]; intros k w; cbn [window_weighted window_sum].
  - change (Z.of_nat 0) with 0. replace (k + 0) with k by lia. ring.
  - rewrite (IH (k + 1) (w - 1)).
    replace (k + 1 + Z.of_nat n) with (k + Z.of_nat (S n)) by lia.
    replace (w - 1 - Z.of_nat n) with (w - Z.of_nat (S n)) by lia.
    ring.
Qed.

End Rolling.

Lemma hash_init_loop_sums (cs : bool) (z : list byte) (n : nat) :
  forall i a b : Z,
  fst (hash_init_loop cs n z i a b) mod 65536
  = (a + window_sum cs z n i) mod 65536 /\
  snd (hash_init_loop cs n z i a b) mod 65536
  = (b + window_weighted cs z n i (NHASH - i)) mod 65536.
Proof.
  induction n as [|n IH]; intros i a b;
    cbn [hash_init_loop window_sum window_weighted fst snd].
  - now rewrite !Z.add_0_r.
  - destruct (IH (i + 1) (u16 (a + char_val cs (byte_at z i)))
                (u16 (b + (NHASH - i) * char_val cs (byte_at z i))))
      as [Ha Hb].
    rewrite Ha, Hb. unfold u16.
    replace (NHASH - (i + 1)) with (NHASH - i - 1) by lia.
    split; rewrite Zplus_mod_idemp_l; f_equal; ring.
Qed.

Lemma window_sum_drop (cs : bool) (z : list byte) (k : Z) (n : nat) :
  forall i : Z, 0 <= k -> 0 <= i ->
  window_sum cs (drop (Z.to_nat k) z) n i = window_sum cs z n (k + i).
Proof.
  induction n as [|n IH]; intros i Hk Hi; cbn [window_sum]; [reflexivity|].
  rewrite byte_at_drop, IH by lia. now rewrite Z.add_assoc.
Qed.

Lemma window_weighted_drop (cs : bool) (z : list byte) (k : Z) (n : nat) :
  forall i w : Z, 0 <= k -> 0 <= i ->
  window_weighted cs (drop (Z.to_nat k) z) n i w
  = window_weighted cs z n (k + i) w.
Proof.
  induction n as [|n IH]; intros i w Hk Hi; cbn [window_weighted];
    [reflexivity|].
  rewrite byte_at_drop, IH by lia. now rewrite Z.add_assoc.
Qed.

Lemma land_65535 (x : Z) : Z.land x 65535 = x mod 65536.
Proof. change 65535 with (Z.ones 16). now rewrite Z.land_ones by lia. Qed.

(** The two sums held by [hash_init] at the window that starts at [z[k]]. *)
Lemma hash_init_sums (cs : bool) (z : list byte) (k : Z) :
  0 <= k ->
  h_a (hash_init cs (drop (Z.to_nat k) z)) = window_sum cs z 16 k mod 65536 /\
  h_b (hash_init cs (drop (Z.to_nat k) z))
  = window_weighted cs z 16 k 16 mod 65536.
Proof.
  intros Hk. unfold hash_init. cbn [h_a h_b]. rewrite !land_65535.
  destruct (hash_init_loop_sums cs (drop (Z.to_nat k) z) 16 0 0 0) as [Ha Hb].
  rewrite Ha, Hb, window_sum_drop, window_weighted_drop by lia.
  rewrite !Z.add_0_l, Z.add_0_r. split; reflexivity.
Qed.

(** State of the hash after [k] calls of [hash_next] over [z]. *)
Definition rolled (cs : bool) (z : list byte) (k : Z) (h : hash) : Prop :=
  h_a h = window_sum cs z 16 k mod 65536 /\
  h_b h = window_weighted cs z 16 k 16 mod 65536 /\
  h_i h = k mod 16 /\
  length (h_z h) = 16%nat /\
  forall j, 0 <= j < 16 -> byte_at (h_z h) ((k + j) mod 16) = byte_at z (k + j).

Lemma byte_at_insert_eq (l : list byte) (i : Z) (c : byte) :
  (Z.to_nat i < length l)%nat -> byte_at (<[Z.to_nat i := c]> l) i = c.
Proof.
  intros Hi. unfold byte_at. rewrite nth_lookup.
  now rewrite list_lookup_insert_eq by exact Hi.
Qed.

Lemma byte_at_insert_ne (l : list byte) (i j : Z) (c : byte) :
  0 <= i -> 0 <= j -> i <> j ->
  byte_at (<[Z.to_nat i := c]> l) j = byte_at l j.
Proof.
  intros Hi Hj Hne. unfold byte_at. rewrite !nth_lookup.
  now rewrite list_lookup_insert_ne by lia.
Qed.

Lemma rolled_init (cs : bool) (z : list byte) :
  16 <= len z -> rolled cs z 0 (hash_init cs z).
Proof.
  intros Hlen. unfold len in Hlen.
  destruct (hash_init_sums cs z 0 ltac:(lia)) as [Ha Hb].
  change (drop (Z.to_nat 0) z) with z in Ha, Hb.
  split; [exact Ha|]. split; [exact Hb|]. split; [reflexivity|].
  unfold hash_init. cbn [h_z]. split; [rewrite length_take; lia|].
  intros j Hj. rewrite Z.add_0_l, Z.mod_small by lia.
  unfold byte_at. rewrite !nth_lookup, lookup_take_lt by lia. reflexivity.
Qed.

Lemma rolled_next (cs : bool) (z : list byte) (k : Z) (h : hash) :
  0 <= k -> rolled cs z k h ->
  rolled cs z (k + 1) (hash_next cs h (byte_at z (k + 16))).
Proof.
  intros Hk (Ha & Hb & Hi & Hlen & Hz).
  pose proof (Z.mod_pos_bound k 16 ltac:(lia)) as Hk16.
  assert (byte_at (h_z h) (h_i h) = byte_at z k) as Hold.
  { rewrite Hi. specialize (Hz 0 ltac:(lia)). now rewrite Z.add_0_r in Hz. }
  assert (h_a (hash_next cs h (byte_at z (k + 16)))
          = window_sum cs z 16 (k + 1) mod 65536) as Ha'.
  { unfold hash_next. cbn [h_a]. rewrite Hold, Ha. unfold u16.
    rewrite window_sum_next. change (Z.of_nat 16) with 16.
    set (s := window_sum cs z 16 k).
    set (c := char_val cs (byte_at z k)).
    set (d := char_val cs (byte_at z (k + 16))).
    apply (mod_shift 65536 _ _ (c / 65536 - s / 65536)).
    pose proof (Z.mod_eq s 65536). pose proof (Z.mod_eq c 65536). lia. }
  split; [exact Ha'|]. split; [|split; [|split]].
  - unfold hash_next in *. cbn [h_a h_b] in *. rewrite Ha', Hold, Hb.
    unfold u16. rewrite window_weighted_next. change (Z.of_nat 16) with 16.
    rewrite Z.sub_diag, Z.mul_0_l, Z.add_0_r.
    set (s := window_weighted cs z 16 k 16).
    set (a := window_sum cs z 16 (k + 1)).
    set (c := char_val cs (byte_at z k)).
    apply (mod_shift 65536 _ _ (NHASH * (c / 65536) - s / 65536 - a / 65536)).
    pose proof (Z.mod_eq s 65536). pose proof (Z.mod_eq c 65536).
    pose proof (Z.mod_eq a 65536). unfold NHASH. lia.
  - unfold hash_next. cbn [h_i]. rewrite Hi.
    change (NHASH - 1) with (Z.ones 4). rewrite Z.land_ones by lia.
    change (2 ^ 4) with 16. now rewrite Zplus_mod_idemp_l.
  - unfold hash_next. cbn [h_z]. now rewrite length_insert.
  - intros j Hj. unfold hash_next. cbn [h_z]. rewrite Hi.
    pose proof (Z.mod_pos_bound (k + 1 + j) 16 ltac:(lia)) as Hj16.
    destruct (Z.eq_dec j 15) as [->|Hne].
    + replace ((k + 1 + 15) mod 16) with (k mod 16)
        by (replace (k + 1 + 15) with (k + 1 * 16) by lia;
            now rewrite Z_mod_plus_full).
      rewrite byte_at_insert_eq by lia. f_equal. lia.
    + rewrite byte_at_insert_ne.
      * replace (k + 1 + j) with (k + (j + 1)) by lia. apply Hz. lia.
      * lia.
      * lia.
      * intros E.
        assert ((k + 1 + j) mod 16 = (k mod 16 + (1 + j)) mod 16) as E2
            by (rewrite Zplus_mod_idemp_l; f_equal; lia).
        rewrite E2 in E.
        destruct (Z.ltb_spec (k mod 16 + (1 + j)) 16).
        -- rewrite (Z.mod_small (k mod 16 + (1 + j))) in E by lia. lia.
        -- replace (k mod 16 + (1 + j)) with (k mod 16 + (1 + j) - 16 + 1 * 16)
             in E by lia.
           rewrite Z_mod_plus_full in E.
           rewrite (Z.mod_small (k mod 16 + (1 + j) - 16)) in E by lia. lia.
Qed.

Lemma rolled_fold (cs : bool) (z : list byte) (k : nat) :
  16 + Z.of_nat k <= len z ->
  rolled cs z (Z.of_nat k)
    (fold_left (hash_next cs) (slice z 16 (Z.of_nat k)) (hash_init cs z)).
Proof.
  induction k as [|k IH]; intros Hlen.
  - unfold slice. cbn [Z.of_nat Z.to_nat take fold_left].
    apply rolled_init. lia.
  - replace (Z.of_nat (S k)) with (Z.of_nat k + 1) by lia.
    rewrite slice_app, fold_left_app by lia.
    change 1 with (0 + 1) at 2. rewrite slice_cons; [|unfold len in *; lia|lia].
    unfold slice at 2. cbn [Z.to_nat take fold_left].
    rewrite (Z.add_comm 16). apply rolled_next; [lia|]. apply IH. lia.
Qed.

(** The hash after [hash_init] on the first sixteen bytes of [z] and [k]
    calls of [hash_next] on the bytes that follow is the hash that
    [hash_init] computes on the sixteen bytes from [z[k]] on: the way the
    scan of [rbuDeltaCreate] advances its window gives the values the hash
    table was built with. *)
Theorem hash_next_slides_window (cs : bool) (z : list byte) (k : nat) :
  16 + Z.of_nat k <= len z ->
  hash_32bit (fold_left (hash_next cs) (slice z 16 (Z.of_nat k))
                (hash_init cs z))
  = hash_32bit (hash_init cs (drop k z)).
Proof.
  intros Hlen. destruct (rolled_fold cs z k Hlen) as (Ha & Hb & _).
  destruct (hash_init_sums cs z (Z.of_nat k) ltac:(lia)) as [Ha' Hb'].
  rewrite Nat2Z.id in Ha', Hb'. unfold hash_32bit.
  now rewrite Ha, Hb, Ha', Hb'.
Qed.

Lemma hash_next_slides_window_witness :
  16 + Z.of_nat 3 <= len sample_source /\
  hash_32bit (fold_left (hash_next true) (slice sample_source 16 (Z.of_nat 3))
                (hash_init true sample_source))
  = hash_32bit (hash_init true (drop 3 sample_source)).
Proof.
  assert (16 + Z.of_nat 3 <= len sample_source) as H by (vm_compute; discriminate).
  split; [exact H|]. exact (hash_next_slides_window true sample_source 3 H).
Defined.

(** ** The checksum is a sum of big-endian words *)

(** The buffer read as 32-bit big-endian words, the last one padded with
    zero bytes, all added up. *)
Fixpoint be_sum (z : list byte) : Z :=
  match z with
  | z0 :: z1 :: z2 :: z3 :: z' =>
      u8 z0 * 16777216 + u8 z1 * 65536 + u8 z2 * 256 + u8 z3 + be_sum z'
  | [z0; z1; z2] => u8 z0 * 16777216 + u8 z1 * 65536 + u8 z2 * 256
  | [z0; z1] => u8 z0 * 16777216 + u8 z1 * 65536
  | [z0] => u8 z0 * 16777216
  | [] => 0
  end.

(** What the four running sums stand for. *)
Definition sums_val (s : sums) : Z :=
  sum3 s + 256 * sum2 s + 65536 * sum1 s + 16777216 * sum0 s.

Lemma u32_add_l (x y : Z) : u32 (u32 x + y) = u32 (x + y).
Proof. unfold u32. now rewrite Zplus_mod_idemp_l. Qed.

Lemma u32_add_r (x y : Z) : u32 (x + u32 y) = u32 (x + y).
Proof. unfold u32. now rewrite Zplus_mod_idemp_r. Qed.

Lemma u32_mul_r (k x : Z) : u32 (k * u32 x) = u32 (k * x).
Proof. unfold u32. now rewrite Zmult_mod_idemp_r. Qed.

Lemma u32_eq_intro (x y : Z) : (x - y) mod 4294967296 = 0 -> u32 x = u32 y.
Proof.
  intros H. unfold u32. apply Z.mod_divide in H; [|lia]. destruct H as [q Hq].
  apply (mod_shift _ _ _ q). lia.
Qed.

(** Equations between sums reduced modulo [2^32] at several places. *)
Ltac u32_solve :=
  apply u32_eq_intro; unfold u32; Z.div_mod_to_equations; lia.

Lemma sums_val_step (s : sums) (a b c d : Z) :
  u32 (sums_val {| sum0 := u32 (sum0 s + a); sum1 := u32 (sum1 s + b);
                   sum2 := u32 (sum2 s + c); sum3 := u32 (sum3 s + d) |})
  = u32 (sums_val s + (a * 16777216 + b * 65536 + c * 256 + d)).
Proof.
  unfold sums_val, u32. cbn [sum0 sum1 sum2 sum3].
  pose proof (Z.mod_eq (sum0 s + a) 4294967296 ltac:(lia)) as H0.
  pose proof (Z.mod_eq (sum1 s + b) 4294967296 ltac:(lia)) as H1.
  pose proof (Z.mod_eq (sum2 s + c) 4294967296 ltac:(lia)) as H2.
  pose proof (Z.mod_eq (sum3 s + d) 4294967296 ltac:(lia)) as H3.
  apply (mod_shift 4294967296 _ _
           (0 - (sum3 s + d) / 4294967296
            - 256 * ((sum2 s + c) / 4294967296)
            - 65536 * ((sum1 s + b) / 4294967296)
            - 16777216 * ((sum0 s + a) / 4294967296))).
  lia.
Qed.

Lemma checksum16_val (n : nat) : forall (z : list byte) (s : sums),
  (length z <= n)%nat ->
  u32 (sums_val (snd (checksum16 z s)) + be_sum (fst (checksum16 z s)))
  = u32 (sums_val s + be_sum z).
Proof.
  induction n as [|n IH]; intros z s Hn.
  - destruct z; [reflexivity | cbn in Hn; lia].
  - do 16 (destruct z as [|? z]; [reflexivity|]).
    cbn [checksum16]. cbn [length] in Hn. rewrite IH by lia.
    rewrite <- u32_add_l.
    rewrite !u32_add_r.
    rewrite (sums_val_step s (u8 _ + u8 _ + u8 _ + u8 _)
               (u8 _ + u8 _ + u8 _ + u8 _) (u8 _ + u8 _ + u8 _ + u8 _)
               (u8 _ + u8 _ + u8 _ + u8 _)).
    rewrite u32_add_l. cbn [be_sum]. f_equal. ring.
Qed.

Lemma checksum4_val (n : nat) : forall (z : list byte) (s : sums),
  (length z <= n)%nat ->
  u32 (sums_val (snd (checksum4 z s)) + be_sum (fst (checksum4 z s)))
  = u32 (sums_val s + be_sum z) /\
  (length (fst (checksum4 z s)) < 4)%nat.
Proof.
  induction n as [|n IH]; intros z s Hn.
  - destruct z; [split; [reflexivity | cbn; lia] | cbn in Hn; lia].
  - do 4 (destruct z as [|? z]; [split; [reflexivity | cbn; lia]|]).
    cbn [checksum4]. cbn [length] in Hn.
    destruct (IH z {| sum0 := u32 (sum0 s + u8 b); sum1 := u32 (sum1 s + u8 b0);
                      sum2 := u32 (sum2 s + u8 b1);
                      sum3 := u32 (sum3 s + u8 b2) |} ltac:(lia)) as [Hv Hl].
    split; [|exact Hl]. rewrite Hv.
    rewrite <- u32_add_l, sums_val_step, u32_add_l. cbn [be_sum].
    f_equal. ring.
Qed.

Lemma shiftl_mul (x n : Z) : 0 <= n -> Z.shiftl x n = x * 2 ^ n.
Proof. intros Hn. now rewrite Z.shiftl_mul_pow2. Qed.

(** [checksum] adds the buffer up word by word, modulo [2^32]. *)
Lemma checksum_be_sum (z : list byte) : checksum z = u32 (be_sum z).
Proof.
  unfold checksum.
  pose proof (checksum16_val (length z) z
                {| sum0 := 0; sum1 := 0; sum2 := 0; sum3 := 0 |} ltac:(lia)) as H16.
  destruct (checksum16 z _) as [z1 s1]. cbn [fst snd] in H16.
  destruct (checksum4_val (length z1) z1 s1 ltac:(lia)) as [H4 Hl].
  destruct (checksum4 z1 s1) as [z2 s2]. cbn [fst snd] in H4, Hl.
  change (sums_val {| sum0 := 0; sum1 := 0; sum2 := 0; sum3 := 0 |}) with 0
    in H16.
  rewrite Z.add_0_l in H16. rewrite <- H16, <- H4.
  unfold sums_val.
  destruct z2 as [|z0 [|z1' [|z2' [|? ?]]]]; cbn [be_sum length] in *;
    try lia; rewrite ?shiftl_mul by lia;
    change (2 ^ 8) with 256; change (2 ^ 16) with 65536;
    change (2 ^ 24) with 16777216; u32_solve.
Qed.

Lemma be_sum_app (m : nat) : forall a b : list byte,
  length a = (4 * m)%nat -> be_sum (a ++ b) = be_sum a + be_sum b.
Proof.
  induction m as [|m IH]; intros a b Hlen.
  - destruct a; [reflexivity | discriminate Hlen].
  - do 4 (destruct a as [|? a]; [cbn in Hlen; lia|]).
    cbn [app be_sum]. rewrite (IH a b) by (cbn [length] in Hlen; lia). ring.
Qed.

(** When the first part of a buffer is a whole number of 32-bit words, the
    checksum of the buffer is the sum, modulo [2^32], of the checksums of
    its two parts. *)
Theorem checksum_app (a b : list byte) :
  (length a mod 4 = 0)%nat ->
  checksum (a ++ b) = u32 (checksum a + checksum b).
Proof.
  intros Hlen. rewrite !checksum_be_sum, u32_add_l, u32_add_r.
  rewrite (be_sum_app (length a / 4)); [reflexivity|].
  pose proof (Nat.div_mod_eq (length a) 4). lia.
Qed.

Lemma checksum_app_witness :
  (length (take 16 sample_source) mod 4 = 0)%nat /\
  checksum (take 16 sample_source ++ drop 16 sample_source)
  = u32 (checksum (take 16 sample_source) + checksum (drop 16 sample_source)).
Proof.
  split; [reflexivity|].
  exact (checksum_app (take 16 sample_source) (drop 16 sample_source) eq_refl).
Defined.

(** ** Base-64 numbers: what [digit_count] accepts and what [putInt] writes *)

(** [digit_count] takes an [int].  It returns, with the number of base-64
    digits, exactly for the arguments from [0] to [2^30 - 1]; for a larger
    or a negative argument the loop never ends, whatever the fuel. *)
Theorem digit_count_returns_iff (v : Z) :
  -2147483648 <= v < 2147483648 ->
  ((exists (fuel : nat) (n : Z), digit_count fuel v = Some n) <->
   0 <= v < 1073741824) /\
  (forall (fuel : nat) (n : Z), digit_count fuel v = Some n -> n = ndigits v).
Proof.
  intros Hv.
  assert (forall fuel n, digit_count fuel v = Some n ->
            0 <= v < 1073741824 /\ n = ndigits v) as Hsound.
  { intros fuel n H. apply digit_count_sound in H as [-> Hlt].
    unfold u32 in *. destruct (Z.ltb_spec v 0) as [Hneg|Hpos].
    - exfalso. revert Hlt. Z.div_mod_to_equations. lia.
    - rewrite Z.mod_small in * by lia. split; [lia | reflexivity]. }
  split; [split|].
  - intros (fuel & n & H). apply (Hsound fuel n H).
  - intros Hr. exists 5%nat, (ndigits v). apply digit_count_total; [lia | exact Hr].
  - intros fuel n H. apply (Hsound fuel n H).
Qed.

Lemma digit_count_returns_iff_witness :
  -2147483648 <= 1073741824 < 2147483648 /\
  ~ (exists (fuel : nat) (n : Z), digit_count fuel 1073741824 = Some n).
Proof.
  assert (-2147483648 <= 1073741824 < 2147483648) as H by lia.
  split; [exact H|]. intros Hex.
  apply (proj1 (proj1 (digit_count_returns_iff 1073741824 H))) in Hex. lia.
Defined.

(** The most significant digit that the first loop of [putInt] stores is
    the digit of a number from 1 to 63. *)
Lemma putInt_loop_last (fuel : nat) : forall (v : Z) (zBuf : list byte),
  0 < v -> putInt_loop fuel v [] = Some zBuf ->
  exists (pre : list byte) (w : Z), zBuf = pre ++ [digit_of w] /\ 0 < w < 64.
Proof.
  induction fuel as [|fuel IH]; intros v zBuf Hv.
  - cbn [putInt_loop]. destruct (Z.gtb_spec v 0); [discriminate | lia].
  - rewrite putInt_loop_step by lia.
    destruct (putInt_loop fuel (v / 64) []) as [r|] eqn:Hr; [|discriminate].
    intros [= <-]. destruct (Z.eq_dec (v / 64) 0) as [Hz|Hnz].
    + rewrite Hz, putInt_loop_0 in Hr. injection Hr as <-.
      exists [], v. split; [reflexivity|].
      revert Hz. Z.div_mod_to_equations. lia.
    + destruct (IH (v / 64) r) as (pre & w & -> & Hw); [|exact Hr|].
      * revert Hnz. Z.div_mod_to_equations. lia.
      * exists (digit_of v :: pre), w. split; [reflexivity | exact Hw].
Qed.

(** [putInt] writes the base-64 numeral of its argument, most significant
    digit first and with no leading zero: read back digit by digit the
    text gives the argument, and only the numeral of zero begins with the
    digit [0]. *)
Theorem putInt_writes_the_numeral (fuel : nat) (v : Z) :
  (6 <= fuel)%nat -> 0 <= v < 4294967296 ->
  exists ds : list byte,
    putInt fuel v = Some ds /\
    digits_value ds 0 = v /\
    (hd_error ds = Some "0"%byte <-> v = 0).
Proof.
  intros Hf Hv. destruct (putInt_total fuel v Hf) as [ds Hds].
  exists ds. split; [exact Hds|]. split.
  - rewrite (putInt_b64 _ _ _ Hds), b64_value. apply u32_small. exact Hv.
  - unfold putInt in Hds. rewrite u32_small in Hds by exact Hv.
    destruct (Z.eqb_spec v 0) as [->|Hnz].
    + injection Hds as <-. split; reflexivity.
    + apply bind_Some in Hds as (zBuf & Hl & [= <-]).
      apply putInt_loop_last in Hl as (pre & w & -> & Hw); [|lia].
      rewrite rev_app_distr. cbn [rev app hd_error]. split; [|lia].
      intros [= E]. exfalso.
      pose proof (digit_value_digit_of w) as Hd. rewrite E in Hd.
      rewrite Z.mod_small in Hd by lia.
      change (digit_value "0"%byte) with (Some 0) in Hd.
      injection Hd as Hd. lia.
Qed.

Lemma putInt_writes_the_numeral_witness :
  ((6 <= 6)%nat /\ 0 <= 4095 < 4294967296) /\
  exists ds : list byte,
    putInt 6 4095 = Some ds /\
    digits_value ds 0 = 4095 /\
    (hd_error ds = Some "0"%byte <-> 4095 = 0).
Proof.
  assert ((6 <= 6)%nat /\ 0 <= 4095 < 4294967296) as H by lia.
  split; [exact H|].
  exact (putInt_writes_the_numeral 6 4095 (proj1 H) (proj2 H)).
Defined.

(** ** Deltas of short inputs, and deltas of any size *)

Lemma putInt_is_b64 (fuel : nat) (v : Z) :
  (6 <= fuel)%nat -> putInt fuel v = Some (b64 v).
Proof.
  intros Hf. destruct (putInt_total fuel v Hf) as [ds Hds].
  now rewrite Hds, (putInt_b64 _ _ _ Hds).
Qed.

(** A source of at most sixteen bytes takes the early exit of
    [rbuDeltaCreate]: the delta is the size line, the whole target as one
    literal and the checksum.  No [digit_count] is called on this path, so
    the encoder returns for a target of any length an [unsigned int] can
    hold, and the delta is longer than the target by at least six
    bytes. *)
Theorem delta_of_short_source (cs : bool) (fuel : nat) (zSrc zOut : list byte) :
  len zSrc <= NHASH -> (6 <= fuel)%nat ->
  rbuDeltaCreate cs fuel zSrc zOut
  = Some (b64 (len zOut) ++ ["010"%byte] ++ b64 (len zOut) ++ [":"%byte]
          ++ zOut ++ b64 (checksum zOut) ++ [";"%byte]) /\
  len zOut + 6
  <= len (b64 (len zOut) ++ ["010"%byte] ++ b64 (len zOut) ++ [":"%byte]
          ++ zOut ++ b64 (checksum zOut) ++ [";"%byte]).
Proof.
  intros Hsrc Hf. split.
  - unfold rbuDeltaCreate. rewrite !putInt_is_b64 by exact Hf. cbn [bind].
    destruct (Z.leb_spec (len zSrc) NHASH); [reflexivity | lia].
  - unfold len. rewrite !length_app. cbn [length].
    pose proof (b64_length_le (len zOut)).
    pose proof (b64_length_le (checksum zOut)). unfold len in *. lia.
Qed.

Lemma delta_of_short_source_witness :
  (len (take 16 sample_source) <= NHASH /\ (6 <= 6)%nat) /\
  rbuDeltaCreate true 6 (take 16 sample_source) sample_target
  = Some (b64 (len sample_target) ++ ["010"%byte] ++ b64 (len sample_target)
          ++ [":"%byte] ++ sample_target ++ b64 (checksum sample_target)
          ++ [";"%byte]).
Proof.
  assert (len (take 16 sample_source) <= NHASH /\ (6 <= 6)%nat) as H
      by (split; [vm_compute; discriminate | lia]).
  split; [exact H|].
  exact (proj1 (delta_of_short_source true 6 (take 16 sample_source)
                  sample_target (proj1 H) (proj2 H))).
Defined.

(** A target of at most sixteen bytes is never scanned: against a longer
    source the delta is the size line, the target as one literal (no
    literal at all when the target is empty) and the checksum. *)
Theorem delta_of_short_target (cs : bool) (fuel : nat) (zSrc zOut : list byte) :
  NHASH < len zSrc -> len zOut <= NHASH ->
  len zSrc <= NHASH * Z.of_nat fuel -> (6 <= fuel)%nat ->
  rbuDeltaCreate cs fuel zSrc zOut
  = Some (b64 (len zOut) ++ ["010"%byte]
          ++ (if len zOut =? 0 then []
              else b64 (len zOut) ++ [":"%byte] ++ zOut)
          ++ b64 (checksum zOut) ++ [";"%byte]).
Proof.
  intros Hsrc Hout Hfuel Hf. unfold rbuDeltaCreate.
  rewrite !putInt_is_b64 by exact Hf. cbn [bind].
  destruct (Z.leb_spec (len zSrc) NHASH); [lia|].
  unfold build_table.
  destruct (build_loop_total cs fuel zSrc fuel (len zSrc / NHASH) 0
              {| landmark := replicate (Z.to_nat (len zSrc / NHASH)) (-1);
                 collide := replicate (Z.to_nat (len zSrc / NHASH)) (-1) |})
    as [t Ht]; [unfold NHASH in *; lia|].
  rewrite Ht. cbn [bind].
  assert (forall n, scan_all cs fuel zSrc zOut n t (len zSrc / NHASH) 0
                    = Some ([], 0)) as Hscan.
  { intros n. destruct n; cbn [scan_all];
      destruct (Z.ltb_spec (0 + NHASH) (len zOut)); (lia || reflexivity). }
  rewrite Hscan. cbn [bind fst snd app].
  pose proof (len_nonneg zOut) as Hn.
  destruct (Z.ltb_spec 0 (len zOut)) as [Hpos|Hzero].
  - unfold put_insert. rewrite Z.sub_0_r, putInt_is_b64 by exact Hf.
    cbn [bind]. rewrite slice_all.
    destruct (Z.eqb_spec (len zOut) 0); [lia|].
    now rewrite <- !app_assoc.
  - cbn [bind]. destruct (Z.eqb_spec (len zOut) 0); [reflexivity | lia].
Qed.

Lemma delta_of_short_target_witness :
  (NHASH < len sample_source /\ len (@nil byte) <= NHASH /\
   len sample_source <= NHASH * Z.of_nat 6 /\ (6 <= 6)%nat) /\
  rbuDeltaCreate true 6 sample_source []
  = Some (list_byte_of_string (String "0" (String (ascii_of_nat 10) "0;"))).
Proof.
  assert (NHASH < len sample_source /\ len (@nil byte) <= NHASH /\
          len sample_source <= NHASH * Z.of_nat 6 /\ (6 <= 6)%nat) as H
      by (vm_compute; repeat split; (discriminate || lia)).
  split; [exact H|].
  destruct H as (H1 & H2 & H3 & H4).
  exact (delta_of_short_target true 6 sample_source [] H1 H2 H3 H4).
Defined.

(** Whatever the fuel, a delta that [rbuDeltaCreate] returns for BLOBs of
    [int] length is right: applied to the source it gives the target, and
    it carries the checksum of the target.  The encoder may fail to return
    for a BLOB of [2^30] bytes or more, but it never returns a wrong
    delta. *)
Theorem delta_is_never_wrong (cs : bool) (fuel : nat) (zSrc zOut d : list byte) :
  len zSrc < 2147483648 -> len zOut < 2147483648 ->
  rbuDeltaCreate cs fuel zSrc zOut = Some d ->
  delta_apply zSrc d = Some (zOut, checksum zOut).
Proof.
  intros Hsrc Hout H.
  destruct (rbuDeltaCreate_shape cs fuel zSrc zOut Hsrc Hout d H)
    as (cmds & -> & Hok & Hi & _).
  pose proof (delta_apply_rendered zSrc cmds (len zOut) (checksum zOut) Hok)
    as Hr.
  rewrite Hi in Hr. apply Hr.
  - pose proof (len_nonneg zOut). lia.
  - apply checksum_range.
  - reflexivity.
Qed.

Lemma delta_is_never_wrong_witness :
  (len sample_source < 2147483648 /\ len sample_target < 2147483648 /\
   rbuDeltaCreate true 60 sample_source sample_target
   = Some (list_byte_of_string
             (String "n" (String (ascii_of_nat 10)
                "P@0,6:targetI@V,1:!1KbGW2;")))) /\
  delta_apply sample_source
    (list_byte_of_string
       (String "n" (String (ascii_of_nat 10) "P@0,6:targetI@V,1:!1KbGW2;")))
  = Some (sample_target, checksum sample_target).
Proof.
  assert (len sample_source < 2147483648 /\ len sample_target < 2147483648 /\
          rbuDeltaCreate true 60 sample_source sample_target
          = Some (list_byte_of_string
                    (String "n" (String (ascii_of_nat 10)
                       "P@0,6:targetI@V,1:!1KbGW2;")))) as H
      by (split; [vm_compute; reflexivity|];
          split; [vm_compute; reflexivity|]; vm_compute; reflexivity).
  split; [exact H|].
  destruct H as (H1 & H2 & H3).
  exact (delta_is_never_wrong true 60 sample_source sample_target _ H1 H2 H3).
Defined.

(** ** More on [safeId]: plain names, the shape of the result, quoting twice *)

(** The binary search ends within as many rounds as there are keywords. *)
Lemma keyword_search_total (n : nat) : forall (zId : string) (lwr upr : Z),
  upr - lwr + 1 <= Z.of_nat n ->
  exists found : bool, keyword_search n zId lwr upr = Some found.
Proof.
  induction n as [|n IH]; intros zId lwr upr Hn; cbn [keyword_search].
  - destruct (Z.leb_spec lwr upr); [lia | eauto].
  - destruct (Z.leb_spec lwr upr) as [Hle|Hgt]; [|eauto].
    destruct (_ =? 0); [eauto|].
    assert (lwr <= (lwr + upr) / 2 <= upr) as Hmid
        by (Z.div_mod_to_equations; lia).
    destruct (_ <? 0); apply IH; lia.
Qed.

(** It answers "not found" when no keyword compares equal to the name. *)
Lemma keyword_search_absent (n : nat) : forall (zId : string) (lwr upr : Z),
  (forall kw, In kw azKeywords -> stricmp kw zId <> 0) ->
  0 <= lwr -> upr < Z.of_nat (length azKeywords) ->
  upr - lwr + 1 <= Z.of_nat n ->
  keyword_search n zId lwr upr = Some false.
Proof.
  induction n as [|n IH]; intros zId lwr upr Hno Hl Hu Hn;
    cbn [keyword_search].
  - destruct (Z.leb_spec lwr upr); [lia | reflexivity].
  - destruct (Z.leb_spec lwr upr) as [Hle|Hgt]; [|reflexivity].
    assert (lwr <= (lwr + upr) / 2 <= upr) as Hmid
        by (Z.div_mod_to_equations; lia).
    destruct (Z.eqb_spec
                (stricmp (nth (Z.to_nat ((lwr + upr) / 2)) azKeywords EmptyString)
                   zId) 0) as [E|_].
    + exfalso. apply (Hno _ (nth_In _ EmptyString
        (ltac:(lia) : (Z.to_nat ((lwr + upr) / 2) < length azKeywords)%nat)) E).
    + destruct (_ <? 0); apply IH; auto; lia.
Qed.

(** Number of digits that [scan_id] counts in a name it lets through. *)
Lemma scan_id_count (z : string) : forall (i x r : Z),
  scan_id z i x = Some r -> x <= r.
Proof.
  induction z as [|c z IH]; intros i x r; cbn [scan_id].
  - intros [= <-]. lia.
  - destruct (negb (isalpha c) && negb (Ascii.eqb c "_"%char)).
    + destruct ((i >? 0) && isdigit c); [|discriminate].
      intros H. apply IH in H. lia.
    + apply IH.
Qed.

Lemma scan_id_safe (z : string) : forall (i x : Z),
  0 <= i ->
  (forall (k : nat) (c : ascii), String.get k z = Some c ->
     isalpha c = true \/ c = "_"%char \/
     (isdigit c = true /\ 0 < i + Z.of_nat k)) ->
  exists r, scan_id z i x = Some r.
Proof.
  induction z as [|c z IH]; intros i x Hi Hsafe; cbn [scan_id]; [eauto|].
  assert (forall (k : nat) (d : ascii), String.get k z = Some d ->
            isalpha d = true \/ d = "_"%char \/
            (isdigit d = true /\ 0 < i + 1 + Z.of_nat k)) as Htail.
  { intros k d Hd. destruct (Hsafe (S k) d Hd) as [H|[H|[H1 H2]]]; auto.
    right. right. split; [exact H1 | lia]. }
  destruct (Hsafe 0%nat c eq_refl) as [Ha|[->|[Hd Hpos]]].
  - rewrite Ha. cbn [negb andb]. apply IH; [lia | exact Htail].
  - change (Ascii.eqb "_" "_") with true. rewrite andb_false_r.
    apply IH; [lia | exact Htail].
  - rewrite Hd, andb_true_r. destruct (Z.gtb_spec i 0); [|lia].
    destruct (negb (isalpha c) && negb (Ascii.eqb c "_"%char));
      apply IH; (lia || exact Htail).
Qed.

(** A name made of letters, underscores and, after the first place, digits
    comes back unchanged unless it is a keyword. *)
Theorem safeId_keeps_plain_names (zId : string) :
  zId <> EmptyString ->
  (forall (k : nat) (c : ascii), String.get k zId = Some c ->
     isalpha c = true \/ c = "_"%char \/ (isdigit c = true /\ (0 < k)%nat)) ->
  (forall kw, In kw azKeywords -> stricmp kw zId <> 0) ->
  safeId zId = Some zId.
Proof.
  intros Hne Hsafe Hno. unfold safeId.
  destruct zId as [|h z]; [contradiction|].
  destruct (scan_id_safe (String h z) 0 0 ltac:(lia)) as [x Hx].
  { intros k c Hc. destruct (Hsafe k c Hc) as [H|[H|[H1 H2]]]; auto.
    right. right. split; [exact H1 | lia]. }
  rewrite Hx. destruct (negb (x =? 0)); [reflexivity|].
  rewrite keyword_search_absent by first [assumption | lia]. reflexivity.
Qed.

Lemma safeId_keeps_plain_names_witness :
  ("t1_data"%string <> EmptyString /\
   (forall (k : nat) (c : ascii), String.get k "t1_data" = Some c ->
      isalpha c = true \/ c = "_"%char \/ (isdigit c = true /\ (0 < k)%nat)) /\
   (forall kw, In kw azKeywords -> stricmp kw "t1_data" <> 0)) /\
  safeId "t1_data" = Some "t1_data"%string.
Proof.
  assert ("t1_data"%string <> EmptyString /\
          (forall (k : nat) (c : ascii), String.get k "t1_data" = Some c ->
             isalpha c = true \/ c = "_"%char \/
             (isdigit c = true /\ (0 < k)%nat)) /\
          (forall kw, In kw azKeywords -> stricmp kw "t1_data" <> 0)) as H.
  { split; [discriminate|]. split.
    - intros k c.
      do 7 (destruct k as [|k];
            [intros [= <-]; vm_compute; first [now left | right; now left
                                               | right; right; split;
                                                 [reflexivity | lia]]|]).
      discriminate.
    - intros kw Hin.
      assert (forallb (fun k => negb (stricmp k "t1_data" =? 0)) azKeywords
              = true) as Hall by (vm_compute; reflexivity).
      rewrite forallb_forall in Hall. specialize (Hall kw Hin).
      destruct (Z.eqb_spec (stricmp kw "t1_data") 0); [discriminate | assumption]. }
  split; [exact H|].
  destruct H as (H1 & H2 & H3).
  exact (safeId_keeps_plain_names "t1_data" H1 H2 H3).
Defined.

(** [safeId] always returns, and it returns either the name as it is or
    the name between double quotes with the double quotes inside doubled;
    the empty name comes back as a pair of double quotes. *)
Theorem safeId_returns_name_or_quoted (zId : string) :
  exists r : string,
    safeId zId = Some r /\ (r = zId \/ r = quote_w zId) /\
    (zId = EmptyString -> r = quote_w zId).
Proof.
  unfold safeId. destruct zId as [|h z].
  - exists (quote_w EmptyString). split; [reflexivity|]. split; [now right | auto].
  - destruct (scan_id (String h z) 0 0) as [x|].
    + destruct (negb (x =? 0)).
      * exists (String h z). split; [reflexivity|]. split; [now left | discriminate].
      * destruct (keyword_search_total (length azKeywords) (String h z) 0
                    (Z.of_nat (length azKeywords) - 1) ltac:(lia)) as [f Hf].
        rewrite Hf. cbn [bind].
        exists (if f then quote_w (String h z) else String h z).
        split; [reflexivity|]. split; [destruct f; auto | discriminate].
    + exists (quote_w (String h z)). split; [reflexivity|].
      split; [now right | discriminate].
Qed.

(** [safeId] does not recognise a name it has quoted: given the quoted
    form of any name it quotes once more, which doubles the double quotes
    that the first call put around the name. *)
Theorem safeId_requotes_quoted_names (zId : string) :
  safeId (quote_w zId) = Some (quote_w (quote_w zId)) /\
  chars (quote_w (quote_w zId))
  = [dquote; dquote; dquote]
    ++ flat_map (fun d => if Ascii.eqb d dquote then [d; d; d; d] else [d])
         (chars zId)
    ++ [dquote; dquote; dquote].
Proof.
  split.
  - unfold safeId, quote_w at 1. cbn iota.
    rewrite (scan_id_unsafe _ 0 dquote 0 0);
      [reflexivity | reflexivity | reflexivity | discriminate | now left | lia].
  - rewrite !quote_w_chars. cbn [app flat_map].
    change (Ascii.eqb dquote dquote) with true. cbn iota.
    rewrite !flat_map_app. cbn [flat_map app].
    change (Ascii.eqb dquote dquote) with true. cbn iota. cbn [app].
    do 3 f_equal. rewrite <- app_assoc. cbn [app]. f_equal.
    induction (chars zId) as [|c l IH]; [reflexivity|].
    cbn [flat_map]. destruct (Ascii.eqb c dquote) eqn:E.
    + cbn [flat_map app]. rewrite E. cbn [app]. now rewrite IH.
    + cbn [flat_map app]. rewrite E. cbn [app]. now rewrite IH.
Qed.

(** ** Lines written by a pass, read back by [local_getline] *)

(** The flag [inQuote] of [local_getline] after the characters of [z]. *)
Fixpoint quote_state (z : string) (inQuote : bool) : bool :=
  match z with
  | EmptyString => inQuote
  | String c z' =>
      quote_state z' (if Ascii.eqb c dquote then negb inQuote else inQuote)
  end.

(** A line as the emitters write one statement: no newline and no NUL
    inside, an even number of double quotes, no carriage return at the
    end, and short enough for the [int] that sizes the buffer. *)
Definition statement_line (l : string) : Prop :=
  ~ In newline (chars l) /\
  ~ In nul (chars l) /\
  quote_state l false = false /\
  List.last (chars l) newline <> carriage_return /\
  Z.of_nat (String.length l) < 1000000000.

Lemma strip_eol_cons (l : string) : forall c : ascii,
  List.last (c :: chars l) newline <> carriage_return ->
  strip_eol (String c (String.append l (String newline EmptyString)))
  = String c l.
Proof.
  induction l as [|d l IH]; intros c H.
  - cbn in H |- *.
    destruct (Ascii.eqb_spec c carriage_return); [contradiction | reflexivity].
  - specialize (IH d). cbn [String.append] in *.
    destruct (String.append l (String newline EmptyString)) as [|a z] eqn:E.
    + destruct l; discriminate E.
    + change (strip_eol (String c (String d (String a z))))
        with (String c (strip_eol (String d (String a z)))).
      rewrite IH; [reflexivity|]. exact H.
Qed.

Lemma strip_eol_line (l : string) :
  List.last (chars l) newline <> carriage_return ->
  strip_eol (String.append l (String newline EmptyString)) = l.
Proof.
  destruct l as [|c l]; [reflexivity|]. intros H. now apply strip_eol_cons.
Qed.

Lemma quote_state_append (a b : string) : forall q : bool,
  quote_state (String.append a b) q = quote_state b (quote_state a q).
Proof.
  induction a as [|c a IH]; intros q; [reflexivity|].
  cbn [String.append quote_state]. apply IH.
Qed.

(** On a chunk without NUL the scan counts every character. *)
Lemma scan_chunk_plain (z : string) : forall q : bool,
  ~ In nul (chars z) -> scan_chunk z q = (z, quote_state z q).
Proof.
  induction z as [|c z IH]; intros q Hz; [reflexivity|].
  cbn [scan_chunk quote_state]. cbn [chars] in Hz.
  destruct (Ascii.eqb_spec c nul) as [->|_]; [exfalso; apply Hz; now left|].
  rewrite IH by (intros Hin; apply Hz; now right). reflexivity.
Qed.

(** [fgets] on a text that starts with [a], without newline: it stops
    where the room ends or where the file ends. *)
Lemma fgets_plain (a : string) : forall (k : nat) (r : string),
  ~ In newline (chars a) -> (String.length a <= k)%nat ->
  String.length a = k \/ r = EmptyString ->
  fgets k (String.append a r) = (a, r).
Proof.
  induction a as [|c a IH]; intros k r Hnl Hk Hend.
  - cbn [String.append]. destruct Hend as [<-| ->]; [reflexivity|].
    destruct k; reflexivity.
  - cbn [String.length] in Hk, Hend. destruct k as [|k]; [lia|].
    cbn [String.append fgets]. cbn [chars] in Hnl.
    destruct (Ascii.eqb_spec c newline) as [->|_];
      [exfalso; apply Hnl; now left|].
    rewrite IH; [reflexivity | | lia |].
    + intros Hin. apply Hnl. now right.
    + destruct Hend as [E|E]; [left; lia | now right].
Qed.

(** [fgets] with room for the whole line stops after its newline. *)
Lemma fgets_line (l : string) : forall (k : nat) (rest : string),
  ~ In newline (chars l) -> (String.length l < k)%nat ->
  fgets k (String.append l (String newline rest))
  = (String.append l (String newline EmptyString), rest).
Proof.
  induction l as [|c l IH]; intros k rest Hnl Hk.
  - destruct k; [lia|]. cbn [String.append fgets].
    now rewrite Ascii.eqb_refl.
  - cbn [String.length] in Hk. destruct k as [|k]; [lia|].
    cbn [String.append fgets]. cbn [chars] in Hnl.
    destruct (Ascii.eqb_spec c newline) as [->|_];
      [exfalso; apply Hnl; now left|].
    rewrite IH; [reflexivity | | lia].
    intros Hin. apply Hnl. now right.
Qed.

Lemma string_cut (k : nat) : forall l : string,
  (k <= String.length l)%nat ->
  exists a b : string, l = String.append a b /\ String.length a = k.
Proof.
  induction k as [|k IH]; intros l Hk.
  - exists EmptyString, l. split; reflexivity.
  - destruct l as [|c l]; [cbn in Hk; lia|]. cbn [String.length] in Hk.
    destruct (IH l ltac:(lia)) as (a & b & -> & Ha).
    exists (String c a), b. split; [reflexivity | cbn; lia].
Qed.

Lemma last_plain (a : list ascii) : forall acc : list ascii,
  a <> [] -> ~ In newline a -> List.last (acc ++ a) nul <> newline.
Proof.
  intros acc Ha Hnl.
  destruct (exists_last Ha) as (a' & c & ->).
  rewrite app_assoc, List.last_last. intros ->. apply Hnl.
  apply in_or_app. right. now left.
Qed.

Lemma ends_line_plain (acc a : string) (q : bool) :
  a <> EmptyString -> ~ In newline (chars a) ->
  ends_line (String.append acc a) q = false.
Proof.
  intros Ha Hnl. unfold ends_line. rewrite chars_append.
  destruct (Ascii.eqb_spec (List.last (chars acc ++ chars a) nul) newline)
    as [E|_]; [|reflexivity].
  exfalso. revert E. apply last_plain; [|exact Hnl].
  destruct a; [contradiction | discriminate].
Qed.

(** Below some [2^30] characters the buffer size stays in range. *)
Lemma buffer_grows_small (zLine : string) (nLine : Z) :
  buffer_ok zLine nLine ->
  Z.of_nat (String.length zLine) < 1073741000 ->
  let n := Z.of_nat (String.length zLine) in
  let nLine' := if n + 100 >? nLine then int32 (nLine * 2 + 100) else nLine in
  (nLine' <? 0) = false /\ buffer_ok zLine nLine' /\ n + 100 <= nLine'.
Proof.
  intros Hok Hn n nLine'.
  destruct (buffer_grows zLine nLine Hok) as [Hneg|(Hm & Hr & Hroom)].
  - exfalso. fold n in Hneg. fold nLine' in Hneg. subst nLine'.
    destruct Hok as (_ & Hr & _).
    destruct (Z.gtb_spec (n + 100) nLine) as [Hg|Hg]; [|lia].
    unfold int32 in Hneg.
    rewrite (Z.mod_small (nLine * 2 + 100 + 2147483648)) in Hneg by lia. lia.
  - fold n in Hm, Hr, Hroom. fold nLine' in Hm, Hr, Hroom.
    split; [apply Z.ltb_ge; lia|]. split; [|exact Hroom].
    split; [exact Hm|]. split; [exact Hr|]. fold n. lia.
Qed.

(** One turn of the loop on a file that is not at its end. *)
Lemma read_line_turn (fuel : nat) (input zLine : string) (nLine : Z) (q : bool) :
  input <> EmptyString ->
  read_line (S fuel) input zLine nLine q
  = (let n := Z.of_nat (String.length zLine) in
     let nLine := if n + 100 >? nLine then int32 (nLine * 2 + 100) else nLine in
     if nLine <? 0 then Some None
     else
       let (chunk, rest) := fgets (Z.to_nat (nLine - n - 1)) input in
       let (seen, inQuote) := scan_chunk chunk q in
       if ends_line (String.append zLine seen) inQuote
       then Some (Some (strip_eol (String.append zLine seen), rest))
       else read_line fuel rest (String.append zLine seen) nLine inQuote).
Proof. destruct input; [contradiction | reflexivity]. Qed.

Lemma in_chars_append_l (c : ascii) (a b : string) :
  ~ In c (chars (String.append a b)) -> ~ In c (chars a).
Proof. rewrite chars_append. intros H Hin. apply H, in_or_app. now left. Qed.

Lemma in_chars_append_r (c : ascii) (a b : string) :
  ~ In c (chars (String.append a b)) -> ~ In c (chars b).
Proof. rewrite chars_append. intros H Hin. apply H, in_or_app. now right. Qed.

(** The loop on a line without newline and without NUL that leaves the
    quotes balanced: whatever the chunks it is read in, the line ends at
    its newline. *)
Lemma read_line_statement (m : nat) :
  forall (l acc rest : string) (nLine : Z) (q : bool) (fuel : nat),
  (String.length l <= m)%nat ->
  buffer_ok acc nLine ->
  ~ In newline (chars l) -> ~ In nul (chars l) -> quote_state l q = false ->
  Z.of_nat (String.length acc + String.length l) < 1073741000 ->
  (String.length l + String.length rest + 1 < fuel)%nat ->
  read_line fuel (String.append l (String newline rest)) acc nLine q
  = Some (Some (strip_eol (String.append acc
                             (String.append l (String newline EmptyString))),
                rest)).
Proof.
  induction m as [m IH] using lt_wf_ind.
  intros l acc rest nLine q fuel Hm Hok Hnl Hnul Hq Hlen Hfuel.
  destruct fuel as [|fuel]; [lia|].
  rewrite read_line_turn by (destruct l; discriminate). cbv zeta.
  destruct (buffer_grows_small acc nLine Hok ltac:(lia)) as (Hpos & Hok' & Hroom).
  rewrite Hpos.
  set (nLine' := if Z.of_nat (String.length acc) + 100 >? nLine
                 then int32 (nLine * 2 + 100) else nLine) in *.
  set (k := Z.to_nat (nLine' - Z.of_nat (String.length acc) - 1)).
  destruct (Nat.lt_ge_cases (String.length l) k) as [Hshort|Hlong].
  - rewrite fgets_line by assumption.
    rewrite scan_chunk_plain.
    + rewrite quote_state_append, Hq. cbn [quote_state].
      change (Ascii.eqb newline dquote) with false. cbn iota.
      unfold ends_line. rewrite !chars_append. cbn [chars].
      rewrite app_assoc, List.last_last, Ascii.eqb_refl. reflexivity.
    + rewrite chars_append. cbn [chars]. intros Hin.
      apply in_app_or in Hin as [Hin|[Hin|[]]]; [now apply Hnul | discriminate Hin].
  - destruct (string_cut k l Hlong) as (a & b & -> & Ha).
    rewrite string_length_append in *.
    rewrite !append_assoc.
    rewrite (fgets_plain a k) by
        (first [now apply in_chars_append_l in Hnl | lia | now left]).
    rewrite scan_chunk_plain by (now apply in_chars_append_l in Hnul).
    assert (a <> EmptyString) as Hne by (intros ->; cbn in Ha; lia).
    rewrite ends_line_plain by
        (first [exact Hne | now apply in_chars_append_l in Hnl]).
    rewrite (IH (String.length b)).
    + now rewrite !append_assoc.
    + destruct a; [contradiction | cbn [String.length] in *; lia].
    + lia.
    + destruct Hok' as (H1 & H2 & H3). split; [exact H1|]. split; [exact H2|].
      rewrite string_length_append. lia.
    + now apply in_chars_append_r in Hnl.
    + now apply in_chars_append_r in Hnul.
    + now rewrite quote_state_append in Hq.
    + rewrite string_length_append. lia.
    + destruct a; [contradiction | cbn [String.length] in *; lia].
Qed.

Lemma local_getline_statement (l rest : string) :
  statement_line l ->
  local_getline (String.append l (String newline rest)) = Some (l, rest).
Proof.
  intros (Hnl & Hnul & Hq & Hcr & Hlen). unfold local_getline.
  rewrite (read_line_statement (String.length l) l EmptyString rest 100 false
             _ (le_n _) buffer_start Hnl Hnul Hq).
  - cbn [String.append]. now rewrite strip_eol_line.
  - cbn [String.length]. lia.
  - rewrite string_length_append. cbn [String.length]. lia.
Qed.

(** What a pass writes line by line is what the replayer reads line by
    line: for statements with balanced double quotes, no newline and no
    NUL inside, no carriage return at the end and fewer than a thousand
    million characters, each followed by a newline, [local_getline]
    returns the statements one by one and then NULL. *)
Theorem statements_are_read_back (ls : list string) :
  Forall statement_line ls ->
  patch_lines (concat_text (map (fun l => String.append l nl) ls)) = ls.
Proof.
  unfold patch_lines. induction 1 as [|l ls Hl _ IH]; [reflexivity|].
  cbn [map concat_text fold_right].
  fold (concat_text (map (fun l => String.append l nl) ls)).
  set (rest := concat_text _) in *.
  unfold nl. change (ascii_of_nat 10) with newline.
  rewrite append_assoc. cbn [String.append].
  rewrite string_length_append. cbn [String.length].
  rewrite Nat.add_succ_r. cbn [lines_of].
  rewrite local_getline_statement by exact Hl. f_equal.
  rewrite <- IH. apply lines_of_fuel; lia.
Qed.

Lemma statements_are_read_back_witness :
  Forall statement_line
    ["UPDATE t SET b='y' WHERE a=1;"; "DELETE FROM t WHERE a=2;"]%string /\
  patch_lines
    (concat_text
       (map (fun l => String.append l nl)
          ["UPDATE t SET b='y' WHERE a=1;"; "DELETE FROM t WHERE a=2;"]%string))
  = ["UPDATE t SET b='y' WHERE a=1;"; "DELETE FROM t WHERE a=2;"]%string.
Proof.
  assert (forall l,
            (if in_dec Ascii.ascii_dec newline (chars l) then false else true)
            = true ->
            (if in_dec Ascii.ascii_dec nul (chars l) then false else true)
            = true ->
            quote_state l false = false ->
            Ascii.eqb (List.last (chars l) newline) carriage_return = false ->
            (Z.of_nat (String.length l) <? 1000000000) = true ->
            statement_line l) as Hdec.
  { intros l H1 H2 H3 H4 H5. split; [|split; [|split; [exact H3|split]]].
    - destruct (in_dec Ascii.ascii_dec newline (chars l));
        [discriminate | assumption].
    - destruct (in_dec Ascii.ascii_dec nul (chars l));
        [discriminate | assumption].
    - now apply Ascii.eqb_neq.
    - now apply Z.ltb_lt. }
  assert (Forall statement_line
            ["UPDATE t SET b='y' WHERE a=1;"; "DELETE FROM t WHERE a=2;"]%string)
    as H by (repeat constructor; apply Hdec; vm_compute; reflexivity).
  split; [exact H|]. exact (statements_are_read_back _ H).
Defined.

(** ** A pass and the replay that follows it *)

Lemma seek_append (a b : string) :
  seek (String.length a) (String.append a b) = b.
Proof. induction a as [|c a IH]; [reflexivity | exact IH]. Qed.

Lemma sqlDiff_null_plain_witness :
  (useTransaction g_default = 0 \/ neverUseTransaction g_default <> 0) /\
  Forall (fun t : string => (fun _ : string => EmptyString) t = EmptyString /\
                            (fun _ : string => EmptyString) t = EmptyString)
    ["t"%string] /\
  pass_ret (sqlDiff (fun _ => EmptyString) (fun _ => EmptyString) g_default
              ["t"%string] sample_time EmptyString) = -1.
Proof.
  assert (useTransaction g_default = 0 \/ neverUseTransaction g_default <> 0)
    as H1 by (now left).
  assert (Forall (fun t : string =>
                    (fun _ : string => EmptyString) t = EmptyString /\
                    (fun _ : string => EmptyString) t = EmptyString)
            ["t"%string]) as H2 by (repeat constructor).
  split; [exact H1|]. split; [exact H2|].
  exact (proj1 (sqlDiff_null_plain (fun _ => EmptyString) (fun _ => EmptyString)
                  g_default ["t"%string] sample_time EmptyString H1 H2)).
Defined.

Section PassAndReplay.

Variable DB : Type.
Variable sqlite3_exec : DB -> option string -> DB * Z * string.
Variable sqlite3_open : string -> Z * DB.
Variable sqlite3_errstr : Z -> string.
Variables diff_one_table rbudiff_one_table : string -> string.

(** [handle_events] hands the value that [sqlDiff] returns to [sqlPatch]
    as the offset to replay from.  Whenever that value is not [-1] it is
    the offset just after the header line of this pass, so the replay runs
    what this pass wrote after its header, and nothing that an earlier
    pass left in the patch file. *)
Theorem replay_starts_after_the_header (fuel : nat) (g : GlobalVars)
  (tables : list string) (zTime log dbName : string) (db : DB) :
  let p := sqlDiff diff_one_table rbudiff_one_table g tables zTime log in
  let written :=
    seek (String.length log + String.length zTime + 4) (pass_log p) in
  pass_ret p <> -1 ->
  sqlite3_open dbName = (SQLITE_OK, db) ->
  (String.length (pass_log p) < fuel)%nat ->
  pass_log p
  = String.append log
      (String.append "-- " (String.append zTime (String.append nl written))) /\
  sqlPatch DB sqlite3_exec sqlite3_open sqlite3_errstr fuel dbName
    (pass_log p) (pass_ret p)
  = Some (SQLITE_OK,
          fst (fold_left (exec_step DB sqlite3_exec)
                 (map Some (patch_lines written) ++ [None]) (db, [])),
          snd (fold_left (exec_step DB sqlite3_exec)
                 (map Some (patch_lines written) ++ [None]) (db, []))).
Proof.
  intros p written Hret Hopen Hfuel.
  set (header := String.append log
                   (String.append "-- " (String.append zTime nl))).
  assert (exists body, pass_log p = String.append header body) as [body Hlog].
  { subst p header. rewrite sqlDiff_log. unfold pass_text.
    eexists. rewrite ?append_assoc. reflexivity. }
  assert (String.length header
          = (String.length log + String.length zTime + 4)%nat) as Hlen.
  { subst header. rewrite !string_length_append. cbn [String.length nl]. lia. }
  assert (written = body) as Hw.
  { subst written. rewrite Hlog, <- Hlen. apply seek_append. }
  assert (pass_ret p = Z.of_nat (String.length header)) as Hpos.
  { revert Hret. subst p. unfold sqlDiff. cbn [pass_ret]. fold header.
    destruct (_ =? 0); [intros Hc; now contradiction Hc | reflexivity]. }
  split.
  - rewrite Hw, Hlog. subst header. rewrite !append_assoc. reflexivity.
  - unfold sqlPatch. rewrite Hopen.
    change (negb (SQLITE_OK =? SQLITE_OK)) with false. cbn iota.
    rewrite Hpos, Nat2Z.id, Hlog, seek_append, <- Hw.
    assert (String.length written <= String.length (pass_log p))%nat as Hle.
    { rewrite Hlog, string_length_append, Hw. lia. }
    rewrite replay_all by lia. cbn [bind].
    rewrite (lines_of_fuel fuel (String.length written) written) by lia.
    reflexivity.
Qed.

End PassAndReplay.

Lemma replay_starts_after_the_header_witness :
  (pass_ret (sqlDiff (fun _ => sample_statement) (fun _ => EmptyString)
               g_default ["t"%string] sample_time sample_patch) <> -1 /\
   (fun _ : string => (SQLITE_OK, 0%nat)) "backup/db"%string
   = (SQLITE_OK, 0%nat) /\
   (String.length
      (pass_log (sqlDiff (fun _ => sample_statement) (fun _ => EmptyString)
                   g_default ["t"%string] sample_time sample_patch))
    < 200)%nat) /\
  sqlPatch nat failing_exec (fun _ => (SQLITE_OK, 0%nat)) (fun _ => EmptyString)
    200 "backup/db"
    (pass_log (sqlDiff (fun _ => sample_statement) (fun _ => EmptyString)
                 g_default ["t"%string] sample_time sample_patch))
    (pass_ret (sqlDiff (fun _ => sample_statement) (fun _ => EmptyString)
                 g_default ["t"%string] sample_time sample_patch))
  = Some (SQLITE_OK, 1%nat, [String.append "sqlite3_exec: syntax error" nl]).
Proof.
  assert (pass_ret (sqlDiff (fun _ => sample_statement) (fun _ => EmptyString)
                      g_default ["t"%string] sample_time sample_patch) <> -1 /\
          (fun _ : string => (SQLITE_OK, 0%nat)) "backup/db"%string
          = (SQLITE_OK, 0%nat) /\
          (String.length
             (pass_log (sqlDiff (fun _ => sample_statement)
                          (fun _ => EmptyString)
                          g_default ["t"%string] sample_time sample_patch))
           < 200)%nat) as H
      by (split; [vm_compute; discriminate|];
          split; [reflexivity | vm_compute; lia]).
  split; [exact H|].
  destruct H as (H1 & H2 & H3).
  exact (proj2 (replay_starts_after_the_header nat failing_exec
                  (fun _ => (SQLITE_OK, 0%nat)) (fun _ => EmptyString)
                  (fun _ => sample_statement) (fun _ => EmptyString)
                  200 g_default ["t"%string] sample_time sample_patch
                  "backup/db" 0%nat H1 H2 H3)).
Defined.

(** ** What the command line can set *)

Section MainInvariants.

Variable strtol : string -> Z.

(** The tunables that the option loop can reach from [g]. *)
Definition tunables_ok (args : list string) (g : GlobalVars) : Prop :=
  (FSEvent g = IN_CLOSE_WRITE \/ FSEvent g = IN_MODIFY) /\
  nExt g = Z.of_nat (length (azExt g)) /\
  Forall (fun e => In e args) (azExt g) /\
  (bSchemaPK g = 0 \/ bSchemaPK g = 1) /\
  (rbuTable g = 0 \/ rbuTable g = 1) /\
  (verbose g = 0 \/ verbose g = 1) /\
  0 <= fDebug g < 4294967296.

Lemma parse_args_invariants (all : list string) (n : nat) :
  forall (args : list string) (g : GlobalVars) (dbPath : option string)
         (g' : GlobalVars) (p : string),
  (length args <= n)%nat ->
  (forall a, In a args -> In a all) ->
  tunables_ok all g ->
  (forall d, dbPath = Some d -> In d all /\ option_name d = None) ->
  parse_args strtol args g dbPath = Run g' p ->
  tunables_ok all g' /\ zArgv0 g' = zArgv0 g /\
  In p all /\ option_name p = None.
Proof.
  induction n as [|n IH]; intros args g dbPath g' p Hlen Hall Hg Hd.
  - destruct args; [|cbn in Hlen; lia]. cbn [parse_args].
    destruct dbPath as [d|]; [|discriminate]. intros [= <- <-].
    destruct (Hd d eq_refl). auto.
  - destruct args as [|a rest]; cbn [parse_args].
    { destruct dbPath as [d|]; [|discriminate]. intros [= <- <-].
      destruct (Hd d eq_refl). auto. }
    cbn [length] in Hlen.
    assert (forall x, In x rest -> In x all) as Hrest
        by (intros x Hx; apply Hall; now right).
    destruct Hg as (G1 & G2 & G3 & G4 & G5 & G6 & G7).
    assert (forall g0 d0, tunables_ok all g0 -> zArgv0 g0 = zArgv0 g ->
              (forall d, d0 = Some d -> In d all /\ option_name d = None) ->
              parse_args strtol rest g0 d0 = Run g' p ->
              tunables_ok all g' /\ zArgv0 g' = zArgv0 g /\
              In p all /\ option_name p = None) as Hnext.
    { intros g0 d0 Hg0 Hz Hd0 H.
      apply IH in H as (H1 & H2 & H3); auto; [|lia].
      rewrite Hz in H2. auto. }
    assert (forall v rest' g0, rest = v :: rest' ->
              tunables_ok all g0 -> zArgv0 g0 = zArgv0 g ->
              parse_args strtol rest' g0 dbPath = Run g' p ->
              tunables_ok all g' /\ zArgv0 g' = zArgv0 g /\
              In p all /\ option_name p = None) as Hskip.
    { intros v rest' g0 -> Hg0 Hz H. cbn [length] in Hlen.
      apply IH in H as (H1 & H2 & H3); auto; [|lia|].
      - rewrite Hz in H2. auto.
      - intros x Hx. apply Hrest. now right. }
    assert (tunables_ok all g) as Hg by (unfold tunables_ok; auto 10).
    destruct (option_name a) as [z|] eqn:Hopt.
    + destruct (String.eqb z "event").
      { destruct rest as [|v rest']; [discriminate|].
        destruct (String.eqb v "modify").
        - intros H. eapply Hskip; [reflexivity | | | exact H]; [|reflexivity].
          unfold tunables_ok. cbn [FSEvent nExt azExt bSchemaPK rbuTable
                                   verbose fDebug]. auto 10.
        - destruct (String.eqb v "close_write"); [|discriminate].
          intros H. eapply Hskip; [reflexivity | | | exact H]; auto. }
      destruct (String.eqb z "debug").
      { destruct rest as [|v rest']; [discriminate|].
        intros H. eapply Hskip; [reflexivity | | | exact H]; [|reflexivity].
        unfold tunables_ok. cbn [FSEvent nExt azExt bSchemaPK rbuTable
                                 verbose fDebug].
        pose proof (u32_range (strtol v)). auto 10. }
      destruct (String.eqb z "help"); [discriminate|].
      destruct (String.eqb z "lib" || String.eqb z "L").
      { destruct rest as [|v rest']; [discriminate|].
        intros H. eapply Hskip; [reflexivity | | | exact H]; [|reflexivity].
        unfold tunables_ok. cbn [FSEvent nExt azExt bSchemaPK rbuTable
                                 verbose fDebug].
        assert (nExt g + 1 = Z.of_nat (length (azExt g ++ [v]))) as E
            by (rewrite length_app; cbn [length]; lia).
        assert (Forall (fun e => In e all) (azExt g ++ [v])) as F.
        { apply Forall_app. split; [exact G3|].
          constructor; [|constructor]. apply Hrest. now left. }
        auto 10. }
      destruct (String.eqb z "primarykey").
      { intros H. eapply Hnext; [| | exact Hd | exact H]; [|reflexivity].
        unfold tunables_ok. cbn [FSEvent nExt azExt bSchemaPK rbuTable
                                 verbose fDebug]. auto 10. }
      destruct (String.eqb z "rbu").
      { intros H. eapply Hnext; [| | exact Hd | exact H]; [|reflexivity].
        unfold tunables_ok. cbn [FSEvent nExt azExt bSchemaPK rbuTable
                                 verbose fDebug]. auto 10. }
      destruct (String.eqb z "transaction").
      { intros H. eapply Hnext; [| | exact Hd | exact H]; [|reflexivity].
        unfold tunables_ok. cbn [FSEvent nExt azExt bSchemaPK rbuTable
                                 verbose fDebug]. auto 10. }
      destruct (String.eqb z "verbose" || String.eqb z "v"); [|discriminate].
      intros H. eapply Hnext; [| | exact Hd | exact H]; [|reflexivity].
      unfold tunables_ok. cbn [FSEvent nExt azExt bSchemaPK rbuTable
                               verbose fDebug]. auto 10.
    + destruct dbPath as [d|]; [discriminate|].
      intros H. eapply Hnext; [exact Hg | reflexivity | | exact H].
      intros d [= <-]. split; [apply Hall; now left | exact Hopt].
Qed.

End MainInvariants.

(** When [main] gets as far as the watch loop, the directory to watch is
    one of the arguments and does not begin with a dash, the event mask is
    [IN_CLOSE_WRITE] or [IN_MODIFY], the flags [bSchemaPK], [rbuTable] and
    [verbose] are 0 or 1, and [nExt] counts the extension libraries, each
    of them an argument. *)
Theorem main_sets_valid_tunables (strtol : string -> Z) (argv : list string)
  (g : GlobalVars) (path : string) :
  main strtol argv = Run g path ->
  In path (tl argv) /\ option_name path = None /\
  zArgv0 g = hd EmptyString argv /\
  (FSEvent g = IN_CLOSE_WRITE \/ FSEvent g = IN_MODIFY) /\
  nExt g = Z.of_nat (length (azExt g)) /\
  Forall (fun e => In e (tl argv)) (azExt g) /\
  (bSchemaPK g = 0 \/ bSchemaPK g = 1) /\
  (rbuTable g = 0 \/ rbuTable g = 1) /\
  (verbose g = 0 \/ verbose g = 1).
Proof.
  unfold main. intros H.
  apply (parse_args_invariants strtol (tl argv) (length (tl argv))) in H.
  - destruct H as ((G1 & G2 & G3 & G4 & G5 & G6 & _) & Hz & Hp & Ho).
    cbn [zArgv0] in Hz. repeat split; auto.
  - lia.
  - auto.
  - unfold tunables_ok. cbn. repeat split; auto; lia.
  - discriminate.
Qed.

Lemma main_sets_valid_tunables_witness :
  main (fun _ => 0) ["repqlite"; "-L"; "./ext.so"; "--event"; "modify";
                     "/srv/db"]%string
  = Run (mk_GlobalVars "repqlite" 0 0 IN_MODIFY 0 0 0 1 ["./ext.so"%string] 0)
      "/srv/db" /\
  In "/srv/db"%string
    (tl ["repqlite"; "-L"; "./ext.so"; "--event"; "modify"; "/srv/db"]%string).
Proof.
  assert (main (fun _ => 0) ["repqlite"; "-L"; "./ext.so"; "--event"; "modify";
                             "/srv/db"]%string
          = Run (mk_GlobalVars "repqlite" 0 0 IN_MODIFY 0 0 0 1
                   ["./ext.so"%string] 0) "/srv/db") as H by reflexivity.
  split; [exact H|].
  exact (proj1 (main_sets_valid_tunables _ _ _ _ H)).
Defined.

(** ** Literals written by [printQuoted] *)

Lemma escape_q_inj (a : string) : forall b : string,
  ~ In nul (chars a) -> ~ In nul (chars b) ->
  String.append (escape_q a) "'" = String.append (escape_q b) "'" -> a = b.
Proof.
  induction a as [|c a IH]; intros [|d b] Ha Hb; cbn [escape_q String.append];
    cbn [chars] in Ha, Hb.
  - reflexivity.
  - destruct (Ascii.eqb_spec d nul) as [->|_]; [exfalso; apply Hb; now left|].
    destruct (Ascii.eqb_spec d "'"%char) as [->|Hd]; cbn [String.append].
    + discriminate.
    + intros [= E _]. now contradiction Hd.
  - destruct (Ascii.eqb_spec c nul) as [->|_]; [exfalso; apply Ha; now left|].
    destruct (Ascii.eqb_spec c "'"%char) as [->|Hc]; cbn [String.append].
    + discriminate.
    + intros [= E _]. now contradiction Hc.
  - destruct (Ascii.eqb_spec c nul) as [->|_]; [exfalso; apply Ha; now left|].
    destruct (Ascii.eqb_spec d nul) as [->|_]; [exfalso; apply Hb; now left|].
    assert (~ In nul (chars a)) as Ha' by (intros H; apply Ha; now right).
    assert (~ In nul (chars b)) as Hb' by (intros H; apply Hb; now right).
    destruct (Ascii.eqb_spec c "'"%char) as [->|Hc];
      destruct (Ascii.eqb_spec d "'"%char) as [->|Hd]; cbn [String.append].
    + intros [= E]. f_equal. now apply IH.
    + intros [= E _]. now contradiction Hd.
    + intros [= E _]. now contradiction Hc.
    + intros [= -> E]. f_equal. now apply IH.
Qed.

Lemma hex_digit_inj (n m : Z) :
  0 <= n < 16 -> 0 <= m < 16 -> hex_digit n = hex_digit m -> n = m.
Proof.
  intros Hn Hm H. unfold hex_digit in H.
  assert (List.NoDup (chars "0123456789abcdef")) as Hnd.
  { repeat (constructor; [cbn; intuition discriminate|]). constructor. }
  assert (Z.to_nat n = Z.to_nat m) as E.
  { eapply (proj1 (List.NoDup_nth _ "0"%char) Hnd); [cbn; lia | cbn; lia | exact H]. }
  lia.
Qed.

Lemma u8_inj (a b : byte) : u8 a = u8 b -> a = b.
Proof.
  unfold u8. intros H. apply N2Z.inj in H.
  assert (Byte.of_N (Byte.to_N a) = Byte.of_N (Byte.to_N b)) as E
      by now rewrite H.
  rewrite !Byte.of_to_N in E. now injection E.
Qed.

Lemma hex_byte_inj (a b : byte) : hex_byte a = hex_byte b -> a = b.
Proof.
  unfold hex_byte. intros [= H1 H2].
  pose proof (u8_range a) as Ha. pose proof (u8_range b) as Hb.
  apply hex_digit_inj in H1; [|Z.div_mod_to_equations; lia ..].
  apply hex_digit_inj in H2; [|Z.div_mod_to_equations; lia ..].
  apply u8_inj. revert H1 H2. Z.div_mod_to_equations. lia.
Qed.

Lemma hex_bytes_inj (a : list byte) : forall b : list byte,
  String.append (concat_text (map hex_byte a)) "'"
  = String.append (concat_text (map hex_byte b)) "'" -> a = b.
Proof.
  induction a as [|x a IH]; intros [|y b];
    cbn [map concat_text fold_right hex_byte String.append].
  - reflexivity.
  - discriminate.
  - discriminate.
  - intros [= E1 E2 E3]. f_equal.
    + apply hex_byte_inj. unfold hex_byte. now rewrite E1, E2.
    + apply IH, E3.
Qed.

Lemma hex_text_inj (a b : list byte) : hex_text a = hex_text b -> a = b.
Proof.
  unfold hex_text. intros H. apply hex_bytes_inj.
  remember (String.append (concat_text (map hex_byte a)) "'") as ta.
  remember (String.append (concat_text (map hex_byte b)) "'") as tb.
  cbn [String.append] in H. now injection H.
Qed.

(** A decimal numeral begins with a digit or with the minus sign. *)
Lemma int_text_head (i : Z) :
  exists (c : ascii) (rest : string),
    NilZero.string_of_int (Z.to_int i) = String c rest /\
    (c = "-"%char \/ isdigit c = true).
Proof.
  assert (forall p, exists c rest,
            NilZero.string_of_uint (Pos.to_uint p) = String c rest /\
            isdigit c = true) as Hpos.
  { intros p. pose proof (DecimalPos.Unsigned.to_uint_nonnil p) as Hn.
    destruct (Pos.to_uint p); [contradiction| ..];
      cbn [NilZero.string_of_uint NilEmpty.string_of_uint];
      eexists _, _; (split; [reflexivity | reflexivity]). }
  destruct i as [|p|p]; cbn [Z.to_int NilZero.string_of_int].
  - exists "0"%char, EmptyString. split; [reflexivity | now right].
  - destruct (Hpos p) as (c & rest & E & Hc). exists c, rest. auto.
  - exists "-"%char, (NilZero.string_of_uint (Pos.to_uint p)).
    split; [reflexivity | now left].
Qed.

Lemma int_text_inj (i j : Z) :
  NilZero.string_of_int (Z.to_int i) = NilZero.string_of_int (Z.to_int j) ->
  i = j.
Proof.
  assert (forall k, Z.to_int k <> Decimal.Pos Decimal.Nil /\
                    Z.to_int k <> Decimal.Neg Decimal.Nil) as Hnil.
  { intros [|p|p]; cbn [Z.to_int]; split; try discriminate;
      intros [= E]; now apply DecimalPos.Unsigned.to_uint_nonnil in E. }
  intros H. apply (f_equal NilZero.int_of_string) in H.
  rewrite !NilZero.isi in H by apply Hnil. injection H as H.
  apply (f_equal Z.of_int) in H. now rewrite !DecimalZ.of_to in H.
Qed.

Section Literals.

Variable snprintf_15g : Z -> string.

(** A TEXT is written up to its first NUL, so only a TEXT without NUL can
    be told from its literal. *)
Definition whole_text (X : value) : Prop :=
  match X with
  | VText z => ~ In nul (chars z)
  | _ => True
  end.

(** Two values that are not floating point numbers, whose TEXT holds no
    NUL, and that [printQuoted] writes as the same literal are the same
    value, with one exception: a BLOB of no bytes is written as [NULL],
    like the NULL value. *)
Theorem printQuoted_tells_values_apart (X Y : value) :
  (forall r, X <> VFloat r) -> (forall r, Y <> VFloat r) ->
  whole_text X -> whole_text Y ->
  printQuoted snprintf_15g X = printQuoted snprintf_15g Y ->
  X = Y \/
  ((X = VNull \/ X = VBlob []) /\ (Y = VNull \/ Y = VBlob [])).
Proof.
  intros HX HY TX TY.
  assert (forall i s, NilZero.string_of_int (Z.to_int i) = s ->
            forall c rest, s = String c rest ->
            c <> "-"%char -> isdigit c = false -> False) as Hint.
  { intros i s <- c rest E Hm Hd.
    destruct (int_text_head i) as (c' & rest' & E' & Hc').
    rewrite E' in E. injection E as E1 E2. subst c'.
    destruct Hc' as [Hc'|Hc']; [now apply Hm | congruence]. }
  destruct X as [|i|r|a|a]; [| |now contradiction (HX r)| |];
    (destruct Y as [|j|r|b|b]; [| |now contradiction (HY r)| |]);
    cbn [printQuoted].
  - auto.
  - intros H. exfalso. symmetry in H.
    apply (Hint j _ H "N"%char "ULL"%string); (reflexivity || discriminate).
  - discriminate.
  - destruct b as [|y b]; [auto | discriminate].
  - intros H. exfalso.
    apply (Hint i _ H "N"%char "ULL"%string); (reflexivity || discriminate).
  - intros H. left. f_equal. apply int_text_inj, H.
  - intros H. exfalso. eapply (Hint i _ H "'"%char); (reflexivity || discriminate).
  - intros H. exfalso. destruct b as [|y b].
    + apply (Hint i _ H "N"%char "ULL"%string); (reflexivity || discriminate).
    + eapply (Hint i _ H "x"%char); (reflexivity || discriminate).
  - discriminate.
  - intros H. exfalso. symmetry in H.
    eapply (Hint j _ H "'"%char); (reflexivity || discriminate).
  - cbn [String.append]. intros [= H]. left. f_equal.
    now apply escape_q_inj.
  - destruct b as [|y b]; discriminate.
  - destruct a as [|x a]; [auto | discriminate].
  - intros H. exfalso. symmetry in H. destruct a as [|x a].
    + apply (Hint j _ H "N"%char "ULL"%string); (reflexivity || discriminate).
    + eapply (Hint j _ H "x"%char); (reflexivity || discriminate).
  - destruct a as [|x a]; discriminate.
  - destruct a as [|x a], b as [|y b]; try discriminate; [auto|].
    intros H. left. f_equal. apply hex_text_inj, H.
Qed.

End Literals.

Lemma printQuoted_tells_values_apart_witness :
  ((forall r, VText "it's" <> VFloat r) /\ (forall r, VText "it's" <> VFloat r) /\
   whole_text (VText "it's") /\ whole_text (VText "it's") /\
   printQuoted (fun _ => EmptyString) (VText "it's")
   = printQuoted (fun _ => EmptyString) (VText "it's")) /\
  (VText "it's" = VText "it's" \/
   ((VText "it's" = VNull \/ VText "it's" = VBlob []) /\
    (VText "it's" = VNull \/ VText "it's" = VBlob []))).
Proof.
  assert (whole_text (VText "it's")) as HT
      by (cbn; intuition discriminate).
  assert ((forall r, VText "it's" <> VFloat r) /\
          (forall r, VText "it's" <> VFloat r) /\
          whole_text (VText "it's") /\ whole_text (VText "it's") /\
          printQuoted (fun _ => EmptyString) (VText "it's")
          = printQuoted (fun _ => EmptyString) (VText "it's")) as H
      by (split; [discriminate|]; split; [discriminate|];
          split; [exact HT|]; split; [exact HT | reflexivity]).
  split; [exact H|].
  destruct H as (H1 & H2 & H3 & H4 & H5).
  exact (printQuoted_tells_values_apart (fun _ => EmptyString) _ _
           H1 H2 H3 H4 H5).
Defined.

(** ** The RBU emitter: what a delta field holds *)

(** A delta that the encoder returns for a source of at most sixteen
    bytes is longer than the target. *)
Lemma short_source_delta (cs : bool) (fuel : nat) (zSrc zOut d : list byte) :
  len zSrc <= NHASH -> rbuDeltaCreate cs fuel zSrc zOut = Some d ->
  len zOut + 6 <= len d.
Proof.
  intros Hsrc. unfold rbuDeltaCreate.
  destruct (Z.leb_spec (len zSrc) NHASH) as [_|Hgt]; [|lia].
  intros H. apply bind_Some in H as (hdr & Hh & H).
  apply bind_Some in H as (n & Hn & H).
  apply bind_Some in H as (c & Hc & [= <-]).
  apply putInt_b64 in Hh, Hn, Hc. subst.
  unfold len. repeat (rewrite length_app || rewrite length_cons).
  pose proof (b64_length_le (len zOut)).
  pose proof (b64_length_le (checksum zOut)). unfold len in *. lia.
Qed.

(** A delta that the encoder returns decodes to the target. *)
Lemma delta_decodes (cs : bool) (fuel : nat) (zSrc zOut d : list byte) :
  len zSrc < 2147483648 -> len zOut < 2147483648 ->
  rbuDeltaCreate cs fuel zSrc zOut = Some d ->
  delta_apply zSrc d = Some (zOut, checksum zOut).
Proof.
  intros Hsrc Hout H.
  destruct (rbuDeltaCreate_shape cs fuel zSrc zOut Hsrc Hout d H)
    as (cmds & -> & Hok & Hi & _).
  pose proof (delta_apply_rendered zSrc cmds (len zOut) (checksum zOut) Hok)
    as Hr.
  rewrite Hi in Hr. apply Hr.
  - pose proof (len_nonneg zOut). lia.
  - apply checksum_range.
  - reflexivity.
Qed.

(** Length of a BLOB cell, as [sqlite3_column_bytes] reports it. *)
Definition cell_bytes (v : value) : Z :=
  match v with
  | VBlob b => len b
  | _ => 0
  end.

Section RbuDeltas.

Variable snprintf_15g : Z -> string.
Variable sql_is : value -> value -> bool.
Variable char_signed : bool.
Variable fuel : nat.

(** In an update row, a field written as a delta stands for a column
    outside the key whose new and old values are both BLOBs; the delta is
    shorter than the new BLOB, the old BLOB has more than sixteen bytes,
    and the delta applied to the old BLOB gives the new one. *)
Theorem rbu_delta_fields_decode (nPK : nat) (bOtaRowid : bool)
  (n o : list value) (fs : list field) (ctl : list ascii)
  (j : nat) (d : list byte) :
  length n = length o ->
  Forall (fun v => cell_bytes v < 2147483648) n ->
  Forall (fun v => cell_bytes v < 2147483648) o ->
  rbu_update_values char_signed fuel
    (update_row sql_is nPK bOtaRowid n o) (Z.of_nat (length n))
    (Z.of_nat nPK) (if bOtaRowid then 1 else 0) = Some (fs, ctl) ->
  fs !! j = Some (FDelta d) ->
  exists aNew aOld : list byte,
    n !! j = Some (VBlob aNew) /\ o !! j = Some (VBlob aOld) /\
    (nPK <= j)%nat /\
    len d < len aNew /\ NHASH < len aOld /\
    delta_apply aOld d = Some (aNew, checksum aNew).
Proof.
  intros Hlen Hn Ho Hrow Hj. unfold rbu_update_values in Hrow.
  destruct (column _ (Z.of_nat (length n))) as [| | |z|]; try discriminate Hrow.
  pose proof (rbu_columns_post char_signed fuel _ _ _ _ _ _ _ _ _ Hrow)
    as (_ & Hfs & _).
  assert (j < length n)%nat as Hjn
      by (apply lookup_lt_Some in Hj; lia).
  destruct (rbu_columns_deltas char_signed fuel _ _ _ _ _ _ _ _ _ _ _ Hrow Hj)
    as (aFinal & aSrc & H1 & H2 & H3 & H4 & H5).
  rewrite Z.add_0_l in H1, H2, H3.
  destruct (lookup_lt_is_Some_2 n j Hjn) as [x Hx].
  destruct (lookup_lt_is_Some_2 o j ltac:(lia)) as [y Hy].
  destruct (update_row_cells sql_is nPK bOtaRowid n o j x y Hlen ltac:(lia)
              Hx Hy) as [C1 C2].
  rewrite H1 in C1. rewrite H2 in C2.
  destruct (sql_is x y); [discriminate C1|]. subst x y.
  exists aFinal, aSrc.
  split; [exact Hx|]. split; [exact Hy|]. split; [lia|]. split; [exact H5|].
  split.
  - destruct (Z.ltb_spec NHASH (len aSrc)) as [|Hshort]; [assumption|].
    pose proof (short_source_delta _ _ _ _ _ Hshort H4). lia.
  - apply (delta_decodes char_signed fuel); [| |exact H4].
    + rewrite Forall_forall in Ho.
      apply (Ho (VBlob aSrc)), list_elem_of_lookup. now exists j.
    + rewrite Forall_forall in Hn.
      apply (Hn (VBlob aFinal)), list_elem_of_lookup. now exists j.
Qed.

End RbuDeltas.

(** The delta of scenario S5. *)
Definition delta_S5 : list byte :=
  match fields_S5 with
  | [_; FDelta d] => d
  | _ => []
  end.

Lemma rbu_delta_fields_decode_witness :
  exists aNew aOld : list byte,
    [VInt 1; VBlob blob_S5_new] !! 1%nat = Some (VBlob aNew) /\
    [VInt 1; VBlob blob_S5_old] !! 1%nat = Some (VBlob aOld) /\
    (1 <= 1)%nat /\
    len delta_S5 < len aNew /\ NHASH < len aOld /\
    delta_apply aOld delta_S5 = Some (aNew, checksum aNew).
Proof.
  apply (rbu_delta_fields_decode sample_is true 600 1 false
           [VInt 1; VBlob blob_S5_new] [VInt 1; VBlob blob_S5_old]
           fields_S5 control_S5 1 delta_S5).
  - reflexivity.
  - repeat constructor; vm_compute; reflexivity.
  - repeat constructor; vm_compute; reflexivity.
  - vm_compute. reflexivity.
  - vm_compute. reflexivity.
Defined.

(** ** The column list [columnNames] *)

Lemma safeId_total (zId : string) : exists r, safeId zId = Some r.
Proof.
  unfold safeId. destruct zId as [|h z]; [eauto|].
  destruct (scan_id (String h z) 0 0) as [x|]; [|eauto].
  destruct (negb (x =? 0)); [eauto|].
  destruct (keyword_search_total (length azKeywords) (String h z) 0
              (Z.of_nat (length azKeywords) - 1) ltac:(lia)) as [f Hf].
  rewrite Hf. cbn [bind]. eauto.
Qed.

(** The three names of the implicit rowid. *)
Definition azRowid : list string := ["rowid"; "_rowid_"; "oid"]%string.

Section ColumnNames.

(** What SQLite answers for the table at hand:
    - [PRAGMA index_list]: per index its name (column 1) and its origin
      (column 3);
    - [PRAGMA index_xinfo] of a named index: per index column the rank of
      the table column (column 1, negative for the rowid) and the key flag
      (column 5);
    - [PRAGMA table_info]: per column its name (column 1) and its rank in
      the declared primary key (column 5, zero outside the key). *)
Variable index_list : list (string * string).
Variable index_xinfo : string -> list (Z * Z).
Variable table_info : list (string * Z).

(** The first loop: the name of the index whose origin is ["pk"]. *)
Fixpoint find_pk_index (rows : list (string * string)) : option string :=
  match rows with
  | [] => None
  | (zName, zOrigin) :: rest =>
      if stricmp zOrigin "pk" =? 0 then Some zName else find_pk_index rest
  end.

(** The loop over the columns of that index: [nCol], [nKey], [truePk]. *)
Fixpoint xinfo_scan (rows : list (Z * Z)) (nCol nKey truePk : Z) : Z * Z * Z :=
  match rows with
  | [] => (nCol, nKey, truePk)
  | (cid, key) :: rest =>
      if negb (key =? 0) then xinfo_scan rest (nCol + 1) (nKey + 1) truePk
      else xinfo_scan rest (nCol + 1) nKey (if cid >=? 0 then 1 else truePk)
  end.

(** [nPK] and [truePk] as they stand before the column list is built. *)
Definition pk_count (bSchemaPK : Z) : Z * Z :=
  if bSchemaPK =? 0 then
    match find_pk_index index_list with
    | Some zPkIdxName =>
        let '(nCol, nKey, truePk) := xinfo_scan (index_xinfo zPkIdxName) 0 0 0 in
        let truePk := if nCol =? nKey then 1 else truePk in
        (if negb (truePk =? 0) then nKey else 1, truePk)
    | None => (1, 1)
    end
  else
    let nPK := Z.of_nat (length (List.filter (fun r => snd r >? 0) table_info)) in
    (if nPK =? 0 then 1 else nPK, 1).

(** The loop over the rows of [table_info].  [az] holds the entries
    [az[0 .. naz - 1]], [None] for a NULL pointer.  The array has one more
    slot, for the terminator: a key column sent to that slot is written
    over by the next data column or by the terminator, and one sent
    beyond it is outside the allocation, for which there is no result. *)
Fixpoint fill (rows : list (string * Z)) (truePk : Z) (az : list (option string))
  : option (list (option string)) :=
  match rows with
  | [] => Some az
  | (zName, iPKey) :: rest =>
      zId <- safeId zName ;;
      if negb (truePk =? 0) && (iPKey >? 0) then
        if iPKey - 1 <? Z.of_nat (length az)
        then fill rest truePk (<[Z.to_nat (iPKey - 1) := Some zId]> az)
        else if iPKey - 1 =? Z.of_nat (length az) then fill rest truePk az
        else None
      else fill rest truePk (az ++ [Some zId])
  end.

(** [for (j = 1; j < naz; j++) if (sqlite3_stricmp (az[j], zRowid) == 0)
    break;] followed by the test [j >= naz], negated. *)
Definition name_taken (az : list (option string)) (zRowid : string) : bool :=
  existsb (fun e => match e with
                    | Some z => stricmp z zRowid =? 0
                    | None => false
                    end) (tl az).

(** The loop over [azRowid]: the first name that no column bears. *)
Fixpoint pick_rowid (names : list string) (az : list (option string))
  : option string :=
  match names with
  | [] => None
  | zRowid :: rest =>
      if name_taken az zRowid then pick_rowid rest az else Some zRowid
  end.

(** [columnNames (zDb, zTab, &nPKey, &bRowid)]: the list returned ([None]
    for a NULL pointer), [*pnPKey] and [*pbRowid].  With no entry at all
    the name of the rowid would take the slot of the terminator; there is
    no result for that. *)
Definition columnNames (bSchemaPK : Z)
  : option (option (list (option string)) * Z * bool) :=
  let (nPK, truePk) := pk_count bSchemaPK in
  az <- fill table_info truePk (replicate (Z.to_nat nPK) None) ;;
  match az with
  | [] => None
  | None :: data =>
      match pick_rowid azRowid az with
      | Some zRowid => Some (Some (Some zRowid :: data), nPK, true)
      | None => Some (None, nPK, true)
      end
  | Some _ :: _ => Some (Some az, nPK, false)
  end.

(** *** Facts *)

(** The slots of the key after the rows, and the slots added for the
    other columns. *)
Definition key_slots (rows : list (string * Z)) (a : list (option string))
  : list (option string) :=
  fold_left (fun a r => if snd r >? 0
                        then <[Z.to_nat (snd r - 1) := safeId (fst r)]> a
                        else a) rows a.

Definition data_slots (rows : list (string * Z)) : list (option string) :=
  map (fun r => safeId (fst r)) (List.filter (fun r => negb (snd r >? 0)) rows).

Lemma key_slots_length (rows : list (string * Z)) :
  forall a, length (key_slots rows a) = length a.
Proof.
  induction rows as [|r rows IH]; intros a; cbn [key_slots fold_left];
    [reflexivity|].
  fold (key_slots rows). rewrite IH. destruct (snd r >? 0); [|reflexivity].
  apply length_insert.
Qed.

Lemma fill_keyed (truePk : Z) (rows : list (string * Z)) :
  forall a b : list (option string),
  truePk <> 0 ->
  (forall r, In r rows -> 0 < snd r -> snd r <= Z.of_nat (length a)) ->
  fill rows truePk (a ++ b)
  = Some (key_slots rows a ++ b ++ data_slots rows).
Proof.
  unfold data_slots.
  induction rows as [|[zName iPKey] rows IH]; intros a b Ht Hpk.
  - cbn. now rewrite app_nil_r.
  - cbn [fill]. destruct (safeId_total zName) as [zId Hz]. rewrite Hz.
    cbn [bind]. destruct (Z.eqb_spec truePk 0) as [|_]; [contradiction|].
    cbn [negb andb key_slots fold_left List.filter fst snd].
    fold (key_slots rows).
    destruct (Z.gtb_spec iPKey 0) as [Hkey|Hdata]; cbn [negb].
    + pose proof (Hpk (zName, iPKey) ltac:(now left) ltac:(cbn; lia)) as Hk.
      cbn [snd] in Hk. rewrite length_app.
      destruct (Z.ltb_spec (iPKey - 1) (Z.of_nat (length a + length b)));
        [|lia].
      rewrite insert_app_l by lia. rewrite Hz.
      rewrite IH; [reflexivity | exact Ht|].
      intros r Hr Hpos. rewrite length_insert.
      apply Hpk; [now right | exact Hpos].
    + replace ((a ++ b) ++ [Some zId]) with (a ++ (b ++ [Some zId]))
        by now rewrite app_assoc.
      rewrite IH; [|exact Ht|intros r Hr; apply Hpk; now right].
      cbn [map fst]. rewrite Hz. now rewrite <- !app_assoc.
Qed.

Lemma fill_unkeyed (truePk : Z) (rows : list (string * Z)) :
  forall az : list (option string),
  (truePk = 0 \/ forall r, In r rows -> snd r <= 0) ->
  fill rows truePk az = Some (az ++ map (fun r => safeId (fst r)) rows).
Proof.
  induction rows as [|[zName iPKey] rows IH]; intros az Hno.
  - cbn. now rewrite app_nil_r.
  - cbn [fill map fst]. destruct (safeId_total zName) as [zId Hz]. rewrite Hz.
    cbn [bind].
    assert (negb (truePk =? 0) && (iPKey >? 0) = false) as ->.
    { destruct Hno as [->|Hno]; [reflexivity|].
      specialize (Hno (zName, iPKey) ltac:(now left)). cbn [snd] in Hno.
      destruct (Z.gtb_spec iPKey 0); [lia | apply andb_false_r]. }
    rewrite IH.
    + now rewrite <- app_assoc.
    + destruct Hno as [->|Hno]; [now left | right].
      intros r Hr. apply Hno. now right.
Qed.

Lemma key_slots_skip (rows : list (string * Z)) :
  forall (a : list (option string)) (i : nat),
  (forall r, In r rows -> 0 < snd r -> Z.to_nat (snd r - 1) <> i) ->
  key_slots rows a !! i = a !! i.
Proof.
  induction rows as [|r rows IH]; intros a i Hno; [reflexivity|].
  cbn [key_slots fold_left]. fold (key_slots rows).
  rewrite IH by (intros r' Hr'; apply Hno; now right).
  destruct (Z.gtb_spec (snd r) 0) as [Hkey|]; [|reflexivity].
  apply list_lookup_insert_ne. apply Hno; [now left | lia].
Qed.

Lemma key_slots_lookup (rows : list (string * Z)) :
  forall (a : list (option string)) (zName : string) (iPKey : Z),
  NoDup (map snd (List.filter (fun r => snd r >? 0) rows)) ->
  In (zName, iPKey) rows -> 0 < iPKey <= Z.of_nat (length a) ->
  key_slots rows a !! Z.to_nat (iPKey - 1) = Some (safeId zName).
Proof.
  induction rows as [|r rows IH]; intros a zName iPKey Hnd Hin Hpk;
    [destruct Hin|].
  cbn [key_slots fold_left]. fold (key_slots rows).
  cbn [List.filter] in Hnd.
  destruct Hin as [->|Hin].
  - cbn [snd fst] in *. destruct (Z.gtb_spec iPKey 0) as [_|]; [|lia].
    cbn [map snd] in Hnd. apply NoDup_cons in Hnd as [Hfresh _].
    rewrite key_slots_skip.
    + apply list_lookup_insert_eq. lia.
    + intros r Hr Hpos E. apply Hfresh.
      assert (snd r = iPKey) as <- by lia.
      apply list_elem_of_In, in_map, filter_In. split; [exact Hr|].
      destruct (Z.gtb_spec (snd r) 0); [reflexivity | lia].
  - assert (NoDup (map snd (List.filter (fun r => snd r >? 0) rows))) as Hnd'.
    { destruct (snd r >? 0); [|exact Hnd].
      cbn [map] in Hnd. now apply NoDup_cons in Hnd as [_ Hnd]. }
    apply IH; auto. destruct (snd r >? 0); [|exact Hpk].
    now rewrite length_insert.
Qed.

(** Ranks that are all different, run from 1 to their number at most and
    are as many as [n] include the rank 1. *)
Lemma ranks_include_one (l : list Z) (n : nat) :
  NoDup l -> length l = n -> (0 < n)%nat ->
  (forall x, In x l -> 0 < x <= Z.of_nat n) -> In 1 l.
Proof.
  intros Hnd Hlen Hn Hr.
  destruct (in_dec Z.eq_dec 1 l) as [|Hnot]; [assumption|exfalso].
  assert (incl l (map Z.of_nat (seq 2 (n - 1)))) as Hincl.
  { intros x Hx. specialize (Hr x Hx).
    assert (x <> 1) by (intros ->; contradiction).
    replace x with (Z.of_nat (Z.to_nat x)) by lia.
    apply in_map, in_seq. lia. }
  apply NoDup_ListNoDup in Hnd.
  pose proof (List.NoDup_incl_length Hnd Hincl) as Hle.
  rewrite length_map, length_seq in Hle. lia.
Qed.

(** When the primary key is made of columns of the table, the list holds
    the key columns first, each at the place its rank in the key gives,
    then the other columns in the order of the table, every name as
    [safeId] returns it; the key is not the implicit rowid. *)
Theorem columnNames_lists_key_first (bSchemaPK nPK truePk : Z) :
  pk_count bSchemaPK = (nPK, truePk) -> truePk <> 0 ->
  0 < nPK ->
  nPK = Z.of_nat (length (List.filter (fun r => snd r >? 0) table_info)) ->
  NoDup (map snd (List.filter (fun r => snd r >? 0) table_info)) ->
  (forall r, In r table_info -> snd r <= nPK) ->
  exists az : list (option string),
    columnNames bSchemaPK = Some (Some az, nPK, false) /\
    length az = length table_info /\
    (forall zName iPKey, In (zName, iPKey) table_info -> 0 < iPKey ->
       az !! Z.to_nat (iPKey - 1) = Some (safeId zName)) /\
    drop (Z.to_nat nPK) az
    = map (fun r => safeId (fst r))
        (List.filter (fun r => negb (snd r >? 0)) table_info).
Proof.
  intros Hcount Ht Hpos Hn Hnd Hle.
  set (a := replicate (Z.to_nat nPK) (@None string)).
  assert (length a = Z.to_nat nPK) as Hla by apply length_replicate.
  pose proof (fill_keyed truePk table_info a [] Ht) as Hfill.
  rewrite app_nil_r in Hfill. cbn [app] in Hfill.
  specialize (Hfill ltac:(intros r Hr _; specialize (Hle r Hr); lia)).
  assert (forall zName iPKey, In (zName, iPKey) table_info -> 0 < iPKey ->
            (key_slots table_info a ++ data_slots table_info)
              !! Z.to_nat (iPKey - 1) = Some (safeId zName)) as Hkeys.
  { intros zName iPKey Hin Hk. specialize (Hle _ Hin). cbn [snd] in Hle.
    rewrite lookup_app_l by (rewrite key_slots_length; lia).
    apply key_slots_lookup; auto. lia. }
  assert (In 1 (map snd (List.filter (fun r => snd r >? 0) table_info)))
    as Hone.
  { apply (ranks_include_one _ (Z.to_nat nPK)); auto.
    - rewrite length_map. lia.
    - lia.
    - intros x Hx. apply in_map_iff in Hx as (r & <- & Hr).
      apply filter_In in Hr as [Hr Hk]. specialize (Hle r Hr).
      destruct (Z.gtb_spec (snd r) 0); [lia | discriminate]. }
  apply in_map_iff in Hone as ([zName iPKey] & E & Hr). cbn [snd] in E.
  subst iPKey.
  apply filter_In in Hr as [Hr _].
  pose proof (Hkeys zName 1 Hr ltac:(lia)) as H0.
  destruct (safeId_total zName) as [zId Hz]. rewrite Hz in H0.
  exists (key_slots table_info a ++ data_slots table_info).
  split; [|split; [|split]].
  - unfold columnNames. rewrite Hcount. fold a. rewrite Hfill. cbn [bind].
    destruct (key_slots table_info a ++ data_slots table_info) as [|[e|] l];
      cbn in H0; [discriminate | reflexivity | discriminate].
  - rewrite length_app, key_slots_length, Hla. unfold data_slots.
    rewrite length_map, Hn, Nat2Z.id.
    clear. induction table_info as [|r l IH]; [reflexivity|].
    cbn [List.filter length]. destruct (snd r >? 0); cbn [negb length]; lia.
  - exact Hkeys.
  - rewrite <- Hla, <- (key_slots_length table_info a).
    apply drop_app_length.
Qed.

(** When the primary key is the implicit rowid, the list holds a name for
    the rowid and then every column in the order of the table.  The name
    is the first of [rowid], [_rowid_] and [oid] that no column bears,
    whatever the case of the letters; when the table has columns with all
    three names the result is the NULL pointer. *)
Theorem columnNames_names_the_rowid (bSchemaPK truePk : Z) :
  pk_count bSchemaPK = (1, truePk) ->
  (truePk = 0 \/ forall r, In r table_info -> snd r <= 0) ->
  let cols := map (fun r => safeId (fst r)) table_info in
  let borne zRowid :=
    exists z, In (Some z) cols /\ stricmp z zRowid = 0 in
  (exists (before after : list string) (zRowid : string),
     columnNames bSchemaPK = Some (Some (Some zRowid :: cols), 1, true) /\
     azRowid = before ++ zRowid :: after /\
     ~ borne zRowid /\ Forall borne before) \/
  (columnNames bSchemaPK = Some (None, 1, true) /\ Forall borne azRowid).
Proof.
  intros Hcount Hno cols borne.
  assert (forall zRowid, name_taken (None :: cols) zRowid = true <->
                         borne zRowid) as Htaken.
  { intros zRowid. unfold name_taken. cbn [tl]. rewrite existsb_exists.
    split.
    - intros ([z|] & Hin & Hz); [|discriminate]. exists z.
      split; [exact Hin | lia].
    - intros (z & Hin & Hz). exists (Some z). split; [exact Hin|].
      now apply Z.eqb_eq. }
  assert (forall names,
            match pick_rowid names (None :: cols) with
            | Some zRowid =>
                exists before after, names = before ++ zRowid :: after /\
                  ~ borne zRowid /\ Forall borne before
            | None => Forall borne names
            end) as Hpick.
  { induction names as [|x names IH]; cbn [pick_rowid]; [constructor|].
    destruct (name_taken (None :: cols) x) eqn:E.
    - apply Htaken in E. destruct (pick_rowid names (None :: cols)) as [y|].
      + destruct IH as (before & after & -> & Hy & Hb).
        exists (x :: before), after. split; [reflexivity|].
        split; [exact Hy | now constructor].
      + now constructor.
    - exists [], names. split; [reflexivity|]. split; [|constructor].
      intros Hb. apply Htaken in Hb. congruence. }
  assert (columnNames bSchemaPK
          = match pick_rowid azRowid (None :: cols) with
            | Some zRowid => Some (Some (Some zRowid :: cols), 1, true)
            | None => Some (None, 1, true)
            end) as Hcol.
  { unfold columnNames. rewrite Hcount.
    rewrite (fill_unkeyed truePk table_info _ Hno). reflexivity. }
  specialize (Hpick azRowid). rewrite Hcol.
  destruct (pick_rowid azRowid (None :: cols)) as [zRowid|].
  - left. destruct Hpick as (before & after & E & Hy & Hb).
    exists before, after, zRowid. auto.
  - right. auto.
Qed.

End ColumnNames.

(** The table [t2] of the comment above [columnNames]:
    [CREATE TABLE t2(a INT UNIQUE, b INTEGER, c TEXT, PRIMARY KEY(b))]. *)
Definition t2_index_list : list (string * string) :=
  [("sqlite_autoindex_t2_1", "u")]%string.

Definition t2_table_info : list (string * Z) := [("a", 0); ("b", 1); ("c", 0)]%string.

Lemma columnNames_lists_key_first_witness :
  exists az : list (option string),
    columnNames t2_index_list (fun _ => []) t2_table_info 0
    = Some (Some az, 1, false) /\
    length az = length t2_table_info /\
    (forall zName iPKey, In (zName, iPKey) t2_table_info -> 0 < iPKey ->
       az !! Z.to_nat (iPKey - 1) = Some (safeId zName)) /\
    drop (Z.to_nat 1) az
    = map (fun r => safeId (fst r))
        (List.filter (fun r => negb (snd r >? 0)) t2_table_info).
Proof.
  apply (columnNames_lists_key_first t2_index_list (fun _ => []) t2_table_info
           0 1 1).
  - reflexivity.
  - discriminate.
  - lia.
  - reflexivity.
  - cbn. apply NoDup_singleton.
  - intros r [<-|[<-|[<-|[]]]]; cbn; lia.
Defined.

(** The table [t1] of the same comment:
    [CREATE TABLE t1(a INT UNIQUE, b INTEGER, c TEXT, PRIMARY KEY(c))]. *)
Definition t1_index_list : list (string * string) :=
  [("sqlite_autoindex_t1_2", "pk"); ("sqlite_autoindex_t1_1", "u")]%string.

Definition t1_index_xinfo (zName : string) : list (Z * Z) :=
  if String.eqb zName "sqlite_autoindex_t1_2" then [(2, 1); (-1, 0)]
  else [(0, 1); (-1, 0)].

Definition t1_table_info : list (string * Z) := [("a", 0); ("b", 0); ("c", 1)]%string.

Lemma columnNames_names_the_rowid_witness :
  columnNames t1_index_list t1_index_xinfo t1_table_info 0
  = Some (Some [Some "rowid"; Some "a"; Some "b"; Some "c"]%string, 1, true).
Proof.
  destruct (columnNames_names_the_rowid t1_index_list t1_index_xinfo
              t1_table_info 0 0 eq_refl (or_introl eq_refl))
    as [(before & after & zRowid & H & _)|[H _]];
    vm_compute in H |- *; congruence.
Defined.

(** ** The classic emitter: one statement per row of the diff query *)

Section ClassicRows.

Variable snprintf_15g : Z -> string.
(** [sqlite3_column_int] on a cell. *)
Variable sqlite3_column_int : value -> Z.

(** The table name as quoted, the column list of [aux], the numbers of key
    columns in [main] and [aux] and the number of columns of the query. *)
Variable zId : string.
Variable az2 : list string.
Variables nPk nPk2 nQ : Z.

(** [az2[i]]. *)
Definition name_at (i : Z) : string := nth (Z.to_nat i) az2 EmptyString.

(** [for (i = nPk + 1; i < nQ; i += 2)] of an UPDATE, from [i] on and
    with the separator [zSep]. *)
Fixpoint update_sets (fuel : nat) (row : list value) (i : Z) (zSep : string)
  : option string :=
  if i <? nQ then
    match fuel with
    | O => None
    | S fuel' =>
        if sqlite3_column_int (column row i) =? 0
        then update_sets fuel' row (i + 2) zSep
        else
          rest <- update_sets fuel' row (i + 2) "," ;;
          Some (String.append zSep
                  (String.append " "
                     (String.append (name_at ((i + nPk - 1) / 2))
                        (String.append "="
                           (String.append
                              (printQuoted snprintf_15g (column row (i + 1)))
                              rest)))))
    end
  else Some EmptyString.

(** [for (i = 0; i < nPk; i++)] of the WHERE clause: [k] rounds are left. *)
Fixpoint where_keys (k : nat) (row : list value) (i : Z) (zSep : string)
  : string :=
  match k with
  | O => EmptyString
  | S k' =>
      String.append zSep
        (String.append " "
           (String.append (name_at i)
              (String.append "="
                 (String.append (printQuoted snprintf_15g (column row i))
                    (where_keys k' row (i + 1) " AND")))))
  end.

(** [for (i = 1; az2[i]; i++) fprintf (out, ",%s", az2[i]);] *)
Definition insert_names : string :=
  String.append (name_at 0)
    (concat_text (map (fun z => String.append "," z) (tl az2))).

(** [for (i = 0; i < nPk2; i++)] of an INSERT: [k] rounds are left. *)
Fixpoint insert_keys (k : nat) (row : list value) (i : Z) (zSep : string)
  : string :=
  match k with
  | O => EmptyString
  | S k' =>
      String.append zSep
        (String.append (printQuoted snprintf_15g (column row i))
           (insert_keys k' row (i + 1) ","))
  end.

(** [for (i = nPk2 + 2; i < nQ; i += 2)] of an INSERT. *)
Fixpoint insert_data (fuel : nat) (row : list value) (i : Z) : option string :=
  if i <? nQ then
    match fuel with
    | O => None
    | S fuel' =>
        rest <- insert_data fuel' row (i + 2) ;;
        Some (String.append ","
                (String.append (printQuoted snprintf_15g (column row i)) rest))
    end
  else Some EmptyString.

(** The body of the loop over the rows of the diff query: the statement
    written for one row. *)
Definition diff_row (fuel : nat) (row : list value) : option string :=
  let iType := sqlite3_column_int (column row nPk) in
  if (iType =? 1) || (iType =? 2) then
    head <- (if iType =? 1
             then sets <- update_sets fuel row (nPk + 1) " SET" ;;
                  Some (String.append "UPDATE " (String.append zId sets))
             else Some (String.append "DELETE FROM " zId)) ;;
    Some (String.append head
            (String.append (where_keys (Z.to_nat nPk) row 0 " WHERE")
               (String.append ";" nl)))
  else
    data <- insert_data fuel row (nPk2 + 2) ;;
    Some (String.append "INSERT INTO "
            (String.append zId
               (String.append "("
                  (String.append insert_names
                     (String.append ") VALUES"
                        (String.append
                           (insert_keys (Z.to_nat nPk2) row 0 "(")
                           (String.append data (String.append ");" nl)))))))).

(** *** The statements, column by column *)

(** [items] written one after the other, [zFirst] before the first and
    [zNext] before each of the others. *)
Definition sep_join (zFirst zNext : string) (items : list string) : string :=
  match items with
  | [] => EmptyString
  | a :: l =>
      String.append zFirst
        (String.append a (concat_text (map (String.append zNext) l)))
  end.

Lemma sep_join_same (zSep : string) (items : list string) :
  sep_join zSep zSep items = concat_text (map (String.append zSep) items).
Proof.
  destruct items as [|a l]; [reflexivity|].
  cbn [sep_join map concat_text fold_right]. now rewrite append_assoc.
Qed.

Lemma sep_join_cons (zFirst zNext a : string) (l : list string) :
  sep_join zFirst zNext (a :: l)
  = String.append zFirst (String.append a (sep_join zNext zNext l)).
Proof. cbn [sep_join]. now rewrite sep_join_same. Qed.

(** A row of the diff query: the key, the cell that tells the kind of
    row, then two cells per other column. *)
Definition query_row (keys : list value) (kind : value)
  (cells : list (value * value)) : list value :=
  keys ++ kind :: flat_map (fun c => [fst c; snd c]) cells.

Lemma query_row_key (keys : list value) (kind : value)
  (cells : list (value * value)) (k : nat) (v : value) :
  keys !! k = Some v -> column (query_row keys kind cells) (Z.of_nat k) = v.
Proof.
  intros Hk. unfold column, query_row. rewrite Nat2Z.id, nth_lookup.
  rewrite lookup_app_l by (apply lookup_lt_Some in Hk; exact Hk).
  now rewrite Hk.
Qed.

Lemma query_row_kind (keys : list value) (kind : value)
  (cells : list (value * value)) :
  column (query_row keys kind cells) (Z.of_nat (length keys)) = kind.
Proof.
  unfold column, query_row. rewrite Nat2Z.id, nth_lookup.
  rewrite lookup_app_r by lia. now rewrite Nat.sub_diag.
Qed.

Lemma cells_lookup (cells : list (value * value)) :
  forall (k : nat) (f v : value), cells !! k = Some (f, v) ->
  flat_map (fun c => [fst c; snd c]) cells !! (2 * k)%nat = Some f /\
  flat_map (fun c => [fst c; snd c]) cells !! (2 * k + 1)%nat = Some v.
Proof.
  induction cells as [|c cells IH]; intros [|k] f v; try discriminate.
  - intros [= ->]. split; reflexivity.
  - intros Hk. destruct (IH k f v Hk) as [H1 H2]. cbn [flat_map app].
    replace (2 * S k)%nat with (S (S (2 * k))) by lia.
    replace (S (S (2 * k)) + 1)%nat with (S (S (2 * k + 1))) by lia.
    split; assumption.
Qed.

Lemma query_row_cell (keys : list value) (kind : value)
  (cells : list (value * value)) (k : nat) (f v : value) :
  cells !! k = Some (f, v) ->
  column (query_row keys kind cells)
    (Z.of_nat (length keys) + 1 + 2 * Z.of_nat k) = f /\
  column (query_row keys kind cells)
    (Z.of_nat (length keys) + 2 + 2 * Z.of_nat k) = v.
Proof.
  intros Hk. destruct (cells_lookup cells k f v Hk) as [H1 H2].
  unfold column, query_row. rewrite !nth_lookup. split.
  - replace (Z.to_nat (Z.of_nat (length keys) + 1 + 2 * Z.of_nat k))
      with (length keys + S (2 * k))%nat by lia.
    rewrite lookup_app_r by lia.
    replace (length keys + S (2 * k) - length keys)%nat with (S (2 * k))
      by lia.
    transitivity (default VNull
                    (flat_map (fun c => [fst c; snd c]) cells !! (2 * k)%nat));
      [reflexivity | now rewrite H1].
  - replace (Z.to_nat (Z.of_nat (length keys) + 2 + 2 * Z.of_nat k))
      with (length keys + S (2 * k + 1))%nat by lia.
    rewrite lookup_app_r by lia.
    replace (length keys + S (2 * k + 1) - length keys)%nat
      with (S (2 * k + 1)) by lia.
    transitivity (default VNull
                    (flat_map (fun c => [fst c; snd c]) cells
                       !! (2 * k + 1)%nat));
      [reflexivity | now rewrite H2].
Qed.

Lemma concat_text_app (a b : list string) :
  concat_text (a ++ b) = String.append (concat_text a) (concat_text b).
Proof.
  induction a as [|x a IH]; [reflexivity|].
  cbn [app concat_text fold_right]. fold (concat_text (a ++ b)).
  fold (concat_text a). now rewrite IH, append_assoc.
Qed.

(** [ name=value] for a column and the new value of its cell. *)
Definition assignment (it : string * (value * value)) : string :=
  String.append " "
    (String.append (fst it)
       (String.append "=" (printQuoted snprintf_15g (snd (snd it))))).

(** The first cell of the pair says whether the column has changed. *)
Definition changed (it : string * (value * value)) : bool :=
  negb (sqlite3_column_int (fst (snd it)) =? 0).

(** [ name=value] for a key column and its cell. *)
Definition key_test (it : string * value) : string :=
  String.append " "
    (String.append (fst it)
       (String.append "=" (printQuoted snprintf_15g (snd it)))).

Lemma update_sets_spec (row : list value)
  (items : list (string * (value * value))) :
  forall (m : nat) (zSep : string) (fuel : nat),
  (forall k name f v, items !! k = Some (name, (f, v)) ->
     column row (nPk + 1 + 2 * Z.of_nat (m + k)) = f /\
     column row (nPk + 2 + 2 * Z.of_nat (m + k)) = v /\
     name_at (nPk + Z.of_nat (m + k)) = name) ->
  nQ = nPk + 1 + 2 * Z.of_nat (m + length items) ->
  (length items <= fuel)%nat ->
  update_sets fuel row (nPk + 1 + 2 * Z.of_nat m) zSep
  = Some (sep_join zSep "," (map assignment (List.filter changed items))).
Proof.
  induction items as [|[name [f v]] items IH]; intros m zSep fuel Hrow HnQ Hf.
  - cbn [length] in HnQ. destruct fuel; cbn [update_sets];
      (destruct (Z.ltb_spec (nPk + 1 + 2 * Z.of_nat m) nQ); [lia|]);
      reflexivity.
  - cbn [length] in HnQ, Hf. destruct fuel as [|fuel]; [lia|].
    cbn [update_sets].
    destruct (Z.ltb_spec (nPk + 1 + 2 * Z.of_nat m) nQ); [|lia].
    destruct (Hrow 0%nat name f v eq_refl) as (Hc1 & Hc2 & Hname).
    rewrite Nat.add_0_r in Hc1, Hc2, Hname.
    replace (nPk + 1 + 2 * Z.of_nat m + 1) with (nPk + 2 + 2 * Z.of_nat m)
      by lia.
    replace ((nPk + 1 + 2 * Z.of_nat m + nPk - 1) / 2)
      with (nPk + Z.of_nat m) by (Z.div_mod_to_equations; lia).
    rewrite Hc1, Hc2, Hname.
    replace (nPk + 1 + 2 * Z.of_nat m + 2)
      with (nPk + 1 + 2 * Z.of_nat (S m)) by lia.
    assert (forall k name' f' v', items !! k = Some (name', (f', v')) ->
              column row (nPk + 1 + 2 * Z.of_nat (S m + k)) = f' /\
              column row (nPk + 2 + 2 * Z.of_nat (S m + k)) = v' /\
              name_at (nPk + Z.of_nat (S m + k)) = name') as Hrow'.
    { intros k name' f' v' Hk. specialize (Hrow (S k) name' f' v' Hk).
      replace (S m + k)%nat with (m + S k)%nat by lia. exact Hrow. }
    cbn [List.filter]. unfold changed at 1. cbn [fst snd].
    destruct (sqlite3_column_int f =? 0); cbn [negb].
    + apply IH; [exact Hrow' | lia | lia].
    + rewrite (IH (S m) ","%string fuel Hrow') by lia. cbn [bind map].
      rewrite sep_join_cons. unfold assignment at 2. cbn [fst snd].
      now rewrite !append_assoc.
Qed.

Lemma where_keys_spec (row : list value) (items : list (string * value)) :
  forall (m : nat) (zSep : string),
  (forall k name v, items !! k = Some (name, v) ->
     column row (Z.of_nat (m + k)) = v /\
     name_at (Z.of_nat (m + k)) = name) ->
  where_keys (length items) row (Z.of_nat m) zSep
  = sep_join zSep " AND" (map key_test items).
Proof.
  induction items as [|[name v] items IH]; intros m zSep Hrow; [reflexivity|].
  cbn [length where_keys map].
  destruct (Hrow 0%nat name v eq_refl) as [Hc Hname].
  rewrite Nat.add_0_r in Hc, Hname. rewrite Hc, Hname.
  replace (Z.of_nat m + 1) with (Z.of_nat (S m)) by lia.
  rewrite IH.
  - rewrite sep_join_cons. unfold key_test at 2. cbn [fst snd].
    now rewrite !append_assoc.
  - intros k name' v' Hk. specialize (Hrow (S k) name' v' Hk).
    replace (S m + k)%nat with (m + S k)%nat by lia. exact Hrow.
Qed.

Lemma insert_keys_spec (row : list value) (vs : list value) :
  forall (m : nat) (zSep : string),
  (forall k v, vs !! k = Some v -> column row (Z.of_nat (m + k)) = v) ->
  insert_keys (length vs) row (Z.of_nat m) zSep
  = sep_join zSep "," (map (printQuoted snprintf_15g) vs).
Proof.
  induction vs as [|v vs IH]; intros m zSep Hrow; [reflexivity|].
  cbn [length insert_keys map].
  pose proof (Hrow 0%nat v eq_refl) as Hc. rewrite Nat.add_0_r in Hc.
  rewrite Hc. replace (Z.of_nat m + 1) with (Z.of_nat (S m)) by lia.
  rewrite IH.
  - now rewrite sep_join_cons.
  - intros k v' Hk. specialize (Hrow (S k) v' Hk).
    replace (S m + k)%nat with (m + S k)%nat by lia. exact Hrow.
Qed.

Lemma insert_data_spec (row : list value) (vs : list value) :
  forall (m fuel : nat),
  (forall k v, vs !! k = Some v ->
     column row (nPk2 + 2 + 2 * Z.of_nat (m + k)) = v) ->
  nQ = nPk2 + 1 + 2 * Z.of_nat (m + length vs) ->
  (length vs <= fuel)%nat ->
  insert_data fuel row (nPk2 + 2 + 2 * Z.of_nat m)
  = Some (sep_join "," "," (map (printQuoted snprintf_15g) vs)).
Proof.
  induction vs as [|v vs IH]; intros m fuel Hrow HnQ Hf.
  - cbn [length] in HnQ. destruct fuel; cbn [insert_data];
      (destruct (Z.ltb_spec (nPk2 + 2 + 2 * Z.of_nat m) nQ); [lia|]);
      reflexivity.
  - cbn [length] in HnQ, Hf. destruct fuel as [|fuel]; [lia|].
    cbn [insert_data].
    destruct (Z.ltb_spec (nPk2 + 2 + 2 * Z.of_nat m) nQ); [|lia].
    pose proof (Hrow 0%nat v eq_refl) as Hc. rewrite Nat.add_0_r in Hc.
    rewrite Hc.
    replace (nPk2 + 2 + 2 * Z.of_nat m + 2)
      with (nPk2 + 2 + 2 * Z.of_nat (S m)) by lia.
    rewrite IH; [|intros k v' Hk; specialize (Hrow (S k) v' Hk);
                   replace (S m + k)%nat with (m + S k)%nat by lia;
                   exact Hrow | lia | lia].
    cbn [bind map]. now rewrite sep_join_cons.
Qed.

(** What the row [query_row keys kind cells] and the column list
    [knames ++ dnames] give to the loops. *)
Lemma key_items (keys : list value) (kind : value)
  (cells : list (value * value)) (knames dnames : list string) :
  az2 = knames ++ dnames -> length knames = length keys ->
  forall k name v, zip knames keys !! k = Some (name, v) ->
  column (query_row keys kind cells) (Z.of_nat (0 + k)) = v /\
  name_at (Z.of_nat (0 + k)) = name.
Proof.
  intros Haz Hlen k name v Hk.
  apply lookup_zip_with_Some in Hk as (x & y & [= <- <-] & Hx & Hy).
  cbn [Nat.add]. split; [now apply query_row_key|].
  unfold name_at. rewrite Nat2Z.id, nth_lookup, Haz.
  rewrite lookup_app_l by (apply lookup_lt_Some in Hx; exact Hx).
  now rewrite Hx.
Qed.

(** For a row that tells a change, the statement is an UPDATE of the
    table that assigns its new value to every column whose first cell is
    not zero, and to no other, each under its own name and in the order of
    the table, and that picks the row by all the columns of the key. *)
Theorem diff_row_update (fuel : nat) (keys : list value) (kind : value)
  (cells : list (value * value)) (knames dnames : list string) :
  sqlite3_column_int kind = 1 ->
  nPk = Z.of_nat (length keys) ->
  nQ = nPk + 1 + 2 * Z.of_nat (length cells) ->
  az2 = knames ++ dnames ->
  length knames = length keys -> length dnames = length cells ->
  (length cells <= fuel)%nat ->
  diff_row fuel (query_row keys kind cells)
  = Some (String.append "UPDATE "
            (String.append zId
               (String.append
                  (sep_join " SET" ","
                     (map assignment (List.filter changed (zip dnames cells))))
                  (String.append
                     (sep_join " WHERE" " AND" (map key_test (zip knames keys)))
                     (String.append ";" nl))))).
Proof.
  intros Hkind Hpk HnQ Haz Hlk Hld Hf. unfold diff_row. cbv zeta.
  rewrite Hpk, query_row_kind, Hkind.
  change ((1 =? 1) || (1 =? 2)) with true. change (1 =? 1) with true.
  cbn iota.
  pose proof (update_sets_spec (query_row keys kind cells) (zip dnames cells)
                0 " SET"%string fuel) as Hsets.
  change (Z.of_nat 0) with 0 in Hsets. rewrite Z.mul_0_r, Z.add_0_r in Hsets.
  rewrite Hpk in Hsets. rewrite Hsets; cycle 1.
  - intros k name f v Hk.
    apply lookup_zip_with_Some in Hk as (x & y & [= <- <-] & Hx & Hy).
    cbn [Nat.add]. destruct (query_row_cell keys kind cells k f v Hy) as [C1 C2].
    split; [exact C1|]. split; [exact C2|].
    unfold name_at.
    replace (Z.to_nat (Z.of_nat (length keys) + Z.of_nat k))
      with (length knames + k)%nat by lia.
    rewrite nth_lookup, Haz, lookup_app_r by lia.
    replace (length knames + k - length knames)%nat with k by lia.
    now rewrite Hx.
  - rewrite length_zip_with. cbn [Nat.add]. lia.
  - rewrite length_zip_with. lia.
  - cbn [bind].
    pose proof (where_keys_spec (query_row keys kind cells) (zip knames keys)
                  0 " WHERE"%string (key_items keys kind cells knames dnames Haz Hlk))
      as Hwhere.
    rewrite length_zip_with, Hlk, Nat.min_id in Hwhere.
    rewrite Nat2Z.id. change (Z.of_nat 0) with 0 in Hwhere.
    rewrite Hwhere. rewrite ?append_assoc. reflexivity.
Qed.

(** For a row that tells a deletion, the statement is a DELETE that picks
    the row by all the columns of the key. *)
Theorem diff_row_delete (fuel : nat) (keys : list value) (kind : value)
  (cells : list (value * value)) (knames dnames : list string) :
  sqlite3_column_int kind = 2 ->
  nPk = Z.of_nat (length keys) ->
  az2 = knames ++ dnames -> length knames = length keys ->
  diff_row fuel (query_row keys kind cells)
  = Some (String.append "DELETE FROM "
            (String.append zId
               (String.append
                  (sep_join " WHERE" " AND" (map key_test (zip knames keys)))
                  (String.append ";" nl)))).
Proof.
  intros Hkind Hpk Haz Hlk. unfold diff_row. cbv zeta.
  rewrite Hpk, query_row_kind, Hkind.
  change ((2 =? 1) || (2 =? 2)) with true. change (2 =? 1) with false.
  cbn iota. cbn [bind].
  pose proof (where_keys_spec (query_row keys kind cells) (zip knames keys)
                0 " WHERE"%string (key_items keys kind cells knames dnames Haz Hlk))
    as Hwhere.
  rewrite length_zip_with, Hlk, Nat.min_id in Hwhere.
  rewrite Nat2Z.id. change (Z.of_nat 0) with 0 in Hwhere.
  rewrite Hwhere. rewrite ?append_assoc. reflexivity.
Qed.

(** For any other row the statement is an INSERT that names every column
    of the list and gives the cells of the key, then the second cell of
    every other column, in the same order. *)
Theorem diff_row_insert (fuel : nat) (keys : list value) (kind : value)
  (cells : list (value * value)) :
  sqlite3_column_int kind <> 1 -> sqlite3_column_int kind <> 2 ->
  nPk = Z.of_nat (length keys) -> nPk2 = nPk -> keys <> [] -> az2 <> [] ->
  nQ = nPk2 + 1 + 2 * Z.of_nat (length cells) ->
  (length cells <= fuel)%nat ->
  diff_row fuel (query_row keys kind cells)
  = Some (String.append "INSERT INTO "
            (String.append zId
               (String.append "("
                  (String.append (sep_join EmptyString "," az2)
                     (String.append ") VALUES"
                        (String.append
                           (sep_join "(" ","
                              (map (printQuoted snprintf_15g)
                                 (keys ++ map snd cells)))
                           (String.append ");" nl))))))).
Proof.
  intros Hk1 Hk2 Hpk Hpk2 Hkeys Haz HnQ Hf. unfold diff_row. cbv zeta.
  rewrite Hpk2, Hpk, query_row_kind.
  destruct (Z.eqb_spec (sqlite3_column_int kind) 1); [contradiction|].
  destruct (Z.eqb_spec (sqlite3_column_int kind) 2); [contradiction|].
  cbn [orb].
  pose proof (insert_data_spec (query_row keys kind cells) (map snd cells)
                0 fuel) as Hdata.
  change (Z.of_nat 0) with 0 in Hdata. rewrite Z.mul_0_r, Z.add_0_r in Hdata.
  rewrite Hpk2, Hpk in Hdata. rewrite Hdata; cycle 1.
  - intros k v Hv. cbn [Nat.add].
    rewrite lookup_map in Hv.
    destruct (cells !! k) as [[f v']|] eqn:Hc; [|discriminate Hv].
    injection Hv as <-.
    destruct (query_row_cell keys kind cells k f v' Hc) as [_ C2].
    exact C2.
  - rewrite length_map. cbn [Nat.add]. lia.
  - now rewrite length_map.
  - cbn [bind].
    pose proof (insert_keys_spec (query_row keys kind cells) keys 0 "("%string)
      as Hik.
    change (Z.of_nat 0) with 0 in Hik.
    rewrite Nat2Z.id, Hik
      by (intros k v Hv; cbn [Nat.add]; now apply query_row_key).
    assert (insert_names = sep_join EmptyString "," az2) as ->.
    { unfold insert_names, name_at. destruct az2; [contradiction|].
      reflexivity. }
    destruct keys as [|k0 ks]; [contradiction|].
    cbn [app map sep_join]. rewrite map_app, map_app, concat_text_app.
    rewrite sep_join_same. rewrite ?append_assoc. reflexivity.
Qed.

End ClassicRows.

(** [sqlite3_column_int] on the integer cells of the samples. *)
Definition sample_int (v : value) : Z :=
  match v with
  | VInt i => i
  | _ => 0
  end.

Lemma diff_row_update_witness :
  diff_row (fun _ => EmptyString) sample_int "t" ["a"; "b"; "c"]%string 1 1 6 2
    (query_row [VInt 1] (VInt 1) [(VInt 0, VNull); (VInt 1, VText "y")])
  = Some (String.append "UPDATE t SET c='y' WHERE a=1;" nl).
Proof.
  exact (diff_row_update (fun _ => EmptyString) sample_int "t"
           ["a"; "b"; "c"]%string 1 1 6 2 [VInt 1] (VInt 1)
           [(VInt 0, VNull); (VInt 1, VText "y")] ["a"%string]
           ["b"; "c"]%string eq_refl eq_refl eq_refl eq_refl eq_refl eq_refl
           (le_n 2)).
Defined.

Lemma diff_row_delete_witness :
  diff_row (fun _ => EmptyString) sample_int "t" ["a"; "b"; "c"]%string 1 1 6 0
    (query_row [VInt 2] (VInt 2) [(VNull, VNull); (VNull, VNull)])
  = Some (String.append "DELETE FROM t WHERE a=2;" nl).
Proof.
  exact (diff_row_delete (fun _ => EmptyString) sample_int "t"
           ["a"; "b"; "c"]%string 1 1 6 0 [VInt 2] (VInt 2)
           [(VNull, VNull); (VNull, VNull)] ["a"%string] ["b"; "c"]%string
           eq_refl eq_refl eq_refl eq_refl).
Defined.

Lemma diff_row_insert_witness :
  diff_row (fun _ => EmptyString) sample_int "t" ["a"; "b"; "c"]%string 1 1 6 2
    (query_row [VInt 3] (VInt 3) [(VInt 1, VNull); (VInt 1, VText "it's")])
  = Some (String.append "INSERT INTO t(a,b,c) VALUES(3,NULL,'it''s');" nl).
Proof.
  refine (diff_row_insert (fun _ => EmptyString) sample_int "t"
            ["a"; "b"; "c"]%string 1 1 6 2 [VInt 3] (VInt 3)
            [(VInt 1, VNull); (VInt 1, VText "it's")] _ _ eq_refl eq_refl _ _
            eq_refl (le_n 2)); discriminate.
Defined.

(** The two statements of [odd_quote_patch] are what the classic emitter
    writes for two new rows of [t(a,b)] whose TEXT ends in a double
    quote. *)
Lemma odd_quote_inserts_written :
  diff_row (fun _ => EmptyString) sample_int "t" ["a"; "b"]%string 1 1 4 2
    (query_row [VInt 1] (VInt 3)
       [(VInt 1, VText (String "5" (String dquote EmptyString)))])
  = Some (String.append (odd_quote_insert "1" "5") (String.append ";" nl)) /\
  diff_row (fun _ => EmptyString) sample_int "t" ["a"; "b"]%string 1 1 4 2
    (query_row [VInt 2] (VInt 3)
       [(VInt 1, VText (String "6" (String dquote EmptyString)))])
  = Some (String.append (odd_quote_insert "2" "6") (String.append ";" nl)).
Proof. split; vm_compute; reflexivity. Qed.

(** ** The schema check of the classic emitter *)

(** [for (n = 0; az[n] && az2[n]; n++)
      if (sqlite3_stricmp (az[n], az2[n]) != 0) break;] *)
Fixpoint common_prefix (az az2 : list string) (n : Z) : Z :=
  match az, az2 with
  | z :: az', z2 :: az2' =>
      if negb (stricmp z z2 =? 0) then n else common_prefix az' az2' (n + 1)
  | _, _ => n
  end.

(** [az == 0 || az2 == 0 || nPk != nPk2 || az[n]]: the test that makes
    [diff_one_table] drop the table and dump it anew.  A column list is
    [None] when [columnNames] returned NULL. *)
Definition schema_mismatch (az az2 : option (list string)) (nPk nPk2 : Z)
  : bool :=
  match az, az2 with
  | Some a, Some a2 =>
      negb (nPk =? nPk2)
      || match a !! Z.to_nat (common_prefix a a2 0) with
         | Some _ => true
         | None => false
         end
  | _, _ => true
  end.

(** [for (n2 = n; az2[n2]; n2++) fprintf (out, "ALTER TABLE ...")]: the
    statements for the columns of [aux] from the place [n] on. *)
Fixpoint alter_from (zTab : string) (az2 : list string) : option (list string) :=
  match az2 with
  | [] => Some []
  | zCol :: rest =>
      zStmt <- alter_add_column zTab zCol ;;
      zRest <- alter_from zTab rest ;;
      Some (zStmt :: zRest)
  end.

Definition alter_statements (zTab : string) (az az2 : list string)
  : option (list string) :=
  alter_from zTab (drop (Z.to_nat (common_prefix az az2 0)) az2).

Lemma common_prefix_spec (az : list string) : forall (az2 : list string) (n : Z),
  n <= common_prefix az az2 n <= n + Z.of_nat (length az) /\
  (common_prefix az az2 n = n + Z.of_nat (length az) <->
   (length az <= length az2)%nat /\
   forall (i : nat) (z z2 : string),
     az !! i = Some z -> az2 !! i = Some z2 -> stricmp z z2 = 0).
Proof.
  induction az as [|z az IH]; intros az2 n.
  - cbn [common_prefix length]. split; [lia|]. split; [|lia].
    intros _. split; [lia|]. intros i z z2 Hz. discriminate Hz.
  - destruct az2 as [|z2 az2]; cbn [common_prefix length].
    + split; [lia|]. split; [lia|]. intros [H _]. lia.
    + destruct (Z.eqb_spec (stricmp z z2) 0) as [E|E]; cbn [negb].
      * destruct (IH az2 (n + 1)) as [Hr Hiff]. split; [lia|].
        replace (n + Z.of_nat (S (length az)))
          with (n + 1 + Z.of_nat (length az)) by lia.
        rewrite Hiff. split.
        -- intros [Hl Hall]. split; [lia|].
           intros [|i] x y; cbn [lookup list_lookup].
           ++ now intros [= <-] [= <-].
           ++ apply Hall.
        -- intros [Hl Hall]. split; [lia|].
           intros i x y Hx Hy. apply (Hall (S i) x y Hx Hy).
      * split; [lia|]. split; [lia|]. intros [_ Hall].
        exfalso. apply E. apply (Hall 0%nat z z2); reflexivity.
Qed.

(** [diff_one_table] takes the two schemas as compatible exactly when the
    two keys have the same number of columns and [aux] has the columns of
    [main], in the same order and under the same names whatever the case
    of the letters, followed by any number of further columns; it then
    writes one ALTER TABLE statement for each further column, in order. *)
Theorem schema_check_accepts_added_columns (zTab : string)
  (az az2 : list string) (nPk nPk2 : Z) :
  (schema_mismatch (Some az) (Some az2) nPk nPk2 = false <->
   nPk = nPk2 /\ (length az <= length az2)%nat /\
   forall (i : nat) (z z2 : string),
     az !! i = Some z -> az2 !! i = Some z2 -> stricmp z z2 = 0) /\
  (schema_mismatch (Some az) (Some az2) nPk nPk2 = false ->
   alter_statements zTab az az2 = alter_from zTab (drop (length az) az2)) /\
  (forall a, schema_mismatch None a nPk nPk2 = true /\
             schema_mismatch a None nPk nPk2 = true).
Proof.
  destruct (common_prefix_spec az az2 0) as [Hr Hiff].
  rewrite !Z.add_0_l in *.
  assert (schema_mismatch (Some az) (Some az2) nPk nPk2 = false <->
          nPk = nPk2 /\ common_prefix az az2 0 = Z.of_nat (length az)) as Hm.
  { unfold schema_mismatch.
    destruct (Z.eqb_spec nPk nPk2) as [E|E]; cbn [negb orb].
    - destruct (az !! Z.to_nat (common_prefix az az2 0)) as [z|] eqn:Hz.
      + apply lookup_lt_Some in Hz. split; [discriminate | lia].
      + apply lookup_ge_None in Hz. split; [intros _; split; [exact E | lia]|].
        reflexivity.
    - split; [discriminate | tauto]. }
  split; [|split].
  - rewrite Hm, Hiff. tauto.
  - intros H. apply Hm in H as [_ H]. unfold alter_statements.
    now rewrite H, Nat2Z.id.
  - intros [a|]; split; reflexivity.
Qed.

(** ** Where a logical line ends *)

Lemma strip_eol_crlf (l : string) : forall c : ascii,
  strip_eol (String c (String.append l
                         (String carriage_return (String newline EmptyString))))
  = String c l.
Proof.
  induction l as [|d l IH]; intros c; [reflexivity|].
  specialize (IH d). cbn [String.append] in *.
  destruct (String.append l (String carriage_return (String newline EmptyString)))
    as [|a z] eqn:E.
  - destruct l; discriminate E.
  - change (strip_eol (String c (String d (String a z))))
      with (String c (strip_eol (String d (String a z)))).
    now rewrite IH.
Qed.

(** The loop on the last line of a file, which has no newline. *)
Lemma read_line_end (m : nat) :
  forall (l acc : string) (nLine : Z) (q : bool) (fuel : nat),
  (String.length l <= m)%nat ->
  buffer_ok acc nLine ->
  ~ In newline (chars l) -> ~ In nul (chars l) ->
  String.append acc l <> EmptyString ->
  Z.of_nat (String.length acc + String.length l) < 1073741000 ->
  (String.length l < fuel)%nat ->
  read_line fuel l acc nLine q = Some (Some (String.append acc l, EmptyString)).
Proof.
  induction m as [m IH] using lt_wf_ind.
  intros l acc nLine q fuel Hm Hok Hnl Hnul Hne Hlen Hfuel.
  destruct fuel as [|fuel]; [lia|].
  destruct (buffer_grows_small acc nLine Hok ltac:(lia)) as (Hpos & Hok' & Hroom).
  destruct l as [|c l].
  { cbn [read_line]. cbv zeta. rewrite Hpos. rewrite append_empty_r in *.
    destruct (Z.eqb_spec (Z.of_nat (String.length acc)) 0) as [E|_];
      [|reflexivity].
    destruct acc; [contradiction | discriminate E]. }
  rewrite read_line_turn by discriminate. cbv zeta. rewrite Hpos.
  set (nLine' := if Z.of_nat (String.length acc) + 100 >? nLine
                 then int32 (nLine * 2 + 100) else nLine) in *.
  set (k := Z.to_nat (nLine' - Z.of_nat (String.length acc) - 1)).
  set (l' := String c l) in *.
  assert (exists a b : string,
            l' = String.append a b /\ a <> EmptyString /\
            (String.length a <= k)%nat /\
            (String.length a = k \/ b = EmptyString)) as (a & b & E & Ha & Hk & Hend).
  { destruct (Nat.le_gt_cases (String.length l') k) as [Hshort|Hlong].
    - exists l', EmptyString. rewrite append_empty_r.
      repeat split; [discriminate | exact Hshort | now right].
    - destruct (string_cut k l' ltac:(lia)) as (a & b & E & Hk).
      exists a, b. repeat split; [exact E | | lia | now left].
      intros ->. cbn in Hk. lia. }
  clearbody l'. subst l'. rewrite string_length_append in *.
  rewrite (fgets_plain a k b) by
      (first [now apply in_chars_append_l in Hnl | exact Hk | exact Hend]).
  rewrite scan_chunk_plain by (now apply in_chars_append_l in Hnul).
  rewrite ends_line_plain by
      (first [exact Ha | now apply in_chars_append_l in Hnl]).
  rewrite (IH (String.length b)).
  - now rewrite append_assoc.
  - destruct a; [contradiction | cbn [String.length] in *; lia].
  - lia.
  - destruct Hok' as (H1 & H2 & H3). split; [exact H1|]. split; [exact H2|].
    rewrite string_length_append. lia.
  - now apply in_chars_append_r in Hnl.
  - now apply in_chars_append_r in Hnul.
  - rewrite append_assoc. exact Hne.
  - rewrite string_length_append. lia.
  - destruct a; [contradiction | cbn [String.length] in *; lia].
Qed.

(** A line with no newline and no NUL inside, an even number of double
    quotes and fewer than a thousand million characters ends at the next
    newline; a carriage return just before that newline is dropped with
    it; the last line of a file needs no newline; and at the end of the
    file [local_getline] returns NULL. *)
Theorem local_getline_line_ends (l rest : string) :
  ~ In newline (chars l) -> ~ In nul (chars l) ->
  quote_state l false = false ->
  Z.of_nat (String.length l) < 1000000000 ->
  local_getline
    (String.append l (String carriage_return (String newline rest)))
  = Some (l, rest) /\
  (List.last (chars l) newline <> carriage_return ->
   local_getline (String.append l (String newline rest)) = Some (l, rest)) /\
  (l <> EmptyString -> local_getline l = Some (l, EmptyString)) /\
  local_getline EmptyString = None.
Proof.
  intros Hnl Hnul Hq Hlen. split; [|split; [|split]].
  - set (l' := String.append l (String carriage_return EmptyString)).
    assert (quote_state l' false = false) as Hq'.
    { subst l'. rewrite quote_state_append, Hq. reflexivity. }
    assert (forall c, c <> carriage_return -> ~ In c (chars l) ->
                      ~ In c (chars l')) as Hin.
    { intros c Hc Hl. subst l'. rewrite chars_append. intros H.
      apply in_app_or in H as [H|[H|[]]]; [now apply Hl | now apply Hc]. }
    assert (String.length l' = S (String.length l)) as Hl'
        by (subst l'; rewrite string_length_append; cbn [String.length]; lia).
    unfold local_getline.
    replace (String.append l (String carriage_return (String newline rest)))
      with (String.append l' (String newline rest))
      by (subst l'; now rewrite append_assoc).
    rewrite (read_line_statement (String.length l') l' EmptyString rest 100
               false _ (le_n _) buffer_start
               (Hin newline ltac:(discriminate) Hnl)
               (Hin nul ltac:(discriminate) Hnul) Hq').
    + f_equal. f_equal. cbn [String.append]. subst l'.
      rewrite append_assoc. cbn [String.append].
      destruct l as [|c l]; [reflexivity | apply strip_eol_crlf].
    + cbn [String.length]. lia.
    + rewrite string_length_append. cbn [String.length]. lia.
  - intros Hcr. apply local_getline_statement. repeat split; assumption.
  - intros Hne. unfold local_getline.
    rewrite (read_line_end (String.length l) l EmptyString 100 false _
               (le_n _) buffer_start Hnl Hnul).
    + reflexivity.
    + exact Hne.
    + cbn [String.length]. lia.
    + lia.
  - reflexivity.
Qed.

Lemma local_getline_line_ends_witness :
  (~ In newline (chars "COMMIT;") /\ ~ In nul (chars "COMMIT;") /\
   quote_state "COMMIT;" false = false /\
   Z.of_nat (String.length "COMMIT;") < 1000000000) /\
  local_getline
    (String.append "COMMIT;"
       (String carriage_return (String newline "-- next")))
  = Some ("COMMIT;"%string, "-- next"%string).
Proof.
  assert (~ In newline (chars "COMMIT;") /\ ~ In nul (chars "COMMIT;") /\
          quote_state "COMMIT;" false = false /\
          Z.of_nat (String.length "COMMIT;") < 1000000000)
    as H by (split; [cbn; intuition discriminate|];
             split; [cbn; intuition discriminate|];
             split; [reflexivity | cbn; lia]).
  split; [exact H|].
  destruct H as (H1 & H2 & H3 & H4).
  exact (proj1 (local_getline_line_ends "COMMIT;" "-- next" H1 H2 H3 H4)).
Defined.


(** ** How [main] exits *)

Lemma option_name_help (a : string) :
  option_name a = Some "help"%string ->
  a = "-help"%string \/ a = "--help"%string.
Proof.
  destruct a as [|c z]; [discriminate|]. cbn [option_name].
  destruct (Ascii.eqb_spec c "-"%char) as [->|_]; [|discriminate].
  destruct z as [|c' z']; [discriminate|].
  destruct (Ascii.eqb_spec c' "-"%char) as [->|_].
  - intros [= ->]. now right.
  - intros [= -> ->]. now left.
Qed.

Section MainExit.

Variable strtol : string -> Z.

Lemma parse_args_exit (n : nat) :
  forall (args : list string) (g : GlobalVars) (dbPath : option string)
         (status : Z),
  (length args <= n)%nat ->
  parse_args strtol args g dbPath = Exit status ->
  status = 1 \/
  (status = 0 /\ (In "-help"%string args \/ In "--help"%string args)).
Proof.
  induction n as [|n IH]; intros args g dbPath status Hlen.
  - destruct args; [|cbn in Hlen; lia]. cbn [parse_args].
    destruct dbPath; [discriminate|]. intros [= <-]. now left.
  - destruct args as [|a rest]; cbn [parse_args].
    { destruct dbPath; [discriminate|]. intros [= <-]. now left. }
    cbn [length] in Hlen.
    assert (forall g0 d0, parse_args strtol rest g0 d0 = Exit status ->
              status = 1 \/
              (status = 0 /\ (In "-help"%string (a :: rest) \/
                              In "--help"%string (a :: rest)))) as Hnext.
    { intros g0 d0 H. apply IH in H; [|lia].
      destruct H as [H|[H0 [H|H]]];
        [now left | right; split; [exact H0 | left; now right]
        | right; split; [exact H0 | right; now right]]. }
    assert (forall v rest' g0 d0, rest = v :: rest' ->
              parse_args strtol rest' g0 d0 = Exit status ->
              status = 1 \/
              (status = 0 /\ (In "-help"%string (a :: rest) \/
                              In "--help"%string (a :: rest)))) as Hskip.
    { intros v rest' g0 d0 -> H. cbn [length] in Hlen.
      apply IH in H; [|lia].
      destruct H as [H|[H0 [H|H]]];
        [now left | right; split; [exact H0 | left; right; now right]
        | right; split; [exact H0 | right; right; now right]]. }
    destruct (option_name a) as [z|] eqn:Hopt.
    + destruct (String.eqb z "event").
      { destruct rest as [|v rest']; [intros [= <-]; now left|].
        destruct (String.eqb v "modify"); [intros H; eapply Hskip; eauto|].
        destruct (String.eqb v "close_write");
          [intros H; eapply Hskip; eauto | intros [= <-]; now left]. }
      destruct (String.eqb z "debug").
      { destruct rest as [|v rest']; [intros [= <-]; now left|].
        intros H; eapply Hskip; eauto. }
      destruct (String.eqb_spec z "help") as [->|_].
      { intros [= <-]. right. split; [reflexivity|].
        destruct (option_name_help a Hopt) as [-> | ->];
          [left | right]; now left. }
      destruct (String.eqb z "lib" || String.eqb z "L").
      { destruct rest as [|v rest']; [intros [= <-]; now left|].
        intros H; eapply Hskip; eauto. }
      destruct (String.eqb z "primarykey"); [intros H; eapply Hnext; eauto|].
      destruct (String.eqb z "rbu"); [intros H; eapply Hnext; eauto|].
      destruct (String.eqb z "transaction"); [intros H; eapply Hnext; eauto|].
      destruct (String.eqb z "verbose" || String.eqb z "v");
        [intros H; eapply Hnext; eauto | intros [= <-]; now left].
    + destruct dbPath; [intros [= <-]; now left|].
      intros H; eapply Hnext; eauto.
Qed.

End MainExit.

(** [main] leaves before the watch loop with status 1, or with status 0;
    the latter only when [-help] or [--help] is among the arguments. *)
Theorem main_exit_status (strtol : string -> Z) (argv : list string)
  (status : Z) :
  main strtol argv = Exit status ->
  status = 1 \/
  (status = 0 /\ (In "-help"%string (tl argv) \/ In "--help"%string (tl argv))).
Proof.
  unfold main. intros H.
  apply (parse_args_exit strtol (length (tl argv))) in H; [exact H | lia].
Qed.

Lemma main_exit_status_witness :
  main (fun _ => 0) ["repqlite"; "--rbu"; "-help"; "--bogus"]%string = Exit 0 /\
  (0 = 1 \/
   (0 = 0 /\
    (In "-help"%string (tl ["repqlite"; "--rbu"; "-help"; "--bogus"]%string) \/
     In "--help"%string (tl ["repqlite"; "--rbu"; "-help"; "--bogus"]%string)))).
Proof.
  assert (main (fun _ => 0) ["repqlite"; "--rbu"; "-help"; "--bogus"]%string
          = Exit 0) as H by reflexivity.
  split; [exact H|]. exact (main_exit_status _ _ _ H).
Defined.


(** ** The RBU emitter: the fields that are not deltas *)

Section RbuValues.

Variable sql_is : value -> value -> bool.
Variable char_signed : bool.
Variable fuel : nat.

(** A field written as a literal is the cell of its column. *)
Lemma rbu_columns_values (k : nat) (row : list value) (nCol nPK bOtaRowid : Z) :
  forall (i : Z) (ctl0 : list ascii) (fs : list field) (ctl : list ascii)
         (j : nat) (v : value),
  rbu_columns char_signed fuel k row nCol nPK bOtaRowid i ctl0
  = Some (fs, ctl) ->
  fs !! j = Some (FValue v) -> column row (i + Z.of_nat j) = v.
Proof.
  induction k as [|k IH]; intros i ctl0 fs ctl j v; cbn [rbu_columns].
  - intros [= <- <-]. discriminate.
  - intros H. apply bind_Some in H as ([f0 ctl1] & Hr & H).
    apply bind_Some in H as ([fs' ctl'] & Hrest & [= <- <-]).
    cbn [fst snd] in *. destruct j as [|j]; cbn [lookup list_lookup].
    + intros [= ->]. rewrite Z.add_0_r.
      destruct (column row i) as [| | | |aFinal];
        try (injection Hr as <- _; reflexivity).
      destruct (column row (nCol + 1 + i)) as [| | | |aSrc];
        try (injection Hr as <- _; reflexivity).
      destruct (i >=? nPK); [|injection Hr as <- _; reflexivity].
      apply bind_Some in Hr as (aDelta & _ & Hr).
      destruct (len aDelta <? len aFinal);
        [discriminate Hr | injection Hr as <- _; reflexivity].
    + intros Hj. rewrite <- (IH _ _ _ _ _ _ Hrest Hj). f_equal. lia.
Qed.

(** In an update row, a field that is not written as a delta is written
    as the literal of a value: for a key column the value of the key; for
    any other column NULL when the new value [IS] the old one, and the new
    value when it is not. *)
Theorem rbu_literal_fields (nPK : nat) (bOtaRowid : bool)
  (n o : list value) (fs : list field) (ctl : list ascii)
  (j : nat) (v : value) :
  length n = length o -> (nPK <= length n)%nat ->
  rbu_update_values char_signed fuel
    (update_row sql_is nPK bOtaRowid n o) (Z.of_nat (length n))
    (Z.of_nat nPK) (if bOtaRowid then 1 else 0) = Some (fs, ctl) ->
  fs !! j = Some (FValue v) ->
  exists x y : value,
    n !! j = Some x /\ o !! j = Some y /\
    v = (if (j <? nPK)%nat then x
         else if sql_is x y then VNull else x).
Proof.
  intros Hlen Hpk Hrow Hj. unfold rbu_update_values in Hrow.
  destruct (column _ (Z.of_nat (length n))) as [| | |z|]; try discriminate Hrow.
  pose proof (rbu_columns_post char_signed fuel _ _ _ _ _ _ _ _ _ Hrow)
    as (_ & Hfs & _).
  assert (j < length n)%nat as Hjn by (apply lookup_lt_Some in Hj; lia).
  pose proof (rbu_columns_values _ _ _ _ _ _ _ _ _ _ _ Hrow Hj) as Hv.
  rewrite Z.add_0_l in Hv.
  destruct (lookup_lt_is_Some_2 n j Hjn) as [x Hx].
  destruct (lookup_lt_is_Some_2 o j ltac:(lia)) as [y Hy].
  exists x, y. split; [exact Hx|]. split; [exact Hy|].
  destruct (Nat.ltb_spec j nPK) as [Hkey|Hdata].
  - rewrite <- Hv. unfold column, update_row.
    rewrite Nat2Z.id, nth_lookup.
    rewrite lookup_app_l by (rewrite length_take; lia).
    now rewrite lookup_take_lt, Hx by lia.
  - destruct (update_row_cells sql_is nPK bOtaRowid n o j x y Hlen Hdata Hx Hy)
      as [C1 _].
    now rewrite <- Hv, C1.
Qed.

End RbuValues.

Lemma rbu_literal_fields_witness :
  exists x y : value,
    [VInt 1; VBlob blob_S5_new] !! 0%nat = Some x /\
    [VInt 1; VBlob blob_S5_old] !! 0%nat = Some y /\
    VInt 1 = (if (0 <? 1)%nat then x
              else if sample_is x y then VNull else x).
Proof.
  apply (rbu_literal_fields sample_is true 600 1 false
           [VInt 1; VBlob blob_S5_new] [VInt 1; VBlob blob_S5_old]
           fields_S5 control_S5 0 (VInt 1)).
  - reflexivity.
  - cbn. lia.
  - vm_compute. reflexivity.
  - vm_compute. reflexivity.
Defined.


(** ** A statement of the classic emitter is one logical line *)

(** Text that can stand inside a logical line: no newline, no NUL, and an
    even number of double quotes. *)
Definition line_part (s : string) : Prop :=
  Forall (fun c => c <> newline /\ c <> nul) (chars s) /\
  forall q : bool, quote_state s q = q.

Lemma line_part_append (a b : string) :
  line_part a -> line_part b -> line_part (String.append a b).
Proof.
  intros [Ha1 Ha2] [Hb1 Hb2]. split.
  - rewrite chars_append. apply Forall_app. now split.
  - intros q. now rewrite quote_state_append, Ha2, Hb2.
Qed.

Lemma line_part_cons (c : ascii) (s : string) :
  c <> newline -> c <> nul -> c <> dquote -> line_part s ->
  line_part (String c s).
Proof.
  intros Hn Hz Hd [H1 H2]. split.
  - cbn [chars]. apply Forall_cons. now split.
  - intros q. cbn [quote_state].
    destruct (Ascii.eqb_spec c dquote); [contradiction | apply H2].
Qed.

Lemma line_part_empty : line_part EmptyString.
Proof. split; [constructor | reflexivity]. Qed.

(** Text without newline, NUL and double quote. *)
Lemma line_part_plain (s : string) :
  Forall (fun c => c <> newline /\ c <> nul /\ c <> dquote) (chars s) ->
  line_part s.
Proof.
  induction s as [|c s IH]; cbn [chars]; intros H; [apply line_part_empty|].
  apply Forall_cons in H as [(Hn & Hz & Hd) Hs].
  apply line_part_cons; auto.
Qed.

(** Goals on text put together from literals and parts known to fit. *)
Ltac fits :=
  repeat match goal with
         | H : line_part ?s |- line_part ?s => exact H
         | |- line_part EmptyString => apply line_part_empty
         | |- line_part (String _ _) =>
             apply line_part_cons; [discriminate | discriminate | discriminate |]
         | |- line_part (String.append _ _) => apply line_part_append
         end.

Ltac line_literal :=
  apply line_part_plain; cbn [chars];
  repeat (apply Forall_cons; split; [repeat split; discriminate|]); constructor.

Lemma line_part_concat (l : list string) :
  Forall line_part l -> line_part (concat_text l).
Proof.
  induction 1 as [|s l Hs _ IH]; [apply line_part_empty|].
  cbn [concat_text fold_right]. now apply line_part_append.
Qed.

Lemma uint_text_plain (d : Decimal.uint) :
  Forall (fun c => c <> newline /\ c <> nul /\ c <> dquote)
    (chars (NilEmpty.string_of_uint d)).
Proof.
  induction d; cbn [NilEmpty.string_of_uint chars];
    [constructor | ..];
    (apply Forall_cons; split; [repeat split; discriminate | assumption]).
Qed.

Lemma int_text_line_part (i : Z) :
  line_part (NilZero.string_of_int (Z.to_int i)).
Proof.
  assert (forall d, line_part (NilZero.string_of_uint d)) as Hu.
  { intros d. destruct d; [line_literal | ..];
      apply line_part_plain, (uint_text_plain (_ _)). }
  destruct (Z.to_int i) as [d|d]; cbn [NilZero.string_of_int]; [apply Hu|].
  apply (line_part_append "-"); [line_literal | apply Hu].
Qed.

Lemma hex_digit_plain (n : Z) :
  hex_digit n <> newline /\ hex_digit n <> nul /\ hex_digit n <> dquote.
Proof.
  unfold hex_digit. generalize (Z.to_nat n). intros k.
  do 16 (destruct k as [|k]; [repeat split; discriminate|]).
  destruct k; cbn; repeat split; discriminate.
Qed.

(** The text that C code sees behind a [char *]: up to the first NUL. *)
Fixpoint c_text (z : string) : string :=
  match z with
  | EmptyString => EmptyString
  | String c z' => if Ascii.eqb c nul then EmptyString else String c (c_text z')
  end.

Lemma escape_q_line_part (z : string) :
  line_part (c_text z) -> line_part (escape_q z).
Proof.
  intros [H1 H2]. split.
  - clear H2. induction z as [|c z IH]; [constructor|].
    cbn [c_text escape_q] in *.
    destruct (Ascii.eqb c nul); [constructor|].
    cbn [chars] in H1. apply Forall_cons in H1 as [Hc H1].
    destruct (Ascii.eqb c "'"%char); cbn [chars];
      repeat (apply Forall_cons; split; [exact Hc|]); now apply IH.
  - intros q. rewrite <- (H2 q) at 2. clear. revert q.
    induction z as [|c z IH]; intros q; [reflexivity|].
    cbn [c_text escape_q]. destruct (Ascii.eqb c nul); [reflexivity|].
    destruct (Ascii.eqb_spec c "'"%char) as [->|_]; cbn [quote_state].
    + change (Ascii.eqb "'" dquote) with false. cbn iota. apply IH.
    + apply IH.
Qed.

Section OneLine.

Variable snprintf_15g : Z -> string.
Variable sqlite3_column_int : value -> Z.
Variable zId : string.
Variable az2 : list string.
Variables nPk nPk2 nQ : Z.

(** A cell whose literal can stand inside a line; of a TEXT only the
    part before its first NUL is written. *)
Definition cell_fits (v : value) : Prop :=
  match v with
  | VText z => line_part (c_text z)
  | VFloat r => line_part (snprintf_15g r)
  | _ => True
  end.

Lemma printQuoted_line_part (v : value) :
  cell_fits v -> line_part (printQuoted snprintf_15g v).
Proof.
  destruct v as [|i|r|z|b]; cbn [cell_fits printQuoted].
  - intros _. line_literal.
  - intros _. apply int_text_line_part.
  - auto.
  - intros Hz. apply (line_part_append "'"); [line_literal|].
    apply line_part_append; [now apply escape_q_line_part | line_literal].
  - intros _. destruct b as [|x b]; [line_literal|]. unfold hex_text.
    apply (line_part_append "x'"); [line_literal|].
    apply line_part_append; [|line_literal].
    apply line_part_concat, Forall_map, Forall_forall. intros y _.
    apply line_part_plain. unfold hex_byte. cbn [chars].
    repeat (apply Forall_cons; split; [apply hex_digit_plain|]).
    constructor.
Qed.

Hypothesis zId_fits : line_part zId.
Hypothesis az2_fits : Forall line_part az2.

Lemma name_at_fits (i : Z) : line_part (name_at az2 i).
Proof.
  unfold name_at.
  destruct (nth_in_or_default (Z.to_nat i) az2 EmptyString) as [Hin| ->].
  - rewrite Forall_forall in az2_fits. apply az2_fits.
    now apply list_elem_of_In.
  - line_literal.
Qed.

Section Row.

Variable row : list value.
Hypothesis row_fits : Forall cell_fits row.

Lemma cell_line_part (i : Z) :
  line_part (printQuoted snprintf_15g (column row i)).
Proof.
  apply printQuoted_line_part. unfold column.
  destruct (nth_in_or_default (Z.to_nat i) row VNull) as [Hin| ->].
  - rewrite Forall_forall in row_fits. apply row_fits.
    now apply list_elem_of_In.
  - exact I.
Qed.

Lemma update_sets_fits (fuel : nat) : forall (i : Z) (zSep s : string),
  line_part zSep ->
  update_sets snprintf_15g sqlite3_column_int az2 nPk nQ fuel row i zSep
  = Some s ->
  line_part s.
Proof.
  induction fuel as [|fuel IH]; intros i zSep s Hsep; cbn [update_sets].
  - destruct (i <? nQ); [discriminate|]. intros [= <-]. line_literal.
  - destruct (i <? nQ); [|intros [= <-]; line_literal].
    destruct (_ =? 0); [now apply IH|].
    intros H. apply bind_Some in H as (rest & Hrest & [= <-]).
    apply IH in Hrest; [|line_literal].
    pose proof (name_at_fits ((i + nPk - 1) / 2)).
    pose proof (cell_line_part (i + 1)). fits.
Qed.

Lemma where_keys_fits (k : nat) : forall (i : Z) (zSep : string),
  line_part zSep ->
  line_part (where_keys snprintf_15g az2 k row i zSep).
Proof.
  induction k as [|k IH]; intros i zSep Hsep; cbn [where_keys];
    [line_literal|].
  pose proof (name_at_fits i). pose proof (cell_line_part i).
  pose proof (IH (i + 1) " AND"%string ltac:(line_literal)). fits.
Qed.

Lemma insert_keys_fits (k : nat) : forall (i : Z) (zSep : string),
  line_part zSep ->
  line_part (insert_keys snprintf_15g k row i zSep).
Proof.
  induction k as [|k IH]; intros i zSep Hsep; cbn [insert_keys];
    [line_literal|].
  pose proof (cell_line_part i).
  pose proof (IH (i + 1) ","%string ltac:(line_literal)). fits.
Qed.

Lemma insert_data_fits (fuel : nat) : forall (i : Z) (s : string),
  insert_data snprintf_15g nQ fuel row i = Some s -> line_part s.
Proof.
  induction fuel as [|fuel IH]; intros i s; cbn [insert_data].
  - destruct (i <? nQ); [discriminate|]. intros [= <-]. line_literal.
  - destruct (i <? nQ); [|intros [= <-]; line_literal].
    intros H. apply bind_Some in H as (rest & Hrest & [= <-]).
    apply IH in Hrest. pose proof (cell_line_part i). fits.
Qed.

Lemma insert_names_fits : line_part (insert_names az2).
Proof.
  unfold insert_names. apply line_part_append; [apply name_at_fits|].
  apply line_part_concat, Forall_map.
  assert (Forall line_part (tl az2)) as Htl
      by (destruct az2; [constructor | now apply Forall_cons in az2_fits as [_ H]]).
  eapply Forall_impl; [exact Htl|]. intros z Hz. cbn. fits.
Qed.

(** Whatever the row, when the table name, the column names and the
    literals of the cells hold no newline, no NUL and an even number of
    double quotes each, and the statement written for the row has fewer
    than a thousand million characters, that statement is one logical
    line: it ends in a semicolon and a newline, and [local_getline] reads
    it back whole, leaving what follows unread. *)
Theorem diff_row_is_one_line (fuel : nat) (out rest : string) :
  diff_row snprintf_15g sqlite3_column_int zId az2 nPk nPk2 nQ fuel row
  = Some out ->
  Z.of_nat (String.length out) < 1000000000 ->
  exists l : string,
    out = String.append l (String.append ";" nl) /\
    line_part l /\
    local_getline (String.append out rest)
    = Some (String.append l ";", rest).
Proof.
  intros H Hshort.
  assert (exists l, out = String.append l (String.append ";" nl) /\
                    line_part l) as (l & -> & Hl).
  { unfold diff_row in H. cbv zeta in H.
    destruct ((_ =? 1) || (_ =? 2)).
    - apply bind_Some in H as (head & Hhead & [= <-]).
      exists (String.append head
                (where_keys snprintf_15g az2 (Z.to_nat nPk) row 0 " WHERE")).
      split; [now rewrite append_assoc|].
      apply line_part_append; [|apply where_keys_fits; line_literal].
      destruct (_ =? 1).
      + apply bind_Some in Hhead as (sets & Hsets & [= <-]).
        apply update_sets_fits in Hsets; [|line_literal].
        pose proof zId_fits. fits.
      + injection Hhead as <-. pose proof zId_fits. fits.
    - apply bind_Some in H as (data & Hdata & [= <-]).
      apply insert_data_fits in Hdata.
      exists (String.append "INSERT INTO "
                (String.append zId
                   (String.append "("
                      (String.append (insert_names az2)
                         (String.append ") VALUES"
                            (String.append
                               (insert_keys snprintf_15g (Z.to_nat nPk2) row 0 "(")
                               (String.append data ")"))))))).
      split; [rewrite !append_assoc; reflexivity|].
      pose proof zId_fits. pose proof insert_names_fits.
      pose proof (insert_keys_fits (Z.to_nat nPk2) 0 "("%string
                    ltac:(line_literal)).
      fits. }
  exists l. split; [reflexivity|]. split; [exact Hl|].
  replace (String.append (String.append l (String.append ";" nl)) rest)
    with (String.append (String.append l ";") (String newline rest))
    by (rewrite !append_assoc; reflexivity).
  apply local_getline_statement.
  assert (line_part (String.append l ";")) as [Hc Hq] by fits.
  rewrite Forall_forall in Hc.
  split; [|split; [|split; [|split]]].
  - intros Hin. apply list_elem_of_In, Hc in Hin. now destruct Hin.
  - intros Hin. apply list_elem_of_In, Hc in Hin. now destruct Hin.
  - apply Hq.
  - rewrite chars_append. cbn [chars]. rewrite List.last_last. discriminate.
  - rewrite !string_length_append in *. cbn [String.length nl] in *. lia.
Qed.

End Row.

End OneLine.

Lemma diff_row_is_one_line_witness :
  exists l : string,
    String.append "INSERT INTO t(a,b,c) VALUES(3,NULL,'it''s');" nl
    = String.append l (String.append ";" nl) /\
    line_part l /\
    local_getline
      (String.append
         (String.append "INSERT INTO t(a,b,c) VALUES(3,NULL,'it''s');" nl)
         "DELETE FROM t WHERE a=2;")
    = Some (String.append l ";", "DELETE FROM t WHERE a=2;"%string).
Proof.
  refine (diff_row_is_one_line (fun _ => EmptyString) sample_int "t"
            ["a"; "b"; "c"]%string 1 1 6 _ _
            (query_row [VInt 3] (VInt 3) [(VInt 1, VNull); (VInt 1, VText "it's")])
            _ 2 _ "DELETE FROM t WHERE a=2;" eq_refl _).
  - line_literal.
  - repeat (constructor; [line_literal|]). constructor.
  - unfold query_row. cbn [app map fst snd flat_map].
    repeat (constructor; [first [exact I | cbn; line_literal]|]). constructor.
  - vm_compute. reflexivity.
Defined.
